(** * MXINT4 systolic-array matrix multiply: model and properties

    A shallow embedding of [src/sa.h], [src/sa.cpp] and the codec and
    reference model of [main.cpp].

    Conventions.
    - [int8_t], [uint8_t] and [int32_t] values are integers of [Z]; every
      conversion to a narrower type is written out ([wrap8], [wrap32]).
    - [int] index arithmetic is carried out in [Z], where the contract
      of the engine keeps it within 32 bits; the product [K * N] of the
      codec, which has no such contract, is reduced to 32 bits.  [/] and
      [%] on [int] are the truncating [Z.quot] and [Z.rem] of C++.
    - Buffers ([tapa::mmap], [std::vector]) are lists; an access outside a
      buffer or outside a static array is a fault, the [None] of the
      [option] monad.
    - The file-scope static arrays are total maps from indices to values
      together with their declared bounds, so that their contents on entry
      are arbitrary.
    - The state of the engine carries a log of the indices it has stored
      to in the output buffer; nothing the engine computes reads it.
    - A finite [float] is a rational number of [Q]; see the codec. *)

From Stdlib Require Import ZArith QArith Qround Qabs Lia Lqa Bool List.
From stdpp Require Import base list.

#[local] Open Scope Z_scope.

(** ** Constants of [sa.h] *)

Definition M_DIM : Z := 128.
Definition K_DIM : Z := 4096.
Definition N_DIM : Z := 512.
Definition PE_ROWS : Z := 16.
Definition PE_COLS : Z := 16.
Definition GROUP_SIZE : Z := 16.

(** ** Machine integers *)

(** Conversion of an [int] to [int8_t]. *)
Definition wrap8 (z : Z) : Z := (z + 128) mod 256 - 128.

(** Result of a 32-bit signed operation whose exact value is [z]. *)
Definition wrap32 (z : Z) : Z := (z + 2 ^ 31) mod 2 ^ 32 - 2 ^ 31.

Definition is_int8 (z : Z) : Prop := -128 <= z <= 127.
Definition is_uint8 (z : Z) : Prop := 0 <= z <= 255.
Definition is_int32 (z : Z) : Prop := - 2 ^ 31 <= z < 2 ^ 31.

(** ** The dequantization primitive ([sa.h], lines 21-31) *)

Definition unpack_dequantize_weight
    (packed_byte : Z) (is_upper : bool) (scale_factor : Z) : Z :=
  let w_4bit :=
    wrap8 (if is_upper then Z.land (Z.shiftr packed_byte 4) 15
           else Z.land packed_byte 15) in
  let w_4bit :=
    if Z.land w_4bit 8 =? 0 then w_4bit else wrap8 (Z.lor w_4bit 240) in
  let shift_amount := (Z.land scale_factor 3 * 2) mod 256 in
  wrap8 (Z.shiftl w_4bit shift_amount).

(** ** Buffers, faults and loops *)

(** [buf[i]] for an [int] index: a fault outside the buffer. *)
Definition zget {A} (l : list A) (i : Z) : option A :=
  if i <? 0 then None else l !! Z.to_nat i.

(** [buf[i] = v]: a fault outside the buffer. *)
Definition zset {A} (l : list A) (i : Z) (v : A) : option (list A) :=
  if (0 <=? i) && (i <? Z.of_nat (length l))
  then Some (<[Z.to_nat i := v]> l) else None.

(** [n] iterations of a loop body, the index starting at [i] and moving
    by [step]; a fault in the body ends the run. *)
Fixpoint for_loop {S} (n : nat) (i step : Z)
    (body : Z -> S -> option S) (s : S) : option S :=
  match n with
  | O => Some s
  | Datatypes.S n' => s' ← body i s; for_loop n' (i + step) step body s'
  end.

(** [for (int i = lo; i < hi; ++i) body] *)
Definition for_range {S} (lo hi : Z) (body : Z -> S -> option S) : S -> option S :=
  for_loop (Z.to_nat (hi - lo)) lo 1 body.

(** [for (int i = lo; i < hi; i += step) body], [step > 0] *)
Definition for_range_by {S} (lo hi step : Z) (body : Z -> S -> option S)
  : S -> option S :=
  for_loop (Z.to_nat ((hi - lo + step - 1) / step)) lo step body.

(** ** The reference model ([main.cpp], lines 76-111) *)

Section Reference.
Variables (act wgt_packed scales : list Z).
Variables (M K N : Z).

(** One step of the reduction over [k], lines 90-105. *)
Definition cpu_reference_step (m n k sum : Z) : option Z :=
  a ← zget act (m * K + k);
  let w_idx := k * N + n in
  let packed_idx := Z.quot w_idx 2 in
  packed ← zget wgt_packed packed_idx;
  let scale_idx := Z.quot w_idx GROUP_SIZE in
  scale_factor ← zget scales scale_idx;
  let is_upper := Z.rem w_idx 2 =? 1 in
  let w := unpack_dequantize_weight packed is_upper scale_factor in
  Some (wrap32 (sum + a * w)).

(** The running [sum] after the first [k0] steps of the loop over [k]. *)
Definition cpu_reference_sum (m n k0 : Z) : option Z :=
  for_range 0 k0 (cpu_reference_step m n) 0.

(** Body of the loop over [n], lines 87-108. *)
Definition cpu_reference_cell (m n : Z) (out : list Z) : option (list Z) :=
  sum ← cpu_reference_sum m n K;
  zset out (m * N + n) sum.

Definition cpu_reference (out : list Z) : option (list Z) :=
  let out := resize (Z.to_nat (M * N)) 0 out in
  for_range 0 M (fun m => for_range 0 N (fun n => cpu_reference_cell m n)) out.
End Reference.

(** ** The tiled compute engine ([sa.cpp]) *)

(** The five file-scope static arrays, the memory-mapped output buffer,
    and a ghost log of the indices the kernel has stored to in [result]
    (latest first). *)
Record state := mkState {
  A_cache : Z -> Z -> Z -> Z;   (* int8_t  [8][PE_ROWS][K_DIM]  *)
  W_cache : Z -> Z -> Z -> Z;   (* int8_t  [32][PE_COLS][K_DIM] *)
  A_work : Z -> Z -> Z;         (* int8_t  [PE_ROWS][K_DIM]     *)
  W_work : Z -> Z -> Z;         (* int8_t  [PE_COLS][K_DIM]     *)
  C_work : Z -> Z -> Z;         (* int32_t [PE_ROWS][PE_COLS]   *)
  result : list Z;
  result_stores : list Z
}.

Definition in_dim (d i : Z) : bool := (0 <=? i) && (i <? d).

Definition upd2 (f : Z -> Z -> Z) (a b v : Z) : Z -> Z -> Z :=
  fun a' b' => if (a' =? a) && (b' =? b) then v else f a' b'.

Definition upd3 (f : Z -> Z -> Z -> Z) (a b c v : Z) : Z -> Z -> Z -> Z :=
  fun a' b' c' => if (a' =? a) && (b' =? b) && (c' =? c) then v else f a' b' c'.

Definition get_A_cache (t i k : Z) (s : state) : option Z :=
  if in_dim 8 t && in_dim PE_ROWS i && in_dim K_DIM k
  then Some (A_cache s t i k) else None.

Definition set_A_cache (t i k v : Z) (s : state) : option state :=
  if in_dim 8 t && in_dim PE_ROWS i && in_dim K_DIM k
  then Some (mkState (upd3 (A_cache s) t i k v) (W_cache s) (A_work s)
                     (W_work s) (C_work s) (result s) (result_stores s))
  else None.

Definition get_W_cache (t j k : Z) (s : state) : option Z :=
  if in_dim 32 t && in_dim PE_COLS j && in_dim K_DIM k
  then Some (W_cache s t j k) else None.

Definition set_W_cache (t j k v : Z) (s : state) : option state :=
  if in_dim 32 t && in_dim PE_COLS j && in_dim K_DIM k
  then Some (mkState (A_cache s) (upd3 (W_cache s) t j k v) (A_work s)
                     (W_work s) (C_work s) (result s) (result_stores s))
  else None.

Definition get_A_work (i k : Z) (s : state) : option Z :=
  if in_dim PE_ROWS i && in_dim K_DIM k then Some (A_work s i k) else None.

Definition set_A_work (i k v : Z) (s : state) : option state :=
  if in_dim PE_ROWS i && in_dim K_DIM k
  then Some (mkState (A_cache s) (W_cache s) (upd2 (A_work s) i k v)
                     (W_work s) (C_work s) (result s) (result_stores s))
  else None.

Definition get_W_work (j k : Z) (s : state) : option Z :=
  if in_dim PE_COLS j && in_dim K_DIM k then Some (W_work s j k) else None.

Definition set_W_work (j k v : Z) (s : state) : option state :=
  if in_dim PE_COLS j && in_dim K_DIM k
  then Some (mkState (A_cache s) (W_cache s) (A_work s)
                     (upd2 (W_work s) j k v) (C_work s) (result s) (result_stores s))
  else None.

Definition get_C_work (i j : Z) (s : state) : option Z :=
  if in_dim PE_ROWS i && in_dim PE_COLS j then Some (C_work s i j) else None.

Definition set_C_work (i j v : Z) (s : state) : option state :=
  if in_dim PE_ROWS i && in_dim PE_COLS j
  then Some (mkState (A_cache s) (W_cache s) (A_work s) (W_work s)
                     (upd2 (C_work s) i j v) (result s) (result_stores s))
  else None.

Definition set_result (p v : Z) (s : state) : option state :=
  r ← zset (result s) p v;
  Some (mkState (A_cache s) (W_cache s) (A_work s) (W_work s) (C_work s)
                r (p :: result_stores s)).

Section Kernel.
Variables (activations weights_packed scales : list Z).
Variables (M K N : Z).

(** Body of [load_act_tile], lines 50-53. *)
Definition load_act_step (m_tile idx : Z) (s : state) : option state :=
  let i := Z.quot idx K in
  let k := Z.rem idx K in
  let m_idx := m_tile * PE_ROWS + i in
  v ← zget activations (m_idx * K + k);
  set_A_cache m_tile i k v s.

(** Body of [load_wgt_tile], lines 70-81. *)
Definition load_wgt_step (n_tile idx : Z) (s : state) : option state :=
  let j := Z.quot idx K in
  let k := Z.rem idx K in
  let n_idx := n_tile * PE_COLS + j in
  let w_linear := k * N + n_idx in
  packed_byte ← zget weights_packed (Z.quot w_linear 2);
  scale_factor ← zget scales (Z.quot w_linear GROUP_SIZE);
  let is_upper := negb (Z.land w_linear 1 =? 0) in
  set_W_cache n_tile j k
    (unpack_dequantize_weight packed_byte is_upper scale_factor) s.

(** Body of [copy_to_work], lines 102-110. *)
Definition copy_step (m_tile n_tile k : Z) (s : state) : option state :=
  s ← for_range 0 PE_ROWS
        (fun i s => v ← get_A_cache m_tile i k s; set_A_work i k v s) s;
  for_range 0 PE_COLS
        (fun j s => v ← get_W_cache n_tile j k s; set_W_work j k v s) s.

(** Lines 114-119. *)
Definition init_output : state -> option state :=
  for_range 0 PE_ROWS (fun i =>
    for_range 0 PE_COLS (fun j => set_C_work i j 0)).

(** One processing element at reduction step [k], lines 133-135; the
    product of two [int8_t] values is exact in [int32_t]. *)
Definition mac_step (k i j : Z) (s : state) : option state :=
  a ← get_A_work i k s;
  w ← get_W_work j k s;
  c ← get_C_work i j s;
  set_C_work i j (wrap32 (c + a * w)) s.

(** Body of [compute], lines 129-137. *)
Definition compute_step (k : Z) : state -> option state :=
  for_range 0 PE_ROWS (fun i => for_range 0 PE_COLS (fun j => mac_step k i j)).

(** Body of [write_output], lines 146-151. *)
Definition write_step (m_tile n_tile idx : Z) (s : state) : option state :=
  let i := Z.quot idx PE_COLS in
  let j := Z.rem idx PE_COLS in
  let m_idx := m_tile * PE_ROWS + i in
  let n_idx := n_tile * PE_COLS + j in
  c ← get_C_work i j s;
  set_result (m_idx * N + n_idx) c s.

(** Body of [n_loop], lines 96-152. *)
Definition compute_tile (m_tile n_tile : Z) (s : state) : option state :=
  s ← for_range 0 K (copy_step m_tile n_tile) s;
  s ← init_output s;
  s ← for_range 0 K compute_step s;
  for_range 0 (PE_ROWS * PE_COLS) (write_step m_tile n_tile) s.

Definition load_all_act (NUM_M_TILES : Z) : state -> option state :=
  for_range 0 NUM_M_TILES (fun m_tile =>
    for_range 0 (PE_ROWS * K) (load_act_step m_tile)).

Definition load_all_wgt (NUM_N_TILES : Z) : state -> option state :=
  for_range 0 NUM_N_TILES (fun n_tile =>
    for_range 0 (PE_COLS * K) (load_wgt_step n_tile)).

Definition compute_all (NUM_M_TILES NUM_N_TILES : Z) : state -> option state :=
  for_range 0 NUM_M_TILES (fun m_tile =>
    for_range 0 NUM_N_TILES (fun n_tile => compute_tile m_tile n_tile)).

Definition SystolicArrayKernel (s : state) : option state :=
  let NUM_M_TILES := Z.quot M PE_ROWS in
  let NUM_N_TILES := Z.quot N PE_COLS in
  s ← load_all_act NUM_M_TILES s;
  s ← load_all_wgt NUM_N_TILES s;
  compute_all NUM_M_TILES NUM_N_TILES s.
End Kernel.

(** ** The quantization codec ([main.cpp], lines 23-73)

    A finite [float] is a rational number; weights are values of [Q].
    [std::fabs], [std::max] and [std::round] return the exact rational
    result, and so does the division by [scale_val], a power of two not
    above 64 (short of underflow, where the quotient and its rounded
    value both round to 0); they are modelled by the rational operations.
    [std::log2] is the one operation whose result is rounded:
    [(int)std::floor(std::log2(x))] is a parameter [floor_log2] of the
    model, and [floor_log2f] below is the function the C library
    computes.  A conversion of an integral [float] to [int8_t] keeps the
    low eight bits. *)

(** [std::max(a, b)] is [(a < b) ? b : a]. *)
Definition fmax (a b : Q) : Q := if Qle_bool b a then a else b.

(** [std::round]: to the nearest integer, halves away from zero. *)
Definition fround (x : Q) : Z :=
  if Qle_bool 0 x then Qfloor (x + (1 # 2)) else Qceiling (x - (1 # 2)).

(** [std::max((int8_t)-8, std::min((int8_t)7, w))] *)
Definition clamp4 (w : Z) : Z := Z.max (-8) (Z.min 7 w).

(** [v.resize(n)] for an [int] count [n]: a negative count converts to
    a size above [max_size()], and the call throws; the new elements
    are [x]. *)
Definition vresize {A} (n : Z) (x : A) (v : list A) : option (list A) :=
  if n <? 0 then None else Some (resize (Z.to_nat n) x v).

(** [(w0 & 0x0F) | ((w1 & 0x0F) << 4)] *)
Definition pack_nibbles (w0 w1 : Z) : Z :=
  Z.lor (Z.land w0 15) (Z.shiftl (Z.land w1 15) 4).

Section Quantize.
Variable floor_log2 : Q -> Z.
Variable weights_fp32 : list Q.

(** Lines 38-41. *)
Definition group_max_abs (base_idx : Z) : option Q :=
  for_range 0 GROUP_SIZE
    (fun i max_abs =>
       w ← zget weights_fp32 (base_idx + i);
       Some (fmax max_abs (Qabs w)))
    0%Q.

(** Lines 44-48. *)
Definition group_shift (max_abs : Q) : Z :=
  if negb (Qle_bool max_abs 0)
  then Z.max 0 (Z.min 3 (floor_log2 max_abs - 3))
  else 0.

(** Lines 61-62 and 65-66, for one weight. *)
Definition quantize_weight (scale_val : Q) (w : Q) : Z :=
  clamp4 (wrap8 (fround (w / scale_val))).

(** Body of the loop over pairs, lines 57-70. *)
Definition quantize_pair (base_idx : Z) (scale_val : Q) (i : Z)
    (weights_packed : list Z) : option (list Z) :=
  let idx0 := base_idx + i in
  let idx1 := base_idx + i + 1 in
  x0 ← zget weights_fp32 idx0;
  x1 ← zget weights_fp32 idx1;
  let w0 := quantize_weight scale_val x0 in
  let w1 := quantize_weight scale_val x1 in
  let packed := pack_nibbles w0 w1 in
  zset weights_packed (Z.quot idx0 2) packed.

(** Body of the loop over groups, lines 35-71; the state is the pair
    of output vectors [(weights_packed, scales)]. *)
Definition quantize_group (grp : Z) (st : list Z * list Z)
    : option (list Z * list Z) :=
  let base_idx := grp * GROUP_SIZE in
  max_abs ← group_max_abs base_idx;
  let shift := group_shift max_abs in
  scales ← zset (snd st) grp (shift mod 256);
  let scale_val := inject_Z (2 ^ (shift * 2)) in
  weights_packed ←
    for_range_by 0 GROUP_SIZE 2 (quantize_pair base_idx scale_val) (fst st);
  Some (weights_packed, scales).

(** Lines 29-72.  [total_weights] is the [int] product of [K] and [N]. *)
Definition quantize_mxint4 (weights_packed scales : list Z) (K N : Z)
    : option (list Z * list Z) :=
  let total_weights := wrap32 (K * N) in
  weights_packed ← vresize (Z.quot total_weights 2) 0 weights_packed;
  scales ← vresize (Z.quot total_weights GROUP_SIZE) 0 scales;
  for_range 0 (Z.quot total_weights GROUP_SIZE) quantize_group
    (weights_packed, scales).
End Quantize.

(** The mathematical [floor (log2 x)] of a positive rational, found by
    correcting the difference of the bit lengths of numerator and
    denominator: the integer [e] with [2^e <= x < 2^(e+1)]. *)
Definition floor_log2_exact (x : Q) : Z :=
  let n := Qnum x in
  let d := Z.pos (Qden x) in
  let e := Z.log2 n - Z.log2 d in
  if e >=? 0
  then (if d * 2 ^ e <=? n then e else e - 1)
  else (if d <=? n * 2 ^ (- e) then e else e - 1).

(** The number of steps of [2^(y-24)] below [2^y] on which the
    single-precision [log2] rounds up to the integer [y]:
    [floor (2^k ln 2)], where [2^(k-23)] is the distance from [y] to the
    [float] below it, that is, [2^k < y <= 2^(k+1)] or
    [2^k <= -y < 2^(k+1)]. *)
Definition round_up_steps (y : Z) : Z :=
  let k :=
    if y =? 0 then 0 else if 0 <? y then Z.log2 (y - 1) else Z.log2 (- y) in
  match k with
  | 0 => 0 | 1 => 1 | 2 => 2 | 3 => 5 | 4 => 11 | 5 => 22 | 6 => 44 | _ => 88
  end.

(** [(int)std::floor(std::log2(x))] for a [float] [x > 0].  [std::log2]
    on a [float] is the single-precision logarithm of the C library,
    which returns the [float] nearest to [log2 x].  With [e] the exponent
    of [x] and [y = e + 1], that [float] lies in [e .. y], and it is [y]
    itself when [log2 x] is at least [y - h], [h] half the distance from
    [y] to the [float] below it: for the [float]s from
    [2^y (1 - n / 2^24)] on, [n = floor (2^24 h ln 2)].  On every
    positive finite [float] this is the value [log2f] of glibc gives. *)
Definition floor_log2f (x : Q) : Z :=
  let e := floor_log2_exact x in
  let y := e + 1 in
  if Qle_bool (1 - (round_up_steps y # 16777216)) (x / 2 ^ y) then y else e.

(** * Properties *)

(** The 4-bit field selected by the flag, read as a two's-complement
    number of [-8 .. 7]. *)
Definition nibble_field (packed_byte : Z) (is_upper : bool) : Z :=
  if is_upper then packed_byte / 16 else packed_byte mod 16.

Definition nibble_signed (packed_byte : Z) (is_upper : bool) : Z :=
  let u := nibble_field packed_byte is_upper in
  if u <? 8 then u else u - 16.

(** The weight a nibble and a scale byte stand for. *)
Definition weight_value (packed_byte : Z) (is_upper : bool) (scale_factor : Z) : Z :=
  nibble_signed packed_byte is_upper * 2 ^ (2 * (scale_factor mod 4)).

(** Exhaustive check of a predicate over [0 .. n-1]. *)
Fixpoint all_below (n : nat) (p : Z -> bool) : bool :=
  match n with
  | O => true
  | S n' => p (Z.of_nat n') && all_below n' p
  end.

Lemma all_below_spec n p :
  all_below n p = true -> forall z, 0 <= z < Z.of_nat n -> p z = true.
Proof.
  induction n as [|n IH]; intros H z Hz; [lia|].
  simpl in H. apply andb_true_iff in H as [H1 H2].
  destruct (Z.eq_dec z (Z.of_nat n)) as [->|Hne]; [exact H1|].
  apply IH; [exact H2|lia].
Qed.

Lemma wrap8_range z : is_int8 (wrap8 z).
Proof. unfold is_int8, wrap8. pose proof (Z.mod_pos_bound (z + 128) 256). lia. Qed.

Lemma wrap8_id z : is_int8 z -> wrap8 z = z.
Proof. unfold is_int8, wrap8. intros H. rewrite Z.mod_small; lia. Qed.

Lemma wrap32_id z : is_int32 z -> wrap32 z = z.
Proof. unfold is_int32, wrap32. intros H. rewrite Z.mod_small; lia. Qed.

Lemma unpack_dequantize_weight_int8 b u s :
  is_int8 (unpack_dequantize_weight b u s).
Proof. unfold unpack_dequantize_weight. apply wrap8_range. Qed.

(** The primitive only looks at the two low bits of the scale byte. *)
Lemma unpack_dequantize_weight_scale_mod b u s :
  0 <= s -> unpack_dequantize_weight b u s = unpack_dequantize_weight b u (s mod 4).
Proof.
  intros Hs. unfold unpack_dequantize_weight.
  change 3 with (Z.ones 2). rewrite !Z.land_ones by lia.
  change (2 ^ 2) with 4. rewrite Z.mod_mod by lia. reflexivity.
Qed.

Definition dequant_table_ok : bool :=
  all_below 256 (fun b =>
    forallb (fun u =>
      all_below 4 (fun s =>
        unpack_dequantize_weight b u s =? wrap8 (weight_value b u s)))
      [false; true]).

Lemma dequant_table_ok_true : dequant_table_ok = true.
Proof. vm_compute. reflexivity. Qed.

Lemma unpack_dequantize_weight_wrap b u s :
  is_uint8 b -> 0 <= s ->
  unpack_dequantize_weight b u s = wrap8 (weight_value b u s).
Proof.
  intros Hb Hs.
  rewrite unpack_dequantize_weight_scale_mod by exact Hs.
  assert (Hw : weight_value b u s = weight_value b u (s mod 4)).
  { unfold weight_value. rewrite Z.mod_mod by lia. reflexivity. }
  rewrite Hw.
  pose proof (Z.mod_pos_bound s 4 ltac:(lia)) as Hm.
  pose proof dequant_table_ok_true as Ht.
  unfold dequant_table_ok in Ht.
  pose proof (all_below_spec 256 _ Ht b ltac:(unfold is_uint8 in Hb; lia)) as Hb'.
  cbv beta in Hb'.
  assert (Hu : all_below 4 (fun s0 =>
             unpack_dequantize_weight b u s0 =? wrap8 (weight_value b u s0)) = true).
  { cbn [forallb] in Hb'. rewrite andb_true_r in Hb'.
    apply andb_true_iff in Hb' as [H0 H1]. destruct u; assumption. }
  pose proof (all_below_spec 4 _ Hu (s mod 4) ltac:(lia)) as Hfin.
  cbv beta in Hfin. apply Z.eqb_eq in Hfin. exact Hfin.
Qed.

(** ** Buffers and loops *)

Lemma zget_Some {A} (l : list A) i v :
  zget l i = Some v <-> 0 <= i /\ l !! Z.to_nat i = Some v.
Proof.
  unfold zget. destruct (Z.ltb_spec i 0); split; intros H'.
  - discriminate.
  - lia.
  - split; [lia | exact H'].
  - apply H'.
Qed.

Lemma zget_lt {A} (l : list A) i v :
  zget l i = Some v -> 0 <= i < Z.of_nat (length l).
Proof.
  intros [H0 H]%zget_Some. apply lookup_lt_Some in H. lia.
Qed.

Lemma zget_in_range {A} (l : list A) i :
  0 <= i < Z.of_nat (length l) -> exists v, zget l i = Some v.
Proof.
  intros H. destruct (lookup_lt_is_Some_2 l (Z.to_nat i)) as [v Hv]; [lia|].
  exists v. apply zget_Some. split; [lia | exact Hv].
Qed.

Lemma zget_None {A} (l : list A) i :
  ~ (0 <= i < Z.of_nat (length l)) -> zget l i = None.
Proof.
  intros H. destruct (zget l i) as [v|] eqn:E; [|reflexivity].
  apply zget_lt in E. contradiction.
Qed.

Lemma zset_Some {A} (l l' : list A) i v :
  zset l i v = Some l' <->
  0 <= i < Z.of_nat (length l) /\ l' = <[Z.to_nat i := v]> l.
Proof.
  unfold zset.
  destruct (Z.leb_spec 0 i), (Z.ltb_spec i (Z.of_nat (length l))); simpl;
    split; intros H'; try discriminate; try lia.
  - inversion H'. split; [lia | reflexivity].
  - destruct H' as [_ ->]. reflexivity.
Qed.

Lemma zset_in_range {A} (l : list A) i v :
  0 <= i < Z.of_nat (length l) -> zset l i v = Some (<[Z.to_nat i := v]> l).
Proof. intros H. apply zset_Some. split; [exact H | reflexivity]. Qed.

Lemma zset_length {A} (l l' : list A) i v :
  zset l i v = Some l' -> length l' = length l.
Proof. intros [_ ->]%zset_Some. apply length_insert. Qed.

Lemma zget_zset_eq {A} (l l' : list A) i v :
  zset l i v = Some l' -> zget l' i = Some v.
Proof.
  intros [Hi ->]%zset_Some. apply zget_Some. split; [lia|].
  apply list_lookup_insert_eq. lia.
Qed.

Lemma zget_zset_ne {A} (l l' : list A) i j v :
  zset l i v = Some l' -> i <> j -> zget l' j = zget l j.
Proof.
  intros [Hi ->]%zset_Some Hne. unfold zget.
  destruct (Z.ltb_spec j 0); [reflexivity|].
  apply list_lookup_insert_ne. lia.
Qed.

Lemma for_range_empty {S} lo hi (body : Z -> S -> option S) s :
  hi <= lo -> for_range lo hi body s = Some s.
Proof.
  intros H. unfold for_range.
  replace (Z.to_nat (hi - lo)) with O by lia. reflexivity.
Qed.

(** Partial correctness of a loop: an invariant kept by every iteration
    that returns holds of the state the loop returns. *)
Lemma for_range_partial {S} (I : Z -> S -> Prop) lo hi body s s' :
  lo <= hi -> I lo s ->
  (forall i t t', lo <= i < hi -> I i t -> body i t = Some t' -> I (i + 1) t') ->
  for_range lo hi body s = Some s' -> I hi s'.
Proof.
  intros Hle H0 Hstep. unfold for_range.
  remember (Z.to_nat (hi - lo)) as n eqn:Hn.
  assert (Hhi : hi = lo + Z.of_nat n) by lia. clear Hn. subst hi.
  clear Hle. revert lo s H0 Hstep.
  induction n as [|n IH]; intros lo s H0 Hstep Hrun.
  - simpl in Hrun. inversion Hrun; subst. replace (lo + Z.of_nat 0) with lo by lia.
    exact H0.
  - simpl in Hrun. destruct (body lo s) as [t|] eqn:Hb; [|discriminate].
    simpl in Hrun.
    replace (lo + Z.of_nat (Datatypes.S n)) with (lo + 1 + Z.of_nat n) by lia.
    apply (IH (lo + 1) t).
    + apply (Hstep lo s t); [lia | exact H0 | exact Hb].
    + intros i u u' Hi. apply Hstep. lia.
    + exact Hrun.
Qed.

(** Total correctness of a loop: when every iteration returns and keeps
    the invariant, so does the loop. *)
Lemma for_range_total {S} (I : Z -> S -> Prop) lo hi body s :
  lo <= hi -> I lo s ->
  (forall i t, lo <= i < hi -> I i t ->
     exists t', body i t = Some t' /\ I (i + 1) t') ->
  exists s', for_range lo hi body s = Some s' /\ I hi s'.
Proof.
  intros Hle H0 Hstep. unfold for_range.
  remember (Z.to_nat (hi - lo)) as n eqn:Hn.
  assert (Hhi : hi = lo + Z.of_nat n) by lia. clear Hn. subst hi.
  clear Hle. revert lo s H0 Hstep.
  induction n as [|n IH]; intros lo s H0 Hstep.
  - exists s. split; [reflexivity|]. replace (lo + Z.of_nat 0) with lo by lia. exact H0.
  - destruct (Hstep lo s ltac:(lia) H0) as (t & Hb & Ht).
    destruct (IH (lo + 1) t Ht) as (s' & Hrun & Hs').
    { intros i u Hi. apply Hstep. lia. }
    exists s'. split.
    + simpl. rewrite Hb. exact Hrun.
    + replace (lo + Z.of_nat (Datatypes.S n)) with (lo + 1 + Z.of_nat n) by lia.
      exact Hs'.
Qed.

(** A loop whose bounds leave no iteration returns its state. *)
Lemma for_range_partial' {S} (I : Z -> S -> Prop) lo hi body s s' :
  I lo s ->
  (forall i t t', lo <= i < hi -> I i t -> body i t = Some t' -> I (i + 1) t') ->
  for_range lo hi body s = Some s' -> I (Z.max lo hi) s'.
Proof.
  intros H0 Hstep Hrun. destruct (Z.le_gt_cases lo hi) as [Hle|Hgt].
  - rewrite Z.max_r by lia. eapply for_range_partial; eauto.
  - rewrite for_range_empty in Hrun by lia. inversion Hrun; subst.
    rewrite Z.max_l by lia. exact H0.
Qed.

(** ** Sums of products *)

(** The accumulation as both loops run it: one wrapped 32-bit addition
    per reduction step. *)
Fixpoint mac_sum (n : nat) (a w : Z -> Z) : Z :=
  match n with
  | O => 0
  | Datatypes.S n' =>
      wrap32 (mac_sum n' a w + a (Z.of_nat n') * w (Z.of_nat n'))
  end.

(** The mathematical sum of the first [n] products. *)
Fixpoint dot_product (n : nat) (a w : Z -> Z) : Z :=
  match n with
  | O => 0
  | Datatypes.S n' => dot_product n' a w + a (Z.of_nat n') * w (Z.of_nat n')
  end.

Lemma mac_sum_ext n a w a' w' :
  (forall k, 0 <= k < Z.of_nat n -> a k = a' k /\ w k = w' k) ->
  mac_sum n a w = mac_sum n a' w'.
Proof.
  induction n as [|n IH]; intros H; [reflexivity|].
  simpl. rewrite IH by (intros k Hk; apply H; lia).
  destruct (H (Z.of_nat n) ltac:(lia)) as [-> ->]. reflexivity.
Qed.

Lemma dot_product_ext n a w a' w' :
  (forall k, 0 <= k < Z.of_nat n -> a k = a' k /\ w k = w' k) ->
  dot_product n a w = dot_product n a' w'.
Proof.
  induction n as [|n IH]; intros H; [reflexivity|].
  simpl. rewrite IH by (intros k Hk; apply H; lia).
  destruct (H (Z.of_nat n) ltac:(lia)) as [-> ->]. reflexivity.
Qed.

Lemma int8_product_bound a w :
  is_int8 a -> is_int8 w -> - 16384 <= a * w <= 16384.
Proof. unfold is_int8. intros Ha Hw. nia. Qed.

Lemma dot_product_bound n a w :
  (forall k, 0 <= k < Z.of_nat n -> is_int8 (a k) /\ is_int8 (w k)) ->
  - (Z.of_nat n * 16384) <= dot_product n a w <= Z.of_nat n * 16384.
Proof.
  induction n as [|n IH]; intros H; [simpl; lia|].
  specialize (IH ltac:(intros k Hk; apply H; lia)).
  destruct (H (Z.of_nat n) ltac:(lia)) as [Ha Hw].
  pose proof (int8_product_bound _ _ Ha Hw).
  cbn [dot_product]. lia.
Qed.

(** With 8-bit operands and at most 4096 steps no addition wraps. *)
Lemma mac_sum_exact n a w :
  Z.of_nat n <= 4096 ->
  (forall k, 0 <= k < Z.of_nat n -> is_int8 (a k) /\ is_int8 (w k)) ->
  mac_sum n a w = dot_product n a w.
Proof.
  induction n as [|n IH]; intros Hn H; [reflexivity|].
  cbn [mac_sum dot_product].
  rewrite IH by (try lia; intros k Hk; apply H; lia).
  apply wrap32_id.
  pose proof (dot_product_bound (Datatypes.S n) a w H) as Hb.
  cbn [dot_product] in Hb. unfold is_int32.
  change (2 ^ 31) with 2147483648. lia.
Qed.

(** ** The reference model *)

(** Element [i] of a buffer, [0] outside it. *)
Definition zat (l : list Z) (i : Z) : Z := default 0 (zget l i).

(** The dequantized weight at a flattened index: nibble by the parity of
    the index, scale of the group the index lies in. *)
Definition weight_at (wgt_packed scales : list Z) (w_idx : Z) : Z :=
  unpack_dequantize_weight (zat wgt_packed (w_idx / 2)) (Z.odd w_idx)
                           (zat scales (w_idx / GROUP_SIZE)).

Lemma zat_Some l i v : zget l i = Some v -> zat l i = v.
Proof. unfold zat. intros ->. reflexivity. Qed.

Lemma odd_rem_eqb z : 0 <= z -> (Z.rem z 2 =? 1) = Z.odd z.
Proof.
  intros H. rewrite Z.rem_mod_nonneg by lia.
  rewrite Zmod_odd. destruct (Z.odd z); reflexivity.
Qed.

Lemma odd_land_eqb z : 0 <= z -> negb (Z.land z 1 =? 0) = Z.odd z.
Proof.
  intros H. change 1 with (Z.ones 1). rewrite Z.land_ones by lia.
  change (2 ^ 1) with 2. rewrite Zmod_odd. destruct (Z.odd z); reflexivity.
Qed.

Section ReferenceFacts.
Variables (act wgt_packed scales : list Z).
Variables (M K N : Z).

Let a_row (m k : Z) : Z := zat act (m * K + k).
Let w_col (n k : Z) : Z := weight_at wgt_packed scales (k * N + n).

Lemma cpu_reference_step_Some m n k sum v :
  0 <= k * N + n ->
  cpu_reference_step act wgt_packed scales K N m n k sum = Some v ->
  v = wrap32 (sum + a_row m k * w_col n k).
Proof.
  intros Hnn H. unfold cpu_reference_step in H.
  rewrite !Z.quot_div_nonneg in H by (unfold GROUP_SIZE; lia).
  apply bind_Some in H as (a & Ea & H).
  apply bind_Some in H as (b & Eb & H).
  apply bind_Some in H as (c & Ec & H).
  injection H as <-.
  rewrite odd_rem_eqb by lia. unfold a_row, w_col, weight_at.
  rewrite (zat_Some _ _ _ Ea), (zat_Some _ _ _ Eb), (zat_Some _ _ _ Ec).
  reflexivity.
Qed.

Lemma cpu_reference_step_total m n k sum :
  0 <= m * K + k < Z.of_nat (length act) ->
  0 <= k * N + n ->
  (k * N + n) / 2 < Z.of_nat (length wgt_packed) ->
  (k * N + n) / GROUP_SIZE < Z.of_nat (length scales) ->
  exists v, cpu_reference_step act wgt_packed scales K N m n k sum = Some v.
Proof.
  intros Ha Hnn Hb Hc. unfold cpu_reference_step.
  destruct (zget_in_range act (m * K + k) Ha) as [a ->].
  rewrite !Z.quot_div_nonneg by (unfold GROUP_SIZE; lia).
  destruct (zget_in_range wgt_packed ((k * N + n) / 2)) as [b ->].
  { split; [apply Z.div_pos; lia | exact Hb]. }
  destruct (zget_in_range scales ((k * N + n) / GROUP_SIZE)) as [c ->].
  { split; [apply Z.div_pos; unfold GROUP_SIZE; lia | exact Hc]. }
  cbn. eauto.
Qed.

(** The running sum of the reference model is the wrapped accumulation. *)
Lemma cpu_reference_sum_Some m n k0 v :
  0 <= k0 -> 0 <= N -> 0 <= n ->
  cpu_reference_sum act wgt_packed scales K N m n k0 = Some v ->
  v = mac_sum (Z.to_nat k0) (a_row m) (w_col n).
Proof.
  intros Hk HN Hn Hrun. unfold cpu_reference_sum in Hrun.
  revert Hrun.
  apply (for_range_partial
           (fun k s => s = mac_sum (Z.to_nat k) (a_row m) (w_col n)));
    [exact Hk | reflexivity |].
  intros i t t' Hi -> Hstep.
  apply cpu_reference_step_Some in Hstep; [|nia].
  subst t'. replace (Z.to_nat (i + 1)) with (Datatypes.S (Z.to_nat i)) by lia.
  cbn [mac_sum]. rewrite Z2Nat.id by lia. reflexivity.
Qed.
End ReferenceFacts.

(** ** Valid inputs *)

(** Tile-divisible dimensions within the capacity of the static caches. *)
Definition valid_dims (M K N : Z) : Prop :=
  0 <= M <= M_DIM /\ 0 <= K <= K_DIM /\ 0 <= N <= N_DIM /\
  M mod PE_ROWS = 0 /\ K mod 16 = 0 /\ N mod PE_COLS = 0.

(** Input buffers of the contracted lengths and element types. *)
Definition valid_buffers (act wgt_packed scales : list Z) (M K N : Z) : Prop :=
  Z.of_nat (length act) = M * K /\
  Z.of_nat (length wgt_packed) = K * N / 2 /\
  Z.of_nat (length scales) = K * N / GROUP_SIZE /\
  Forall is_int8 act /\ Forall is_uint8 wgt_packed /\ Forall is_uint8 scales.

Definition valid_input (act wgt_packed scales : list Z) (M K N : Z) : Prop :=
  valid_dims M K N /\ valid_buffers act wgt_packed scales M K N.

Lemma weight_index_bounds K N k n :
  0 <= k < K -> 0 <= n < N -> N mod 16 = 0 ->
  0 <= k * N + n /\ (k * N + n) / 2 < K * N / 2 /\
  (k * N + n) / GROUP_SIZE < K * N / GROUP_SIZE.
Proof.
  intros Hk Hn HN. unfold GROUP_SIZE.
  assert (Hlt : k * N + n < K * N) by nia.
  assert (HNq : N = 16 * (N / 16)).
  { pose proof (Z.div_mod N 16 ltac:(lia)). lia. }
  assert (H2 : K * N / 2 = 8 * (K * (N / 16))).
  { symmetry. apply Z.div_unique_exact; lia. }
  assert (H16 : K * N / 16 = K * (N / 16)).
  { symmetry. apply Z.div_unique_exact; lia. }
  rewrite H2, H16. split; [nia|].
  split; apply Z.div_lt_upper_bound; lia.
Qed.

Lemma zat_int8 l i : Forall is_int8 l -> is_int8 (zat l i).
Proof.
  intros H. unfold zat. destruct (zget l i) as [v|] eqn:E.
  - apply zget_Some in E as [_ E]. simpl.
    rewrite Forall_forall in H. apply H. eapply list_elem_of_lookup_2. exact E.
  - simpl. unfold is_int8. lia.
Qed.

Lemma weight_at_int8 wgt_packed scales i : is_int8 (weight_at wgt_packed scales i).
Proof. apply unpack_dequantize_weight_int8. Qed.

(** Two-dimensional indices are unique. *)
Lemma flat_index_inj N m n m' n' :
  0 <= n < N -> 0 <= n' < N -> m * N + n = m' * N + n' -> m = m' /\ n = n'.
Proof. intros Hn Hn' H. assert (m = m') by nia. subst. lia. Qed.

Lemma flat_index_inj_div N m n p :
  p = m * N + n -> 0 < N -> 0 <= n < N -> m = p / N /\ n = p mod N.
Proof.
  intros -> HN Hn. rewrite Z.add_comm.
  rewrite Z.div_add, Z.mod_add by lia.
  rewrite Z.div_small, Z.mod_small by lia. lia.
Qed.

Section ReferenceTotal.
Variables (act wgt_packed scales : list Z).
Variables (M K N : Z).
Hypothesis Hvalid : valid_input act wgt_packed scales M K N.

Let a_row (m k : Z) : Z := zat act (m * K + k).
Let w_col (n k : Z) : Z := weight_at wgt_packed scales (k * N + n).

(** Every prefix of the reduction returns, and returns the exact sum. *)
Lemma cpu_reference_sum_exact m n k0 :
  0 <= m < M -> 0 <= n < N -> 0 <= k0 <= K ->
  cpu_reference_sum act wgt_packed scales K N m n k0
    = Some (dot_product (Z.to_nat k0) (a_row m) (w_col n)).
Proof.
  intros Hm Hn Hk.
  destruct Hvalid as [(HM & HK & HN & HMd & HKd & HNd)
                      (Hla & Hlw & Hls & Hta & Htw & Hts)].
  unfold M_DIM, K_DIM, N_DIM, PE_ROWS, PE_COLS in *.
  destruct (for_range_total (fun _ _ => True) 0 k0
              (cpu_reference_step act wgt_packed scales K N m n) 0)
    as (v & Hv & _); [lia | exact I | |].
  - intros k t Hk' _.
    destruct (weight_index_bounds K N k n) as (B1 & B2 & B3); [lia..|].
    destruct (cpu_reference_step_total act wgt_packed scales K N m n k t)
      as [t' Ht']; [nia | lia | lia | lia |].
    exists t'. split; [exact Ht' | exact I].
  - unfold cpu_reference_sum. rewrite Hv. f_equal.
    apply cpu_reference_sum_Some in Hv; [|lia..]. subst v.
    apply mac_sum_exact; [lia|].
    intros k Hk'. split; [apply zat_int8; exact Hta | apply weight_at_int8].
Qed.

Lemma cpu_reference_total (out : list Z) :
  exists out',
    cpu_reference act wgt_packed scales M K N out = Some out' /\
    Z.of_nat (length out') = M * N /\
    forall m n, 0 <= m < M -> 0 <= n < N ->
      zget out' (m * N + n)
        = Some (dot_product (Z.to_nat K) (a_row m) (w_col n)).
Proof.
  pose proof Hvalid as [(HM & HK & HN & HMd & HKd & HNd) _].
  unfold cpu_reference.
  set (out0 := resize (Z.to_nat (M * N)) 0 out).
  assert (Hlen0 : Z.of_nat (length out0) = M * N).
  { unfold out0. rewrite length_resize. nia. }
  destruct (for_range_total
    (fun m (o : list Z) =>
       Z.of_nat (length o) = M * N /\
       forall m' n, 0 <= m' < m -> 0 <= n < N ->
         zget o (m' * N + n)
           = Some (dot_product (Z.to_nat K) (a_row m') (w_col n)))
    0 M
    (fun m => for_range 0 N
       (fun n => cpu_reference_cell act wgt_packed scales K N m n)) out0)
    as (out' & Hrun & Hlen & Hout); [lia | split; [exact Hlen0 | intros; lia] | |].
  - intros m o Hm [Hlo Ho].
    destruct (for_range_total
      (fun n (o' : list Z) =>
         Z.of_nat (length o') = M * N /\
         (forall m' n', 0 <= m' < m -> 0 <= n' < N ->
            zget o' (m' * N + n')
              = Some (dot_product (Z.to_nat K) (a_row m') (w_col n'))) /\
         (forall n', 0 <= n' < n ->
            zget o' (m * N + n')
              = Some (dot_product (Z.to_nat K) (a_row m) (w_col n'))))
      0 N (fun n => cpu_reference_cell act wgt_packed scales K N m n) o)
      as (o' & Hrun' & Hlo' & Hrows & Hrow);
      [lia | split; [exact Hlo | split; [exact Ho | intros; lia]] | |].
    + intros n t Hn (Hlt & Hrows & Hrow).
      unfold cpu_reference_cell.
      rewrite cpu_reference_sum_exact by lia. cbn [mbind option_bind].
      rewrite zset_in_range by nia.
      eexists. split; [reflexivity|]. split; [|split].
      * rewrite length_insert. exact Hlt.
      * intros m' n' Hm' Hn'.
        rewrite <- (Hrows m' n' Hm' Hn').
        eapply zget_zset_ne; [apply zset_in_range; nia|].
        intros E. apply flat_index_inj in E; lia.
      * intros n' Hn'. destruct (Z.eq_dec n' n) as [->|Hne].
        -- eapply zget_zset_eq. apply zset_in_range. nia.
        -- rewrite <- (Hrow n') by lia.
           eapply zget_zset_ne; [apply zset_in_range; nia|].
           intros E. apply flat_index_inj in E; lia.
    + exists o'. split; [exact Hrun'|]. split; [exact Hlo'|].
      intros m' n Hm' Hn. destruct (Z.eq_dec m' m) as [->|Hne].
      * apply Hrow. lia.
      * apply Hrows; lia.
  - exists out'. split; [exact Hrun|]. split; [exact Hlen|]. exact Hout.
Qed.
End ReferenceTotal.

(** ** The static arrays *)

Lemma in_dim_true d i : in_dim d i = true <-> 0 <= i < d.
Proof. unfold in_dim. rewrite andb_true_iff, Z.leb_le, Z.ltb_lt. reflexivity. Qed.

Lemma upd2_same f a b v : upd2 f a b v a b = v.
Proof. unfold upd2. rewrite !Z.eqb_refl. reflexivity. Qed.

Lemma upd2_other f a b v a' b' :
  a' <> a \/ b' <> b -> upd2 f a b v a' b' = f a' b'.
Proof.
  intros H. unfold upd2.
  destruct (Z.eqb_spec a' a), (Z.eqb_spec b' b); simpl; try reflexivity. lia.
Qed.

Lemma upd3_same f a b c v : upd3 f a b c v a b c = v.
Proof. unfold upd3. rewrite !Z.eqb_refl. reflexivity. Qed.

Lemma upd3_other f a b c v a' b' c' :
  a' <> a \/ b' <> b \/ c' <> c -> upd3 f a b c v a' b' c' = f a' b' c'.
Proof.
  intros H. unfold upd3.
  destruct (Z.eqb_spec a' a), (Z.eqb_spec b' b), (Z.eqb_spec c' c); simpl;
    try reflexivity. lia.
Qed.

(** Splitting the bounds check of an access that returned. *)
Ltac split_dims H :=
  repeat match type of H with
         | _ && _ = true => let H' := fresh "Hd" in apply andb_true_iff in H as [H H']
         end;
  repeat match goal with
         | Hd : in_dim _ _ = true |- _ => apply in_dim_true in Hd
         end.

Ltac prim_inv H :=
  match type of H with
  | (if ?c then _ else _) = Some _ =>
      let Hc := fresh "Hd" in
      destruct c eqn:Hc; [|discriminate H]; split_dims Hc;
      injection H as H
  end.

Lemma get_A_cache_Some t i k s v :
  get_A_cache t i k s = Some v ->
  (0 <= t < 8 /\ 0 <= i < PE_ROWS /\ 0 <= k < K_DIM) /\ v = A_cache s t i k.
Proof. unfold get_A_cache. intros H. prim_inv H. auto. Qed.

Lemma set_A_cache_Some t i k v s s' :
  set_A_cache t i k v s = Some s' ->
  (0 <= t < 8 /\ 0 <= i < PE_ROWS /\ 0 <= k < K_DIM) /\
  s' = mkState (upd3 (A_cache s) t i k v) (W_cache s) (A_work s)
               (W_work s) (C_work s) (result s) (result_stores s).
Proof. unfold set_A_cache. intros H. prim_inv H. auto. Qed.

Lemma get_W_cache_Some t j k s v :
  get_W_cache t j k s = Some v ->
  (0 <= t < 32 /\ 0 <= j < PE_COLS /\ 0 <= k < K_DIM) /\ v = W_cache s t j k.
Proof. unfold get_W_cache. intros H. prim_inv H. auto. Qed.

Lemma set_W_cache_Some t j k v s s' :
  set_W_cache t j k v s = Some s' ->
  (0 <= t < 32 /\ 0 <= j < PE_COLS /\ 0 <= k < K_DIM) /\
  s' = mkState (A_cache s) (upd3 (W_cache s) t j k v) (A_work s)
               (W_work s) (C_work s) (result s) (result_stores s).
Proof. unfold set_W_cache. intros H. prim_inv H. auto. Qed.

Lemma get_A_work_Some i k s v :
  get_A_work i k s = Some v ->
  (0 <= i < PE_ROWS /\ 0 <= k < K_DIM) /\ v = A_work s i k.
Proof. unfold get_A_work. intros H. prim_inv H. auto. Qed.

Lemma set_A_work_Some i k v s s' :
  set_A_work i k v s = Some s' ->
  (0 <= i < PE_ROWS /\ 0 <= k < K_DIM) /\
  s' = mkState (A_cache s) (W_cache s) (upd2 (A_work s) i k v)
               (W_work s) (C_work s) (result s) (result_stores s).
Proof. unfold set_A_work. intros H. prim_inv H. auto. Qed.

Lemma get_W_work_Some j k s v :
  get_W_work j k s = Some v ->
  (0 <= j < PE_COLS /\ 0 <= k < K_DIM) /\ v = W_work s j k.
Proof. unfold get_W_work. intros H. prim_inv H. auto. Qed.

Lemma set_W_work_Some j k v s s' :
  set_W_work j k v s = Some s' ->
  (0 <= j < PE_COLS /\ 0 <= k < K_DIM) /\
  s' = mkState (A_cache s) (W_cache s) (A_work s)
               (upd2 (W_work s) j k v) (C_work s) (result s) (result_stores s).
Proof. unfold set_W_work. intros H. prim_inv H. auto. Qed.

Lemma get_C_work_Some i j s v :
  get_C_work i j s = Some v ->
  (0 <= i < PE_ROWS /\ 0 <= j < PE_COLS) /\ v = C_work s i j.
Proof. unfold get_C_work. intros H. prim_inv H. auto. Qed.

Lemma set_C_work_Some i j v s s' :
  set_C_work i j v s = Some s' ->
  (0 <= i < PE_ROWS /\ 0 <= j < PE_COLS) /\
  s' = mkState (A_cache s) (W_cache s) (A_work s) (W_work s)
               (upd2 (C_work s) i j v) (result s) (result_stores s).
Proof. unfold set_C_work. intros H. prim_inv H. auto. Qed.

Lemma set_result_Some p v s s' :
  set_result p v s = Some s' ->
  exists r, zset (result s) p v = Some r /\
    s' = mkState (A_cache s) (W_cache s) (A_work s) (W_work s) (C_work s)
                 r (p :: result_stores s).
Proof.
  unfold set_result. intros H. apply bind_Some in H as (r & Hr & H).
  injection H as <-. eauto.
Qed.

(** Truncating division of a loop index by a positive extent. *)
Lemma quot_rem_index idx K :
  0 <= idx -> 0 < K ->
  0 <= Z.quot idx K /\ 0 <= Z.rem idx K < K /\
  idx = Z.quot idx K * K + Z.rem idx K.
Proof.
  intros Hi HK. rewrite Z.quot_div_nonneg, Z.rem_mod_nonneg by lia.
  pose proof (Z.div_mod idx K ltac:(lia)).
  pose proof (Z.mod_pos_bound idx K HK).
  pose proof (Z.div_pos idx K Hi HK). lia.
Qed.

(** ** The compute engine: what a run that returns has computed *)

Section KernelFacts.
Variables (activations weights_packed scales : list Z).
Variables (M K N : Z).

(** Activation row [m] and the dequantized weight column [n], as the
    preload phases read them. *)
Definition kernel_act (m k : Z) : Z := zat activations (m * K + k).

Definition kernel_wgt (n k : Z) : Z :=
  let w_linear := k * N + n in
  unpack_dequantize_weight
    (zat weights_packed (Z.quot w_linear 2))
    (negb (Z.land w_linear 1 =? 0))
    (zat scales (Z.quot w_linear GROUP_SIZE)).

(** The value the engine accumulates for output element [(m, n)]. *)
Definition kernel_cell (m n : Z) : Z :=
  mac_sum (Z.to_nat K) (kernel_act m) (kernel_wgt n).

(** *** Phase 1 *)

Lemma load_act_tile_partial mt s s' :
  for_range 0 (PE_ROWS * K) (load_act_step activations K mt) s = Some s' ->
  W_cache s' = W_cache s /\ result s' = result s /\
  result_stores s' = result_stores s /\
  (forall t i k, t <> mt -> A_cache s' t i k = A_cache s t i k) /\
  (forall i k, 0 <= i < PE_ROWS -> 0 <= k < K ->
     A_cache s' mt i k = kernel_act (mt * PE_ROWS + i) k).
Proof.
  intros Hrun.
  apply (for_range_partial'
    (fun idx st =>
       W_cache st = W_cache s /\ result st = result s /\
       result_stores st = result_stores s /\
       (forall t i k, t <> mt -> A_cache st t i k = A_cache s t i k) /\
       (forall i k, 0 <= i -> 0 <= k < K -> i * K + k < idx ->
          A_cache st mt i k = kernel_act (mt * PE_ROWS + i) k))) in Hrun.
  - destruct Hrun as (H1 & H2 & H3 & H4 & H5).
    repeat split; try assumption.
    intros i k Hi Hk. apply H5; [lia | lia |]. unfold PE_ROWS in *.
    assert (i * K + k < 16 * K) by nia. lia.
  - repeat split; try reflexivity. intros i k Hi Hk Hlt. nia.
  - intros idx t t' Hidx (H1 & H2 & H3 & H4 & H5) Hstep.
    unfold load_act_step in Hstep.
    apply bind_Some in Hstep as (v & Hv & Hstep).
    apply set_A_cache_Some in Hstep as [_ ->]. cbn.
    assert (HK : 0 < K) by (unfold PE_ROWS in *; lia).
    destruct (quot_rem_index idx K) as (Q1 & Q2 & Q3); [lia..|].
    repeat split; try assumption.
    + intros t0 i k Hne. rewrite upd3_other by lia. apply H4. exact Hne.
    + intros i k Hi Hk Hlt.
      destruct (Z.eq_dec (i * K + k) idx) as [E|E].
      * rewrite Q3 in E. apply flat_index_inj in E as [-> ->]; [|lia..].
        rewrite upd3_same. unfold kernel_act. symmetry. apply zat_Some. exact Hv.
      * rewrite upd3_other.
        -- apply H5; lia.
        -- destruct (Z.eq_dec i (Z.quot idx K)) as [->|]; [|lia].
           destruct (Z.eq_dec k (Z.rem idx K)) as [->|]; [|lia]. lia.
Qed.

Lemma load_all_act_partial NMT s s' :
  load_all_act activations K NMT s = Some s' ->
  W_cache s' = W_cache s /\ result s' = result s /\
  result_stores s' = result_stores s /\
  (forall t i k, 0 <= t < NMT -> 0 <= i < PE_ROWS -> 0 <= k < K ->
     A_cache s' t i k = kernel_act (t * PE_ROWS + i) k).
Proof.
  intros Hrun. unfold load_all_act in Hrun.
  apply (for_range_partial'
    (fun mt st =>
       W_cache st = W_cache s /\ result st = result s /\
       result_stores st = result_stores s /\
       (forall t i k, 0 <= t < mt -> 0 <= i < PE_ROWS -> 0 <= k < K ->
          A_cache st t i k = kernel_act (t * PE_ROWS + i) k))) in Hrun.
  - destruct Hrun as (H1 & H2 & H3 & H4). repeat split; try assumption.
    intros t i k Ht. apply H4. lia.
  - repeat split; try reflexivity. intros; lia.
  - intros mt t t' Hmt (H1 & H2 & H3 & H4) Hstep.
    apply load_act_tile_partial in Hstep as (G1 & G2 & G3 & G4 & G5).
    repeat split; try congruence.
    intros t0 i k Ht0 Hi Hk. destruct (Z.eq_dec t0 mt) as [->|Hne].
    + apply G5; assumption.
    + rewrite G4 by exact Hne. apply H4; lia.
Qed.

(** *** Phase 2 *)

Lemma load_wgt_tile_partial nt s s' :
  for_range 0 (PE_COLS * K) (load_wgt_step weights_packed scales K N nt) s
    = Some s' ->
  A_cache s' = A_cache s /\ result s' = result s /\
  result_stores s' = result_stores s /\
  (forall t j k, t <> nt -> W_cache s' t j k = W_cache s t j k) /\
  (forall j k, 0 <= j < PE_COLS -> 0 <= k < K ->
     W_cache s' nt j k = kernel_wgt (nt * PE_COLS + j) k).
Proof.
  intros Hrun.
  apply (for_range_partial'
    (fun idx st =>
       A_cache st = A_cache s /\ result st = result s /\
       result_stores st = result_stores s /\
       (forall t j k, t <> nt -> W_cache st t j k = W_cache s t j k) /\
       (forall j k, 0 <= j -> 0 <= k < K -> j * K + k < idx ->
          W_cache st nt j k = kernel_wgt (nt * PE_COLS + j) k))) in Hrun.
  - destruct Hrun as (H1 & H2 & H3 & H4 & H5).
    repeat split; try assumption.
    intros j k Hj Hk. apply H5; [lia | lia |]. unfold PE_COLS in *.
    assert (j * K + k < 16 * K) by nia. lia.
  - repeat split; try reflexivity. intros j k Hj Hk Hlt. nia.
  - intros idx t t' Hidx (H1 & H2 & H3 & H4 & H5) Hstep.
    unfold load_wgt_step in Hstep.
    apply bind_Some in Hstep as (b & Hb & Hstep).
    apply bind_Some in Hstep as (c & Hc & Hstep).
    apply set_W_cache_Some in Hstep as [_ ->]. cbn.
    assert (HK : 0 < K) by (unfold PE_COLS in *; lia).
    destruct (quot_rem_index idx K) as (Q1 & Q2 & Q3); [lia..|].
    repeat split; try assumption.
    + intros t0 j k Hne. rewrite upd3_other by lia. apply H4. exact Hne.
    + intros j k Hj Hk Hlt.
      destruct (Z.eq_dec (j * K + k) idx) as [E|E].
      * rewrite Q3 in E. apply flat_index_inj in E as [-> ->]; [|lia..].
        rewrite upd3_same. unfold kernel_wgt. cbv zeta.
        rewrite (zat_Some _ _ _ Hb), (zat_Some _ _ _ Hc). reflexivity.
      * rewrite upd3_other.
        -- apply H5; lia.
        -- destruct (Z.eq_dec j (Z.quot idx K)) as [->|]; [|lia].
           destruct (Z.eq_dec k (Z.rem idx K)) as [->|]; [|lia]. lia.
Qed.

Lemma load_all_wgt_partial NNT s s' :
  load_all_wgt weights_packed scales K N NNT s = Some s' ->
  A_cache s' = A_cache s /\ result s' = result s /\
  result_stores s' = result_stores s /\
  (forall t j k, 0 <= t < NNT -> 0 <= j < PE_COLS -> 0 <= k < K ->
     W_cache s' t j k = kernel_wgt (t * PE_COLS + j) k).
Proof.
  intros Hrun. unfold load_all_wgt in Hrun.
  apply (for_range_partial'
    (fun nt st =>
       A_cache st = A_cache s /\ result st = result s /\
       result_stores st = result_stores s /\
       (forall t j k, 0 <= t < nt -> 0 <= j < PE_COLS -> 0 <= k < K ->
          W_cache st t j k = kernel_wgt (t * PE_COLS + j) k))) in Hrun.
  - destruct Hrun as (H1 & H2 & H3 & H4). repeat split; try assumption.
    intros t j k Ht. apply H4. lia.
  - repeat split; try reflexivity. intros; lia.
  - intros nt t t' Hnt (H1 & H2 & H3 & H4) Hstep.
    apply load_wgt_tile_partial in Hstep as (G1 & G2 & G3 & G4 & G5).
    repeat split; try congruence.
    intros t0 j k Ht0 Hj Hk. destruct (Z.eq_dec t0 nt) as [->|Hne].
    + apply G5; assumption.
    + rewrite G4 by exact Hne. apply H4; lia.
Qed.
(** *** Phase 3: the working buffers *)

Lemma copy_A_partial mt k s s' :
  for_range 0 PE_ROWS
    (fun i s => v ← get_A_cache mt i k s; set_A_work i k v s) s = Some s' ->
  A_cache s' = A_cache s /\ W_cache s' = W_cache s /\
  W_work s' = W_work s /\ C_work s' = C_work s /\
  result s' = result s /\ result_stores s' = result_stores s /\
  (forall i, 0 <= i < PE_ROWS -> A_work s' i k = A_cache s mt i k) /\
  (forall i k', k' <> k -> A_work s' i k' = A_work s i k').
Proof.
  intros Hrun.
  apply (for_range_partial
    (fun i0 st =>
       A_cache st = A_cache s /\ W_cache st = W_cache s /\
       W_work st = W_work s /\ C_work st = C_work s /\
       result st = result s /\ result_stores st = result_stores s /\
       (forall i, 0 <= i < i0 -> A_work st i k = A_cache s mt i k) /\
       (forall i k', k' <> k -> A_work st i k' = A_work s i k'))) in Hrun.
  - exact Hrun.
  - unfold PE_ROWS. lia.
  - repeat split; try reflexivity. intros; lia.
  - intros i0 t t' Hi0 (H1 & H2 & H3 & H4 & H5 & H6 & H7 & H8) Hstep.
    apply bind_Some in Hstep as (v & Hv & Hstep).
    apply get_A_cache_Some in Hv as [_ ->].
    apply set_A_work_Some in Hstep as [_ ->]. cbn.
    repeat split; try assumption.
    + intros i Hi. destruct (Z.eq_dec i i0) as [->|Hne].
      * rewrite upd2_same, H1. reflexivity.
      * rewrite upd2_other by lia. apply H7. lia.
    + intros i k' Hk'. rewrite upd2_other by lia. apply H8. exact Hk'.
Qed.

Lemma copy_W_partial nt k s s' :
  for_range 0 PE_COLS
    (fun j s => v ← get_W_cache nt j k s; set_W_work j k v s) s = Some s' ->
  A_cache s' = A_cache s /\ W_cache s' = W_cache s /\
  A_work s' = A_work s /\ C_work s' = C_work s /\
  result s' = result s /\ result_stores s' = result_stores s /\
  (forall j, 0 <= j < PE_COLS -> W_work s' j k = W_cache s nt j k) /\
  (forall j k', k' <> k -> W_work s' j k' = W_work s j k').
Proof.
  intros Hrun.
  apply (for_range_partial
    (fun j0 st =>
       A_cache st = A_cache s /\ W_cache st = W_cache s /\
       A_work st = A_work s /\ C_work st = C_work s /\
       result st = result s /\ result_stores st = result_stores s /\
       (forall j, 0 <= j < j0 -> W_work st j k = W_cache s nt j k) /\
       (forall j k', k' <> k -> W_work st j k' = W_work s j k'))) in Hrun.
  - exact Hrun.
  - unfold PE_COLS. lia.
  - repeat split; try reflexivity. intros; lia.
  - intros j0 t t' Hj0 (H1 & H2 & H3 & H4 & H5 & H6 & H7 & H8) Hstep.
    apply bind_Some in Hstep as (v & Hv & Hstep).
    apply get_W_cache_Some in Hv as [_ ->].
    apply set_W_work_Some in Hstep as [_ ->]. cbn.
    repeat split; try assumption.
    + intros j Hj. destruct (Z.eq_dec j j0) as [->|Hne].
      * rewrite upd2_same, H2. reflexivity.
      * rewrite upd2_other by lia. apply H7. lia.
    + intros j k' Hk'. rewrite upd2_other by lia. apply H8. exact Hk'.
Qed.

Lemma copy_to_work_partial mt nt s s' :
  for_range 0 K (copy_step mt nt) s = Some s' ->
  A_cache s' = A_cache s /\ W_cache s' = W_cache s /\
  result s' = result s /\ result_stores s' = result_stores s /\
  (forall i k, 0 <= i < PE_ROWS -> 0 <= k < K ->
     A_work s' i k = A_cache s mt i k) /\
  (forall j k, 0 <= j < PE_COLS -> 0 <= k < K ->
     W_work s' j k = W_cache s nt j k).
Proof.
  intros Hrun.
  apply (for_range_partial'
    (fun k0 st =>
       A_cache st = A_cache s /\ W_cache st = W_cache s /\
       result st = result s /\ result_stores st = result_stores s /\
       (forall i k, 0 <= i < PE_ROWS -> 0 <= k < k0 ->
          A_work st i k = A_cache s mt i k) /\
       (forall j k, 0 <= j < PE_COLS -> 0 <= k < k0 ->
          W_work st j k = W_cache s nt j k))) in Hrun.
  - destruct Hrun as (H1 & H2 & H3 & H4 & H5 & H6).
    repeat split; try assumption; intros; [apply H5 | apply H6]; lia.
  - repeat split; try reflexivity; intros; lia.
  - intros k0 t t' Hk0 (H1 & H2 & H3 & H4 & H5 & H6) Hstep.
    unfold copy_step in Hstep.
    apply bind_Some in Hstep as (u & Hu & Hstep).
    apply copy_A_partial in Hu as (A1 & A2 & A3 & A4 & A5 & A6 & A7 & A8).
    apply copy_W_partial in Hstep as (B1 & B2 & B3 & B4 & B5 & B6 & B7 & B8).
    repeat split; try congruence.
    + intros i k Hi Hk. rewrite B3.
      destruct (Z.eq_dec k k0) as [->|Hne].
      * rewrite A7 by exact Hi. rewrite H1. reflexivity.
      * rewrite A8 by exact Hne. apply H5; lia.
    + intros j k Hj Hk.
      destruct (Z.eq_dec k k0) as [->|Hne].
      * rewrite B7 by exact Hj. rewrite A2, H2. reflexivity.
      * rewrite B8 by exact Hne. rewrite A3. apply H6; lia.
Qed.

(** *** Phase 3: the accumulator grid *)

Definition same_but_C (s0 st : state) : Prop :=
  A_cache st = A_cache s0 /\ W_cache st = W_cache s0 /\
  A_work st = A_work s0 /\ W_work st = W_work s0 /\
  result st = result s0 /\ result_stores st = result_stores s0.

Lemma same_but_C_refl s : same_but_C s s.
Proof. repeat split. Qed.

(** A sweep over the [PE_ROWS x PE_COLS] grid whose body touches its
    own cell only applies the update to every cell once. *)
Lemma grid_partial (f : Z -> Z -> state -> option state)
    (g : Z -> Z -> Z -> Z) s0 s s' :
  (forall i j st st', same_but_C s0 st -> f i j st = Some st' ->
     same_but_C s0 st' /\
     C_work st' = upd2 (C_work st) i j (g i j (C_work st i j))) ->
  same_but_C s0 s ->
  for_range 0 PE_ROWS (fun i => for_range 0 PE_COLS (fun j => f i j)) s
    = Some s' ->
  same_but_C s0 s' /\
  forall i j, 0 <= i < PE_ROWS -> 0 <= j < PE_COLS ->
    C_work s' i j = g i j (C_work s i j).
Proof.
  intros Hf Hs Hrun.
  set (G := fun (q : Z) (st : state) =>
    same_but_C s0 st /\
    forall i j, 0 <= i -> 0 <= j < 16 ->
      (i * 16 + j < q -> C_work st i j = g i j (C_work s i j)) /\
      (q <= i * 16 + j -> C_work st i j = C_work s i j)).
  assert (Hfin : G (PE_ROWS * 16) s').
  { revert Hrun. apply (for_range_partial (fun i st => G (i * 16) st)).
    - unfold PE_ROWS; lia.
    - split; [exact Hs|]. intros i j Hi Hj. split; [lia | reflexivity].
    - intros i t t' Hi Ht Hrow. replace ((i + 1) * 16) with (i * 16 + PE_COLS)
        by (unfold PE_COLS; lia).
      revert Hrow. apply (for_range_partial (fun j st => G (i * 16 + j) st)).
      + unfold PE_COLS; lia.
      + rewrite Z.add_0_r. exact Ht.
      + intros j u u' Hj [Hu HC] Hstep.
        destruct (Hf i j u u' Hu Hstep) as [Hu' HC'].
        split; [exact Hu'|]. intros i' j' Hi' Hj'. rewrite HC'.
        unfold PE_COLS in *.
        destruct (HC i' j' Hi' Hj') as [HC1 HC2].
        destruct (HC i j ltac:(lia) ltac:(lia)) as [_ HCij].
        split; intros Hq.
        * destruct (Z.eq_dec (i' * 16 + j') (i * 16 + j)) as [E|E].
          -- assert (i' = i /\ j' = j) as [-> ->] by lia.
             rewrite upd2_same. rewrite HCij by lia. reflexivity.
          -- rewrite upd2_other by lia. apply HC1. lia.
        * rewrite upd2_other by lia. apply HC2. lia. }
  destruct Hfin as [Hs' HC]. split; [exact Hs'|].
  intros i j Hi Hj. unfold PE_ROWS, PE_COLS in *.
  apply (HC i j); lia.
Qed.

(** The two sweeps, as loops over the grid. *)
Lemma init_output_unfold :
  init_output =
  for_range 0 PE_ROWS (fun i => for_range 0 PE_COLS (fun j => set_C_work i j 0)).
Proof. reflexivity. Qed.

Lemma compute_step_unfold k :
  compute_step k =
  for_range 0 PE_ROWS (fun i => for_range 0 PE_COLS (fun j => mac_step k i j)).
Proof. reflexivity. Qed.

Lemma set_C_work_grid v s i j st st' :
  same_but_C s st -> set_C_work i j v st = Some st' ->
  same_but_C s st' /\ C_work st' = upd2 (C_work st) i j v.
Proof.
  intros Hst Hstep. apply set_C_work_Some in Hstep as [_ ->].
  split; [exact Hst | reflexivity].
Qed.

Lemma mac_step_grid k s0 i j st st' :
  same_but_C s0 st -> mac_step k i j st = Some st' ->
  same_but_C s0 st' /\
  C_work st' = upd2 (C_work st) i j
                 (wrap32 (C_work st i j + A_work s0 i k * W_work s0 j k)).
Proof.
  intros Hst Hstep. unfold mac_step in Hstep.
  apply bind_Some in Hstep as (a & Ha & Hstep).
  apply bind_Some in Hstep as (w & Hw & Hstep).
  apply bind_Some in Hstep as (c & Hc & Hstep).
  apply get_A_work_Some in Ha as [_ ->].
  apply get_W_work_Some in Hw as [_ ->].
  apply get_C_work_Some in Hc as [_ ->].
  apply set_C_work_Some in Hstep as [_ ->].
  destruct Hst as (H1 & H2 & H3 & H4 & H5 & H6).
  split; [repeat split; assumption|]. cbn. rewrite H3, H4. reflexivity.
Qed.

Lemma init_output_partial s s' :
  init_output s = Some s' ->
  same_but_C s s' /\
  forall i j, 0 <= i < PE_ROWS -> 0 <= j < PE_COLS -> C_work s' i j = 0.
Proof.
  rewrite init_output_unfold.
  apply (grid_partial _ (fun _ _ _ => 0) s s s').
  - intros i j st st'. apply set_C_work_grid.
  - apply same_but_C_refl.
Qed.

Lemma compute_step_partial k s0 s s' :
  same_but_C s0 s ->
  compute_step k s = Some s' ->
  same_but_C s0 s' /\
  forall i j, 0 <= i < PE_ROWS -> 0 <= j < PE_COLS ->
    C_work s' i j = wrap32 (C_work s i j + A_work s0 i k * W_work s0 j k).
Proof.
  intros Hs. rewrite compute_step_unfold.
  apply (grid_partial _
           (fun i j c => wrap32 (c + A_work s0 i k * W_work s0 j k)) s0 s s').
  - intros i j st st'. apply mac_step_grid.
  - exact Hs.
Qed.

(** The running accumulators after the first [k0] reduction steps. *)
Lemma compute_partial k0 s s' :
  (forall i j, 0 <= i < PE_ROWS -> 0 <= j < PE_COLS -> C_work s i j = 0) ->
  for_range 0 k0 compute_step s = Some s' ->
  same_but_C s s' /\
  forall i j, 0 <= i < PE_ROWS -> 0 <= j < PE_COLS ->
    C_work s' i j = mac_sum (Z.to_nat k0) (A_work s i) (W_work s j).
Proof.
  intros Hzero Hrun.
  apply (for_range_partial'
    (fun k st =>
       same_but_C s st /\
       forall i j, 0 <= i < PE_ROWS -> 0 <= j < PE_COLS ->
         C_work st i j = mac_sum (Z.to_nat k) (A_work s i) (W_work s j)))
    in Hrun.
  - replace (Z.to_nat (Z.max 0 k0)) with (Z.to_nat k0) in Hrun by lia.
    exact Hrun.
  - split; [apply same_but_C_refl|]. intros i j Hi Hj.
    rewrite Hzero by assumption. reflexivity.
  - intros k t t' Hk [Ht HC] Hstep.
    apply (compute_step_partial k s) in Hstep as [Ht' HC']; [|exact Ht].
    split; [exact Ht'|]. intros i j Hi Hj.
    rewrite HC' by assumption. rewrite HC by assumption.
    replace (Z.to_nat (k + 1)) with (Datatypes.S (Z.to_nat k)) by lia.
    cbn [mac_sum]. rewrite Z2Nat.id by lia. reflexivity.
Qed.

(** *** Phase 3: the output buffer *)

(** [out_inv r0 l0 D s]: starting from output buffer [r0] and store log
    [l0], exactly the elements [(m, n)] of [D] have been stored to, once
    each and with their final value. *)
Definition out_inv (r0 l0 : list Z) (D : Z -> Z -> Prop) (s : state) : Prop :=
  length (result s) = length r0 /\
  (forall m n, D m n ->
     zget (result s) (m * N + n) = Some (kernel_cell m n) /\
     count_occ Z.eq_dec (result_stores s) (m * N + n)
       = Datatypes.S (count_occ Z.eq_dec l0 (m * N + n))) /\
  (forall p, (forall m n, D m n -> p <> m * N + n) ->
     zget (result s) p = zget r0 p /\
     count_occ Z.eq_dec (result_stores s) p = count_occ Z.eq_dec l0 p).

Lemma out_inv_init s : out_inv (result s) (result_stores s) (fun _ _ => False) s.
Proof. split; [reflexivity|]. split; [intros m n []|]. intros p _. split; reflexivity. Qed.

Lemma out_inv_equiv r0 l0 (D D' : Z -> Z -> Prop) s :
  (forall m n, D' m n <-> D m n) -> out_inv r0 l0 D s -> out_inv r0 l0 D' s.
Proof.
  intros HD (H1 & H2 & H3). split; [exact H1|]. split.
  - intros m n Hmn. apply H2, HD, Hmn.
  - intros p Hp. apply H3. intros m n Hmn. apply Hp, HD, Hmn.
Qed.

Lemma out_inv_store r0 l0 (D D' : Z -> Z -> Prop) m0 n0 s s' :
  out_inv r0 l0 D s ->
  (forall m n, D m n -> 0 <= n < N) -> 0 <= n0 < N ->
  ~ D m0 n0 ->
  (forall m n, D' m n <-> D m n \/ (m = m0 /\ n = n0)) ->
  set_result (m0 * N + n0) (kernel_cell m0 n0) s = Some s' ->
  out_inv r0 l0 D' s'.
Proof.
  intros (H1 & H2 & H3) HDn Hn0 HnD HD' Hset.
  apply set_result_Some in Hset as (r & Hr & ->).
  assert (Hfresh : forall m n, D m n -> m0 * N + n0 <> m * N + n).
  { intros m n Hmn E. apply flat_index_inj in E as [-> ->];
      [contradiction | exact Hn0 | apply (HDn m n Hmn)]. }
  unfold out_inv. cbn [result result_stores].
  split; [rewrite (zset_length _ _ _ _ Hr); exact H1|]. split.
  - intros m n Hmn. apply HD' in Hmn as [Hmn | [-> ->]].
    + destruct (H2 m n Hmn) as [G1 G2]. split.
      * rewrite (zget_zset_ne _ _ _ _ _ Hr) by (apply Hfresh; exact Hmn).
        exact G1.
      * rewrite count_occ_cons_neq by (apply Hfresh; exact Hmn). exact G2.
    + destruct (H3 (m0 * N + n0) Hfresh) as [G1 G2]. split.
      * apply (zget_zset_eq _ _ _ _ Hr).
      * rewrite count_occ_cons_eq by reflexivity. rewrite G2. reflexivity.
  - intros p Hp.
    assert (Hne : m0 * N + n0 <> p).
    { intros E. apply (Hp m0 n0); [apply HD'; right; split; reflexivity | congruence]. }
    destruct (H3 p) as [G1 G2].
    { intros m n Hmn. apply Hp. apply HD'. left. exact Hmn. }
    split.
    + rewrite (zget_zset_ne _ _ _ _ _ Hr) by exact Hne. exact G1.
    + rewrite count_occ_cons_neq by exact Hne. exact G2.
Qed.

(** The output elements stored to before tile row [mt], before tile
    [(mt, nt)], and before step [idx] of [write_output] in that tile. *)
Definition done_rows (NNT mt : Z) (m n : Z) : Prop :=
  0 <= m < mt * PE_ROWS /\ 0 <= n < NNT * PE_COLS.

Definition done_tiles (NNT mt nt : Z) (m n : Z) : Prop :=
  done_rows NNT mt m n \/
  (mt * PE_ROWS <= m < mt * PE_ROWS + PE_ROWS /\ 0 <= n < nt * PE_COLS).

Definition done_cells (NNT mt nt idx : Z) (m n : Z) : Prop :=
  done_tiles NNT mt nt m n \/
  exists i j, 0 <= i /\ 0 <= j < PE_COLS /\ i * PE_COLS + j < idx /\
              m = mt * PE_ROWS + i /\ n = nt * PE_COLS + j.

Lemma write_output_partial NNT mt nt r0 l0 s s' :
  0 <= mt -> 0 <= nt < NNT -> NNT * PE_COLS <= N ->
  (forall i j, 0 <= i < PE_ROWS -> 0 <= j < PE_COLS ->
     C_work s i j = kernel_cell (mt * PE_ROWS + i) (nt * PE_COLS + j)) ->
  out_inv r0 l0 (done_tiles NNT mt nt) s ->
  for_range 0 (PE_ROWS * PE_COLS) (write_step N mt nt) s = Some s' ->
  A_cache s' = A_cache s /\ W_cache s' = W_cache s /\
  out_inv r0 l0 (done_tiles NNT mt (nt + 1)) s'.
Proof.
  intros Hmt Hnt HN HC Hinv Hrun.
  apply (for_range_partial
    (fun idx st =>
       A_cache st = A_cache s /\ W_cache st = W_cache s /\
       C_work st = C_work s /\
       out_inv r0 l0 (done_cells NNT mt nt idx) st)) in Hrun.
  - destruct Hrun as (H1 & H2 & _ & H4). split; [exact H1|]. split; [exact H2|].
    revert H4. apply out_inv_equiv. intros m n.
    unfold done_cells, done_tiles, done_rows, PE_ROWS, PE_COLS. split.
    + intros [Hr | [Hm Hn]]; [left; left; exact Hr|].
      destruct (Z_lt_le_dec n (nt * 16)) as [Hlt|Hge]; [left; right; lia|].
      right. exists (m - mt * 16), (n - nt * 16). lia.
    + intros [[Hr | Ht] | (i & j & Hi & Hj & Hlt & -> & ->)];
        [left; exact Hr | right; lia | right; lia].
  - unfold PE_ROWS, PE_COLS. lia.
  - do 3 (split; [reflexivity|]). revert Hinv. apply out_inv_equiv.
    intros m n. unfold done_cells. split; [|intros H; left; exact H].
    intros [H | (i & j & Hi & Hj & Hlt & _)]; [exact H|].
    unfold PE_COLS in *. lia.
  - intros idx t t' Hidx (H1 & H2 & H3 & H4) Hstep.
    unfold write_step in Hstep.
    apply bind_Some in Hstep as (c & Hc & Hstep).
    apply get_C_work_Some in Hc as [Hb ->].
    assert (H16 : 0 < PE_COLS) by (unfold PE_COLS; lia).
    destruct (quot_rem_index idx PE_COLS) as (Q1 & Q2 & Q3); [lia | exact H16 |].
    set (i := Z.quot idx PE_COLS) in *. set (j := Z.rem idx PE_COLS) in *.
    rewrite H3, HC in Hstep by lia.
    assert (Hst' : A_cache t' = A_cache t /\ W_cache t' = W_cache t /\
                   C_work t' = C_work t).
    { apply set_result_Some in Hstep as (r & _ & ->). repeat split. }
    destruct Hst' as (E1 & E2 & E3).
    do 3 (split; [congruence|]).
    apply (out_inv_store r0 l0 (done_cells NNT mt nt idx) _
             (mt * PE_ROWS + i) (nt * PE_COLS + j) t t' H4); [| | | |exact Hstep].
    + intros m n. unfold done_cells, done_tiles, done_rows, PE_ROWS, PE_COLS in *.
      intros [[Hr | Ht] | (i' & j' & Hi' & Hj' & Hlt & -> & ->)]; lia.
    + unfold PE_ROWS, PE_COLS in *. lia.
    + unfold done_cells, done_tiles, done_rows, PE_ROWS, PE_COLS in *.
      intros [[Hr | Ht] | (i' & j' & Hi' & Hj' & Hlt & Em & En)]; lia.
    + intros m n. unfold done_cells. split.
      * intros [Ht | (i' & j' & Hi' & Hj' & Hlt & -> & ->)]; [left; left; exact Ht|].
        destruct (Z.eq_dec (i' * PE_COLS + j') idx) as [E|E].
        -- right. unfold PE_COLS in *. split; lia.
        -- left. right. exists i', j'. repeat split; try lia.
      * intros [[Ht | (i' & j' & Hi' & Hj' & Hlt & -> & ->)] | [-> ->]].
        -- left. exact Ht.
        -- right. exists i', j'. repeat split; try lia.
        -- right. exists i, j. repeat split; try lia.
Qed.
Lemma out_inv_frame r0 l0 D s s' :
  result s' = result s -> result_stores s' = result_stores s ->
  out_inv r0 l0 D s -> out_inv r0 l0 D s'.
Proof. unfold out_inv. intros -> ->. trivial. Qed.

(** *** Phase 3: one tile, one tile row, all tiles *)

Definition act_cached (NMT : Z) (s : state) : Prop :=
  forall t i k, 0 <= t < NMT -> 0 <= i < PE_ROWS -> 0 <= k < K ->
    A_cache s t i k = kernel_act (t * PE_ROWS + i) k.

Definition wgt_cached (NNT : Z) (s : state) : Prop :=
  forall t j k, 0 <= t < NNT -> 0 <= j < PE_COLS -> 0 <= k < K ->
    W_cache s t j k = kernel_wgt (t * PE_COLS + j) k.

Lemma compute_tile_partial NMT NNT mt nt r0 l0 s s' :
  0 <= mt < NMT -> 0 <= nt < NNT -> NNT * PE_COLS <= N ->
  act_cached NMT s -> wgt_cached NNT s ->
  out_inv r0 l0 (done_tiles NNT mt nt) s ->
  compute_tile K N mt nt s = Some s' ->
  A_cache s' = A_cache s /\ W_cache s' = W_cache s /\
  out_inv r0 l0 (done_tiles NNT mt (nt + 1)) s'.
Proof.
  intros Hmt Hnt HN HA HW Hinv Hrun. unfold compute_tile in Hrun.
  apply bind_Some in Hrun as (s1 & H1 & Hrun).
  apply bind_Some in Hrun as (s2 & H2 & Hrun).
  apply bind_Some in Hrun as (s3 & H3 & Hrun).
  apply copy_to_work_partial in H1 as (A1 & A2 & A3 & A4 & A5 & A6).
  apply init_output_partial in H2 as [(B1 & B2 & B3 & B4 & B5 & B6) B7].
  apply compute_partial in H3 as [(C1 & C2 & C3 & C4 & C5 & C6) C7];
    [|exact B7].
  apply (write_output_partial NNT mt nt r0 l0) in Hrun
    as (D1 & D2 & D3); [| lia | lia | exact HN | |].
  - split; [congruence|]. split; [congruence|]. exact D3.
  - intros i j Hi Hj. rewrite C7 by assumption. unfold kernel_cell.
    apply mac_sum_ext. intros k Hk.
    rewrite B3, B4. rewrite A5, A6 by lia. split.
    + apply HA; lia.
    + apply HW; lia.
  - apply (out_inv_frame r0 l0 _ s); [congruence | congruence | exact Hinv].
Qed.

Lemma tile_row_partial NMT NNT mt r0 l0 s s' :
  0 <= mt < NMT -> (0 < NNT -> NNT * PE_COLS <= N) ->
  act_cached NMT s -> wgt_cached NNT s ->
  out_inv r0 l0 (done_rows NNT mt) s ->
  for_range 0 NNT (compute_tile K N mt) s = Some s' ->
  A_cache s' = A_cache s /\ W_cache s' = W_cache s /\
  out_inv r0 l0 (done_rows NNT (mt + 1)) s'.
Proof.
  intros Hmt HN HA HW Hinv Hrun.
  apply (for_range_partial'
    (fun nt st =>
       A_cache st = A_cache s /\ W_cache st = W_cache s /\
       out_inv r0 l0 (done_tiles NNT mt nt) st)) in Hrun.
  - destruct Hrun as (H1 & H2 & H3). split; [exact H1|]. split; [exact H2|].
    revert H3. apply out_inv_equiv. intros m n.
    unfold done_tiles, done_rows, PE_ROWS, PE_COLS. lia.
  - split; [reflexivity|]. split; [reflexivity|].
    revert Hinv. apply out_inv_equiv. intros m n.
    unfold done_tiles, done_rows, PE_ROWS, PE_COLS. lia.
  - intros nt t t' Hnt (H1 & H2 & H3) Hstep.
    apply (compute_tile_partial NMT NNT mt nt r0 l0) in Hstep
      as (G1 & G2 & G3); [| lia | lia | apply HN; lia | | | exact H3].
    + split; [congruence|]. split; [congruence|]. exact G3.
    + unfold act_cached. rewrite H1. exact HA.
    + unfold wgt_cached. rewrite H2. exact HW.
Qed.

Lemma compute_all_partial NMT NNT r0 l0 s s' :
  (0 < NNT -> NNT * PE_COLS <= N) ->
  act_cached NMT s -> wgt_cached NNT s ->
  out_inv r0 l0 (fun _ _ => False) s ->
  compute_all K N NMT NNT s = Some s' ->
  out_inv r0 l0
    (fun m n => 0 <= m < NMT * PE_ROWS /\ 0 <= n < NNT * PE_COLS) s'.
Proof.
  intros HN HA HW Hinv Hrun. unfold compute_all in Hrun.
  apply (for_range_partial'
    (fun mt st =>
       A_cache st = A_cache s /\ W_cache st = W_cache s /\
       out_inv r0 l0 (done_rows NNT mt) st)) in Hrun.
  - destruct Hrun as (_ & _ & H3). revert H3. apply out_inv_equiv.
    intros m n. unfold done_rows, PE_ROWS, PE_COLS. lia.
  - split; [reflexivity|]. split; [reflexivity|].
    revert Hinv. apply out_inv_equiv. intros m n.
    unfold done_rows, PE_ROWS, PE_COLS. lia.
  - intros mt t t' Hmt (H1 & H2 & H3) Hstep.
    apply (tile_row_partial NMT NNT mt r0 l0) in Hstep
      as (G1 & G2 & G3); [| lia | exact HN | | | exact H3].
    + split; [congruence|]. split; [congruence|]. exact G3.
    + unfold act_cached. rewrite H1. exact HA.
    + unfold wgt_cached. rewrite H2. exact HW.
Qed.

(** The output elements the engine stores to. *)
Definition kernel_covers (m n : Z) : Prop :=
  0 <= m < Z.quot M PE_ROWS * PE_ROWS /\ 0 <= n < Z.quot N PE_COLS * PE_COLS.

(** Whatever the static arrays held on entry, a run that returns has
    stored to each element it covers once, the value [kernel_cell], and
    has left the rest of the output buffer alone. *)
Lemma SystolicArrayKernel_partial s s' :
  SystolicArrayKernel activations weights_packed scales M K N s = Some s' ->
  out_inv (result s) (result_stores s) kernel_covers s'.
Proof.
  intros Hrun. unfold SystolicArrayKernel in Hrun.
  apply bind_Some in Hrun as (s1 & H1 & Hrun).
  apply bind_Some in Hrun as (s2 & H2 & Hrun).
  apply load_all_act_partial in H1 as (A1 & A2 & A3 & A4).
  apply load_all_wgt_partial in H2 as (B1 & B2 & B3 & B4).
  apply (compute_all_partial _ _ (result s) (result_stores s)) in Hrun.
  - exact Hrun.
  - intros Hpos. unfold PE_COLS in *.
    assert (0 <= N).
    { destruct (Z_lt_le_dec N 0) as [Hneg|]; [|assumption].
      pose proof (Z.quot_opp_l N 16 ltac:(lia)).
      pose proof (Z.quot_pos (- N) 16 ltac:(lia) ltac:(lia)). lia. }
    rewrite Z.quot_div_nonneg by lia.
    pose proof (Z.mul_div_le N 16 ltac:(lia)). lia.
  - unfold act_cached. rewrite B1. exact A4.
  - exact B4.
  - apply (out_inv_frame _ _ _ s); [congruence | congruence | apply out_inv_init].
Qed.
End KernelFacts.

(** ** The compute engine: a run on a valid input returns *)

Lemma in_dim_ok d i : 0 <= i < d -> in_dim d i = true.
Proof. apply in_dim_true. Qed.

Lemma for_range_runs {S} (P : S -> Prop) lo hi (body : Z -> S -> option S) s :
  P s ->
  (forall i t, lo <= i < hi -> P t -> exists t', body i t = Some t' /\ P t') ->
  exists s', for_range lo hi body s = Some s' /\ P s'.
Proof.
  intros HP Hstep. destruct (Z.le_gt_cases lo hi) as [Hle|Hgt].
  - apply (for_range_total (fun _ => P)); assumption.
  - exists s. split; [apply for_range_empty; lia | exact HP].
Qed.

Ltac dims_ok := rewrite ?in_dim_ok by (unfold PE_ROWS, PE_COLS, K_DIM in *; lia).

Lemma grid_total (f : Z -> Z -> state -> option state) s :
  (forall i j t, 0 <= i < PE_ROWS -> 0 <= j < PE_COLS ->
     exists t', f i j t = Some t') ->
  exists s',
    for_range 0 PE_ROWS (fun i => for_range 0 PE_COLS (fun j => f i j)) s
      = Some s'.
Proof.
  intros Hf.
  destruct (for_range_runs (fun _ => True) 0 PE_ROWS
    (fun i => for_range 0 PE_COLS (fun j => f i j)) s I) as (s' & Hs' & _).
  - intros i t Hi _.
    destruct (for_range_runs (fun _ => True) 0 PE_COLS (fun j => f i j) t I)
      as (t' & Ht' & _).
    + intros j u Hj _. destruct (Hf i j u Hi Hj) as [u' Hu']. eauto.
    + eauto.
  - eauto.
Qed.

Lemma init_output_total s : exists s', init_output s = Some s'.
Proof.
  rewrite init_output_unfold. apply grid_total.
  intros i j t Hi Hj. unfold set_C_work. dims_ok. eauto.
Qed.

Lemma compute_step_total k s :
  0 <= k < K_DIM -> exists s', compute_step k s = Some s'.
Proof.
  intros Hk. rewrite compute_step_unfold. apply grid_total.
  intros i j t Hi Hj.
  unfold mac_step, get_A_work, get_W_work, get_C_work, set_C_work.
  dims_ok. cbn [mbind option_bind]. dims_ok. eauto.
Qed.

(** Every prefix of the [compute] loop runs when its steps stay within
    the depth of the working buffers. *)
Lemma compute_prefix_total k0 s :
  k0 <= K_DIM -> exists s', for_range 0 k0 compute_step s = Some s'.
Proof.
  intros Hk0.
  destruct (for_range_runs (fun _ => True) 0 k0 compute_step s I)
    as (s' & Hs' & _).
  - intros k t Hk _. destruct (compute_step_total k t) as [t' Ht']; [lia|]. eauto.
  - eauto.
Qed.

Section KernelTotal.
Variables (activations weights_packed scales : list Z).
Variables (M K N : Z).
Hypothesis HM : 0 <= M <= M_DIM.
Hypothesis HK : 0 <= K <= K_DIM.
Hypothesis HN : 0 <= N <= N_DIM.
Hypothesis HNd : N mod PE_COLS = 0.
Hypothesis Hact : Z.of_nat (length activations) = M * K.
Hypothesis Hwgt : Z.of_nat (length weights_packed) = K * N / 2.
Hypothesis Hscl : Z.of_nat (length scales) = K * N / GROUP_SIZE.

(** [M] itself need not be a multiple of [PE_ROWS]: the engine works
    on the complete tile rows. *)
Lemma tiles_M : Z.quot M PE_ROWS * PE_ROWS <= M /\ 0 <= Z.quot M PE_ROWS <= 8.
Proof.
  unfold PE_ROWS, M_DIM in *. rewrite Z.quot_div_nonneg by lia.
  pose proof (Z.mul_div_le M 16 ltac:(lia)).
  pose proof (Z.div_pos M 16 ltac:(lia) ltac:(lia)).
  pose proof (Z.div_le_mono M 128 16 ltac:(lia) ltac:(lia)) as Hd.
  change (128 / 16) with 8 in Hd. lia.
Qed.

Lemma tiles_N : N = Z.quot N PE_COLS * PE_COLS /\ 0 <= Z.quot N PE_COLS <= 32.
Proof.
  unfold PE_COLS, N_DIM in *. rewrite Z.quot_div_nonneg by lia.
  pose proof (Z.div_mod N 16 ltac:(lia)). lia.
Qed.

Lemma tile_index idx :
  0 <= idx < 16 * K ->
  0 <= Z.quot idx K < 16 /\ 0 <= Z.rem idx K < K.
Proof.
  intros Hidx. assert (0 < K) by lia.
  destruct (quot_rem_index idx K) as (Q1 & Q2 & Q3); [lia..|].
  split; [|exact Q2]. split; [exact Q1|]. nia.
Qed.

Lemma load_act_step_total mt idx s :
  0 <= mt < Z.quot M PE_ROWS -> 0 <= idx < PE_ROWS * K ->
  exists s', load_act_step activations K mt idx s = Some s'.
Proof.
  intros Hmt Hidx. destruct tiles_M as [EM BM].
  unfold PE_ROWS, K_DIM in *.
  destruct (tile_index idx Hidx) as [Hi Hk].
  unfold load_act_step.
  destruct (zget_in_range activations
              ((mt * PE_ROWS + Z.quot idx K) * K + Z.rem idx K)) as [v ->].
  { unfold PE_ROWS. rewrite Hact.
    set (m := mt * 16 + Z.quot idx K). assert (Hm : 0 <= m < M) by (unfold m; lia).
    assert ((m + 1) * K <= M * K) by (apply Z.mul_le_mono_nonneg_r; lia).
    nia. }
  cbn [mbind option_bind]. unfold set_A_cache. dims_ok. eauto.
Qed.

Lemma load_wgt_step_total nt idx s :
  0 <= nt < Z.quot N PE_COLS -> 0 <= idx < PE_COLS * K ->
  exists s', load_wgt_step weights_packed scales K N nt idx s = Some s'.
Proof.
  intros Hnt Hidx. destruct tiles_N as [EN BN].
  unfold PE_COLS, K_DIM in *.
  destruct (tile_index idx Hidx) as [Hj Hk].
  unfold load_wgt_step, PE_COLS.
  set (j := Z.quot idx K) in *. set (k := Z.rem idx K) in *.
  destruct (weight_index_bounds K N k (nt * 16 + j))
    as (B1 & B2 & B3); [lia | lia | exact HNd |].
  rewrite !Z.quot_div_nonneg by (unfold GROUP_SIZE; lia).
  destruct (zget_in_range weights_packed ((k * N + (nt * 16 + j)) / 2))
    as [b ->].
  { split; [apply Z.div_pos; lia | lia]. }
  destruct (zget_in_range scales ((k * N + (nt * 16 + j)) / GROUP_SIZE))
    as [c ->].
  { split; [apply Z.div_pos; unfold GROUP_SIZE; lia | lia]. }
  cbn [mbind option_bind]. unfold set_W_cache. dims_ok. eauto.
Qed.

Lemma load_all_act_total s :
  exists s', load_all_act activations K (Z.quot M PE_ROWS) s = Some s'.
Proof.
  destruct (for_range_runs (fun _ => True) 0 (Z.quot M PE_ROWS)
    (fun m_tile => for_range 0 (PE_ROWS * K)
                     (load_act_step activations K m_tile)) s I)
    as (s' & Hs' & _).
  - intros mt t Hmt _.
    destruct (for_range_runs (fun _ => True) 0 (PE_ROWS * K)
                (load_act_step activations K mt) t I) as (t' & Ht' & _).
    + intros idx u Hidx _.
      destruct (load_act_step_total mt idx u Hmt Hidx) as [u' Hu']. eauto.
    + eauto.
  - exists s'. exact Hs'.
Qed.

Lemma load_all_wgt_total s :
  exists s',
    load_all_wgt weights_packed scales K N (Z.quot N PE_COLS) s = Some s'.
Proof.
  destruct (for_range_runs (fun _ => True) 0 (Z.quot N PE_COLS)
    (fun n_tile => for_range 0 (PE_COLS * K)
                     (load_wgt_step weights_packed scales K N n_tile)) s I)
    as (s' & Hs' & _).
  - intros nt t Hnt _.
    destruct (for_range_runs (fun _ => True) 0 (PE_COLS * K)
                (load_wgt_step weights_packed scales K N nt) t I)
      as (t' & Ht' & _).
    + intros idx u Hidx _.
      destruct (load_wgt_step_total nt idx u Hnt Hidx) as [u' Hu']. eauto.
    + eauto.
  - exists s'. exact Hs'.
Qed.

Lemma copy_step_total mt nt k s :
  0 <= mt < Z.quot M PE_ROWS -> 0 <= nt < Z.quot N PE_COLS -> 0 <= k < K ->
  exists s', copy_step mt nt k s = Some s'.
Proof.
  intros Hmt Hnt Hk. destruct tiles_M as [_ BM]. destruct tiles_N as [_ BN].
  destruct (for_range_runs (fun _ => True) 0 PE_ROWS
    (fun i s => v ← get_A_cache mt i k s; set_A_work i k v s) s I)
    as (s1 & H1 & _).
  { intros i t Hi _. unfold get_A_cache, set_A_work. dims_ok.
    cbn [mbind option_bind]. dims_ok. eauto. }
  destruct (for_range_runs (fun _ => True) 0 PE_COLS
    (fun j s => v ← get_W_cache nt j k s; set_W_work j k v s) s1 I)
    as (s2 & H2 & _).
  { intros j t Hj _. unfold get_W_cache, set_W_work. dims_ok.
    cbn [mbind option_bind]. dims_ok. eauto. }
  exists s2. unfold copy_step. rewrite H1. exact H2.
Qed.

Lemma write_step_total mt nt idx s :
  0 <= mt < Z.quot M PE_ROWS -> 0 <= nt < Z.quot N PE_COLS ->
  0 <= idx < PE_ROWS * PE_COLS ->
  Z.of_nat (length (result s)) = M * N ->
  exists s', write_step N mt nt idx s = Some s' /\
             Z.of_nat (length (result s')) = M * N.
Proof.
  intros Hmt Hnt Hidx Hlen.
  destruct tiles_M as [EM BM]. destruct tiles_N as [EN BN].
  unfold PE_ROWS, PE_COLS in *.
  destruct (quot_rem_index idx 16) as (Q1 & Q2 & Q3); [lia..|].
  unfold write_step, PE_ROWS, PE_COLS, get_C_work. dims_ok.
  cbn [mbind option_bind andb]. unfold set_result.
  set (m := mt * 16 + Z.quot idx 16). set (n := nt * 16 + Z.rem idx 16).
  assert (Hm : 0 <= m < M) by (unfold m; lia).
  assert (Hn : 0 <= n < N) by (unfold n; lia).
  assert (Hmn : 0 <= m * N + n < M * N).
  { split; [nia|]. assert ((m + 1) * N <= M * N) by (apply Z.mul_le_mono_nonneg_r; lia).
    lia. }
  rewrite zset_in_range by (rewrite Hlen; exact Hmn).
  cbn [mbind option_bind]. eexists. split; [reflexivity|].
  cbn [result]. rewrite length_insert. exact Hlen.
Qed.

Lemma compute_tile_total mt nt s :
  0 <= mt < Z.quot M PE_ROWS -> 0 <= nt < Z.quot N PE_COLS ->
  Z.of_nat (length (result s)) = M * N ->
  exists s', compute_tile K N mt nt s = Some s' /\
             Z.of_nat (length (result s')) = M * N.
Proof.
  intros Hmt Hnt Hlen.
  destruct (for_range_runs (fun _ => True) 0 K (copy_step mt nt) s I)
    as (s1 & H1 & _).
  { intros k t Hk _. destruct (copy_step_total mt nt k t) as [t' Ht']; eauto. }
  destruct (init_output_total s1) as [s2 H2].
  destruct (compute_prefix_total K s2) as [s3 H3]; [lia|].
  pose proof (copy_to_work_partial K mt nt s s1 H1) as (_ & _ & R1 & _).
  pose proof (init_output_partial s1 s2 H2) as [(_ & _ & _ & _ & R2 & _) _].
  pose proof (compute_partial K s2 s3) as HC.
  destruct (for_range_runs
    (fun st => Z.of_nat (length (result st)) = M * N)
    0 (PE_ROWS * PE_COLS) (write_step N mt nt) s3) as (s4 & H4 & L4).
  { pose proof (init_output_partial s1 s2 H2) as [_ Hz].
    destruct (HC Hz H3) as [(_ & _ & _ & _ & R3 & _) _]. congruence. }
  { intros idx t Hidx Ht. apply write_step_total; assumption. }
  exists s4. split; [|exact L4].
  unfold compute_tile.
  apply bind_Some. exists s1. split; [exact H1|].
  apply bind_Some. exists s2. split; [exact H2|].
  apply bind_Some. exists s3. split; [exact H3|]. exact H4.
Qed.

Lemma compute_all_total s :
  Z.of_nat (length (result s)) = M * N ->
  exists s', compute_all K N (Z.quot M PE_ROWS) (Z.quot N PE_COLS) s = Some s'.
Proof.
  intros Hlen.
  destruct (for_range_runs
    (fun st => Z.of_nat (length (result st)) = M * N)
    0 (Z.quot M PE_ROWS)
    (fun m_tile => for_range 0 (Z.quot N PE_COLS)
                     (fun n_tile => compute_tile K N m_tile n_tile)) s Hlen)
    as (s' & Hs' & _).
  - intros mt t Hmt Ht.
    apply (for_range_runs (fun st => Z.of_nat (length (result st)) = M * N));
      [exact Ht|].
    intros nt u Hnt Hu. apply compute_tile_total; assumption.
  - exists s'. exact Hs'.
Qed.

(** No access of the engine leaves a buffer or a static array. *)
Lemma SystolicArrayKernel_total s :
  Z.of_nat (length (result s)) = M * N ->
  exists s',
    SystolicArrayKernel activations weights_packed scales M K N s = Some s'.
Proof.
  intros Hlen. unfold SystolicArrayKernel.
  destruct (load_all_act_total s) as [s1 H1]. rewrite H1.
  destruct (load_all_wgt_total s1) as [s2 H2]. cbn [mbind option_bind].
  rewrite H2. cbn [mbind option_bind].
  apply compute_all_total.
  apply load_all_act_partial in H1 as (_ & R1 & _).
  apply load_all_wgt_partial in H2 as (_ & R2 & _). congruence.
Qed.
End KernelTotal.

(** ** The compute engine: faults do not depend on the static arrays *)

(** Two states have the same shape when their output buffers have the
    same length; every bounds check of the engine looks at nothing else
    of the state. *)
Definition same_shape (s1 s2 : state) : Prop :=
  length (result s1) = length (result s2).

Definition both (o1 o2 : option state) : Prop :=
  match o1, o2 with
  | Some a, Some b => same_shape a b
  | None, None => True
  | _, _ => False
  end.

(** [c] faults on both of two states of the same shape or on neither. *)
Definition agree (c : state -> option state) : Prop :=
  forall s1 s2, same_shape s1 s2 -> both (c s1) (c s2).

Lemma agree_bind c1 c2 :
  agree c1 -> agree c2 -> agree (fun s => s' ← c1 s; c2 s').
Proof.
  intros H1 H2 s1 s2 Hs. specialize (H1 s1 s2 Hs). unfold both in H1.
  destruct (c1 s1) as [a|], (c1 s2) as [b|]; try contradiction.
  - apply H2. exact H1.
  - exact I.
Qed.

Lemma agree_for_loop n i body :
  (forall j, agree (body j)) -> agree (for_loop n i 1 body).
Proof.
  intros Hb. revert i. induction n as [|n IH]; intros i s1 s2 Hs.
  - exact Hs.
  - cbn [for_loop]. specialize (Hb i s1 s2 Hs). unfold both in Hb.
    destruct (body i s1) as [a|], (body i s2) as [b|]; try contradiction.
    + apply IH. exact Hb.
    + exact I.
Qed.

Lemma agree_for_range lo hi body :
  (forall j, agree (body j)) -> agree (for_range lo hi body).
Proof. intros Hb. apply agree_for_loop. exact Hb. Qed.

Lemma agree_read {A} (o : option A) (c : A -> state -> option state) :
  (forall v, agree (c v)) -> agree (fun s => v ← o; c v s).
Proof.
  intros Hc s1 s2 Hs. destruct o as [v|]; [apply Hc; exact Hs | exact I].
Qed.

Ltac agree_cases :=
  repeat match goal with
         | |- context [if ?b then _ else _] => destruct b
         end.

Lemma agree_load_A t i k k' :
  agree (fun s => v ← get_A_cache t i k s; set_A_work i k' v s).
Proof.
  intros s1 s2 Hs. unfold get_A_cache, set_A_work.
  agree_cases; cbn; agree_cases; cbn; try exact I; exact Hs.
Qed.

Lemma agree_load_W t j k k' :
  agree (fun s => v ← get_W_cache t j k s; set_W_work j k' v s).
Proof.
  intros s1 s2 Hs. unfold get_W_cache, set_W_work.
  agree_cases; cbn; agree_cases; cbn; try exact I; exact Hs.
Qed.

Lemma agree_set_A_cache t i k v : agree (set_A_cache t i k v).
Proof. intros s1 s2 Hs. unfold set_A_cache. agree_cases; cbn; try exact I; exact Hs. Qed.

Lemma agree_set_W_cache t i k v : agree (set_W_cache t i k v).
Proof. intros s1 s2 Hs. unfold set_W_cache. agree_cases; cbn; try exact I; exact Hs. Qed.

Lemma agree_set_C_work i j v : agree (set_C_work i j v).
Proof. intros s1 s2 Hs. unfold set_C_work. agree_cases; cbn; try exact I; exact Hs. Qed.

Lemma agree_mac_step k i j : agree (mac_step k i j).
Proof.
  intros s1 s2 Hs. unfold mac_step, get_A_work, get_W_work, get_C_work, set_C_work.
  agree_cases; cbn; agree_cases; cbn; try exact I; exact Hs.
Qed.

Lemma agree_write_step N mt nt idx : agree (write_step N mt nt idx).
Proof.
  intros s1 s2 Hs. unfold write_step, get_C_work, set_result, zset.
  unfold same_shape in Hs. rewrite Hs.
  agree_cases; cbn; agree_cases; cbn; try exact I.
  unfold same_shape. cbn. rewrite !length_insert. exact Hs.
Qed.

Lemma agree_init_output : agree init_output.
Proof.
  rewrite init_output_unfold.
  apply agree_for_range. intros i. apply agree_for_range. intros j.
  apply agree_set_C_work.
Qed.

Lemma agree_compute_step k : agree (compute_step k).
Proof.
  rewrite compute_step_unfold.
  apply agree_for_range. intros i. apply agree_for_range. intros j.
  apply agree_mac_step.
Qed.

Lemma agree_copy_step mt nt k : agree (copy_step mt nt k).
Proof.
  apply (agree_bind
    (for_range 0 PE_ROWS (fun i s => v ← get_A_cache mt i k s; set_A_work i k v s))
    (for_range 0 PE_COLS (fun j s => v ← get_W_cache nt j k s; set_W_work j k v s))).
  - apply agree_for_range. intros i. apply agree_load_A.
  - apply agree_for_range. intros j. apply agree_load_W.
Qed.

Lemma agree_compute_tile K N mt nt : agree (compute_tile K N mt nt).
Proof.
  apply (agree_bind (for_range 0 K (copy_step mt nt))
           (fun s => s ← init_output s; s ← for_range 0 K compute_step s;
                     for_range 0 (PE_ROWS * PE_COLS) (write_step N mt nt) s)).
  - apply agree_for_range. intros k. apply agree_copy_step.
  - apply (agree_bind init_output
             (fun s => s ← for_range 0 K compute_step s;
                       for_range 0 (PE_ROWS * PE_COLS) (write_step N mt nt) s)).
    + apply agree_init_output.
    + apply (agree_bind (for_range 0 K compute_step)
               (for_range 0 (PE_ROWS * PE_COLS) (write_step N mt nt))).
      * apply agree_for_range. intros k. apply agree_compute_step.
      * apply agree_for_range. intros idx. apply agree_write_step.
Qed.

Lemma agree_SystolicArrayKernel activations weights_packed scales M K N :
  agree (SystolicArrayKernel activations weights_packed scales M K N).
Proof.
  unfold SystolicArrayKernel.
  apply (agree_bind (load_all_act activations K (Z.quot M PE_ROWS))
           (fun s => s ← load_all_wgt weights_packed scales K N
                           (Z.quot N PE_COLS) s;
                     compute_all K N (Z.quot M PE_ROWS) (Z.quot N PE_COLS) s)).
  - apply agree_for_range. intros mt. apply agree_for_range. intros idx.
    unfold load_act_step. apply agree_read. intros v. apply agree_set_A_cache.
  - apply (agree_bind
             (load_all_wgt weights_packed scales K N (Z.quot N PE_COLS))
             (compute_all K N (Z.quot M PE_ROWS) (Z.quot N PE_COLS))).
    + apply agree_for_range. intros nt. apply agree_for_range. intros idx.
      unfold load_wgt_step. apply agree_read. intros b.
      apply agree_read. intros c. apply agree_set_W_cache.
    + apply agree_for_range. intros mt. apply agree_for_range. intros nt.
      apply agree_compute_tile.
Qed.

(** ** The compute engine against the reference model *)

Lemma kernel_wgt_weight_at weights_packed scales N n k :
  0 <= k * N + n ->
  kernel_wgt weights_packed scales N n k = weight_at weights_packed scales (k * N + n).
Proof.
  intros H. unfold kernel_wgt, weight_at. cbv zeta.
  rewrite !Z.quot_div_nonneg by (unfold GROUP_SIZE; lia).
  rewrite odd_land_eqb by lia. reflexivity.
Qed.

Lemma zget_of_nat {A} (l : list A) (i : nat) : zget l (Z.of_nat i) = l !! i.
Proof.
  unfold zget. destruct (Z.ltb_spec (Z.of_nat i) 0); [lia|].
  rewrite Nat2Z.id. reflexivity.
Qed.

Lemma zget_ext (l1 l2 : list Z) :
  (forall p, 0 <= p -> zget l1 p = zget l2 p) -> l1 = l2.
Proof.
  intros H. apply list_eq. intros i. rewrite <- !zget_of_nat. apply H. lia.
Qed.

(** An output index is covered by the tiles the engine works on, or it
    is not. *)
Lemma kernel_covers_dec M N p :
  (exists m n, kernel_covers M N m n /\ p = m * N + n) \/
  (forall m n, kernel_covers M N m n -> p <> m * N + n).
Proof.
  unfold kernel_covers, PE_ROWS, PE_COLS.
  destruct (Z_lt_le_dec 0 (Z.quot N 16)) as [Hpos|Hnone].
  - assert (HN : 0 <= N).
    { destruct (Z_lt_le_dec N 0) as [Hneg|]; [|assumption].
      pose proof (Z.quot_opp_l N 16 ltac:(lia)).
      pose proof (Z.quot_pos (- N) 16 ltac:(lia) ltac:(lia)). lia. }
    assert (Hle : Z.quot N 16 * 16 <= N).
    { rewrite Z.quot_div_nonneg by lia.
      pose proof (Z.mul_div_le N 16 ltac:(lia)). lia. }
    assert (HNpos : 0 < N) by lia.
    pose proof (Z.div_mod p N ltac:(lia)) as Hp.
    pose proof (Z.mod_pos_bound p N HNpos) as Hr.
    destruct (Z_lt_le_dec (p / N) 0) as [Hm0|Hm0];
      [right; intros m n [Hm Hn] E; apply flat_index_inj_div in E; lia|].
    destruct (Z_lt_le_dec (p / N) (Z.quot M 16 * 16)) as [Hm1|Hm1];
      [|right; intros m n [Hm Hn] E; apply flat_index_inj_div in E; lia].
    destruct (Z_lt_le_dec (p mod N) (Z.quot N 16 * 16)) as [Hn1|Hn1];
      [|right; intros m n [Hm Hn] E; apply flat_index_inj_div in E; lia].
    left. exists (p / N), (p mod N). split; [lia|]. lia.
  - right. intros m n [_ Hn]. lia.
Qed.

(** On int8 activations the value the engine accumulates is the exact
    dot product of the reference model. *)
Lemma kernel_cell_exact act wgt_packed scales K N m n :
  0 <= K <= K_DIM -> 0 <= N -> 0 <= n -> Forall is_int8 act ->
  kernel_cell act wgt_packed scales K N m n
    = dot_product (Z.to_nat K) (fun k => zat act (m * K + k))
                  (fun k => weight_at wgt_packed scales (k * N + n)).
Proof.
  intros HK HN Hn Hact. unfold kernel_cell, K_DIM in *.
  rewrite mac_sum_exact.
  - apply dot_product_ext. intros k Hk. split; [reflexivity|].
    apply kernel_wgt_weight_at. nia.
  - lia.
  - intros k Hk. split.
    + apply zat_int8. exact Hact.
    + apply unpack_dequantize_weight_int8.
Qed.

Lemma full_tiles M :
  0 <= M -> M mod 16 = 0 -> Z.quot M 16 * 16 = M.
Proof.
  intros HM Hd. rewrite Z.quot_div_nonneg by lia.
  pose proof (Z.div_mod M 16 ltac:(lia)). lia.
Qed.

(** Checkable form of [valid_input], for concrete inputs. *)
Definition all_between (lo hi : Z) (l : list Z) : bool :=
  forallb (fun z => (lo <=? z) && (z <=? hi)) l.

Lemma all_between_Forall lo hi l :
  all_between lo hi l = true -> Forall (fun z => lo <= z <= hi) l.
Proof.
  unfold all_between. intros H. apply Forall_forall. intros z Hz.
  rewrite forallb_forall in H. specialize (H z (proj1 (list_elem_of_In _ _) Hz)).
  apply andb_true_iff in H as [H1 H2]. lia.
Qed.

Definition valid_inputb (act wgt_packed scales : list Z) (M K N : Z) : bool :=
  (0 <=? M) && (M <=? M_DIM) && (0 <=? K) && (K <=? K_DIM) &&
  (0 <=? N) && (N <=? N_DIM) &&
  (M mod PE_ROWS =? 0) && (K mod 16 =? 0) && (N mod PE_COLS =? 0) &&
  (Z.of_nat (length act) =? M * K) &&
  (Z.of_nat (length wgt_packed) =? K * N / 2) &&
  (Z.of_nat (length scales) =? K * N / GROUP_SIZE) &&
  all_between (-128) 127 act && all_between 0 255 wgt_packed &&
  all_between 0 255 scales.

Lemma valid_inputb_sound act wgt_packed scales M K N :
  valid_inputb act wgt_packed scales M K N = true ->
  valid_input act wgt_packed scales M K N.
Proof.
  unfold valid_inputb. rewrite !andb_true_iff, !Z.leb_le, !Z.eqb_eq.
  intros H. decompose [and] H. clear H.
  split; [repeat split; assumption|].
  repeat split; try assumption; apply all_between_Forall; assumption.
Qed.

(** A small valid input: one tile, [M = K = N = 16]. *)
Definition sample_act : list Z :=
  map (fun i => (Z.of_nat i * 37 + 11) mod 256 - 128) (seq 0 256).
Definition sample_wgt : list Z :=
  map (fun i => (Z.of_nat i * 101 + 7) mod 256) (seq 0 128).
Definition sample_scales : list Z :=
  map (fun i => (Z.of_nat i * 3 + 1) mod 256) (seq 0 16).

(** Two states that differ in every static array. *)
Definition sample_state (c : Z) (r : list Z) : state :=
  mkState (fun _ _ _ => c) (fun _ _ _ => c + 1) (fun _ _ => c + 2)
          (fun _ _ => c + 3) (fun _ _ => c + 4) r [].

(** * The claims *)

(** ** C5 *)

(** C5. On every valid input the reference model returns, and the value
    it writes to [out[m*N + n]] is the sum over [k] of
    [activation[m*K + k]] times the dequantized weight at flattened index
    [k*N + n], the nibble chosen by the parity of that index and the scale
    by its group. *)
Theorem cpu_reference_writes_dot_products act wgt_packed scales out M K N :
  valid_input act wgt_packed scales M K N ->
  exists out',
    cpu_reference act wgt_packed scales M K N out = Some out' /\
    Z.of_nat (length out') = M * N /\
    forall m n, 0 <= m < M -> 0 <= n < N ->
      zget out' (m * N + n)
        = Some (dot_product (Z.to_nat K)
                  (fun k => zat act (m * K + k))
                  (fun k => weight_at wgt_packed scales (k * N + n))).
Proof. intros Hv. apply cpu_reference_total. exact Hv. Qed.

Lemma cpu_reference_writes_dot_products_witness :
  exists out',
    cpu_reference sample_act sample_wgt sample_scales 16 16 16 [] = Some out' /\
    Z.of_nat (length out') = 16 * 16 /\
    forall m n, 0 <= m < 16 -> 0 <= n < 16 ->
      zget out' (m * 16 + n)
        = Some (dot_product (Z.to_nat 16)
                  (fun k => zat sample_act (m * 16 + k))
                  (fun k => weight_at sample_wgt sample_scales (k * 16 + n))).
Proof.
  apply (cpu_reference_writes_dot_products sample_act sample_wgt sample_scales
           [] 16 16 16).
  apply valid_inputb_sound. vm_compute. reflexivity.
Defined.

(** ** C1 *)

(** C1. On every valid input, with an output buffer of [M*N] elements,
    the engine and the reference model both return and the output matrix
    of the engine is the output of the reference model, element for
    element. *)
Theorem engine_output_is_reference_output act wgt_packed scales M K N s out :
  valid_input act wgt_packed scales M K N ->
  Z.of_nat (length (result s)) = M * N ->
  exists s' out',
    SystolicArrayKernel act wgt_packed scales M K N s = Some s' /\
    cpu_reference act wgt_packed scales M K N out = Some out' /\
    result s' = out'.
Proof.
  intros Hv Hlen.
  pose proof Hv as [(HM & HK & HN & HMd & HKd & HNd)
                    (Hla & Hlw & Hls & Hta & Htw & Hts)].
  destruct (SystolicArrayKernel_total act wgt_packed scales M K N
              HM HK HN HNd Hla Hlw Hls s Hlen) as [s' Hrun].
  destruct (cpu_reference_total act wgt_packed scales M K N Hv out)
    as (out' & Href & Hlo & Hout).
  exists s', out'. split; [exact Hrun|]. split; [exact Href|].
  apply SystolicArrayKernel_partial in Hrun as (L & Hin & _).
  unfold M_DIM, N_DIM, PE_ROWS, PE_COLS in *.
  apply zget_ext. intros p Hp.
  destruct (Z_lt_le_dec p (M * N)) as [Hlt|Hge].
  - assert (HNpos : 0 < N) by nia.
    pose proof (Z.div_mod p N ltac:(lia)) as Hdm.
    pose proof (Z.mod_pos_bound p N HNpos) as Hr.
    assert (Hq : 0 <= p / N < M).
    { split; [apply Z.div_pos; lia | apply Z.div_lt_upper_bound; lia]. }
    replace p with (p / N * N + p mod N) by lia.
    rewrite Hout by lia.
    destruct (Hin (p / N) (p mod N)) as [-> _].
    { unfold kernel_covers, PE_ROWS, PE_COLS.
      rewrite !full_tiles by lia. lia. }
    f_equal. apply kernel_cell_exact; [exact HK | lia | lia | exact Hta].
  - rewrite !zget_None by lia. reflexivity.
Qed.

Lemma engine_output_is_reference_output_witness :
  exists s' out',
    SystolicArrayKernel sample_act sample_wgt sample_scales 16 16 16
      (sample_state 9 (replicate 256 5)) = Some s' /\
    cpu_reference sample_act sample_wgt sample_scales 16 16 16 [] = Some out' /\
    result s' = out'.
Proof.
  apply engine_output_is_reference_output.
  - apply valid_inputb_sound. vm_compute. reflexivity.
  - reflexivity.
Defined.

(** ** C10 *)

(** C10. With [M] and [N] tile-divisible and within the capacity of the
    static caches, [K <= 4096] and buffers of the contracted lengths, no
    access of the engine leaves a static array or a buffer (the run
    returns), and every output element [result[m*N + n]] is stored to
    exactly once. *)
Theorem engine_in_bounds_each_output_once
    activations weights_packed scales M K N s :
  0 <= M <= M_DIM -> 0 <= K <= K_DIM -> 0 <= N <= N_DIM ->
  M mod PE_ROWS = 0 -> N mod PE_COLS = 0 ->
  Z.of_nat (length activations) = M * K ->
  Z.of_nat (length weights_packed) = K * N / 2 ->
  Z.of_nat (length scales) = K * N / GROUP_SIZE ->
  Z.of_nat (length (result s)) = M * N ->
  exists s',
    SystolicArrayKernel activations weights_packed scales M K N s = Some s' /\
    forall m n, 0 <= m < M -> 0 <= n < N ->
      count_occ Z.eq_dec (result_stores s') (m * N + n)
        = Datatypes.S (count_occ Z.eq_dec (result_stores s) (m * N + n)).
Proof.
  intros HM HK HN HMd HNd Hla Hlw Hls Hlen.
  destruct (SystolicArrayKernel_total activations weights_packed scales M K N
              HM HK HN HNd Hla Hlw Hls s Hlen) as [s' Hrun].
  exists s'. split; [exact Hrun|].
  apply SystolicArrayKernel_partial in Hrun as (_ & Hin & _).
  intros m n Hm Hn. apply Hin.
  unfold kernel_covers, PE_ROWS, PE_COLS in *.
  rewrite !full_tiles by lia. lia.
Qed.

Lemma engine_in_bounds_each_output_once_witness :
  exists s',
    SystolicArrayKernel sample_act sample_wgt sample_scales 16 16 16
      (sample_state 0 (replicate 256 0)) = Some s' /\
    forall m n, 0 <= m < 16 -> 0 <= n < 16 ->
      count_occ Z.eq_dec (result_stores s') (m * 16 + n)
        = Datatypes.S (count_occ Z.eq_dec
                         (result_stores (sample_state 0 (replicate 256 0)))
                         (m * 16 + n)).
Proof.
  apply engine_in_bounds_each_output_once;
    try (unfold M_DIM, K_DIM, N_DIM; lia); reflexivity.
Defined.

(** ** C9 *)

(** C9. The output of the engine does not depend on what the static
    arrays hold on entry: from two states with the same output buffer,
    two invocations on the same inputs and dimensions fault together or
    return the same output matrix. *)
Theorem engine_output_independent_of_statics
    activations weights_packed scales M K N s1 s2 :
  result s1 = result s2 ->
  option_map result
    (SystolicArrayKernel activations weights_packed scales M K N s1)
  = option_map result
    (SystolicArrayKernel activations weights_packed scales M K N s2).
Proof.
  intros Hres.
  pose proof (agree_SystolicArrayKernel activations weights_packed scales
                M K N s1 s2) as Hag.
  unfold same_shape in Hag. specialize (Hag ltac:(rewrite Hres; reflexivity)).
  unfold both in Hag.
  destruct (SystolicArrayKernel activations weights_packed scales M K N s1)
    as [t1|] eqn:E1;
  destruct (SystolicArrayKernel activations weights_packed scales M K N s2)
    as [t2|] eqn:E2; try contradiction; [|reflexivity].
  cbn [option_map]. f_equal.
  apply SystolicArrayKernel_partial in E1 as (L1 & In1 & Out1).
  apply SystolicArrayKernel_partial in E2 as (L2 & In2 & Out2).
  apply zget_ext. intros p Hp.
  destruct (kernel_covers_dec M N p) as [(m & n & Hc & ->)|Hnc].
  - destruct (In1 m n Hc) as [-> _]. destruct (In2 m n Hc) as [-> _].
    reflexivity.
  - destruct (Out1 p Hnc) as [-> _]. destruct (Out2 p Hnc) as [-> _].
    rewrite Hres. reflexivity.
Qed.

Lemma engine_output_independent_of_statics_witness :
  option_map result
    (SystolicArrayKernel sample_act sample_wgt sample_scales 16 16 16
       (sample_state 3 (replicate 256 0)))
  = option_map result
    (SystolicArrayKernel sample_act sample_wgt sample_scales 16 16 16
       (sample_state (-70) (replicate 256 0))).
Proof.
  apply engine_output_independent_of_statics. reflexivity.
Defined.

(** ** C3 *)

(** An input whose [M] is not a multiple of [PE_ROWS]. *)
Definition ragged_act : list Z := map (fun i => Z.of_nat i - 8) (seq 0 17).
Definition ragged_wgt : list Z := map (fun i => Z.of_nat i * 29 + 3) (seq 0 8).
Definition ragged_scales : list Z := [1].

(** C3, as stated, fails: invoked with [M = 17] the engine is not
    rejected; it returns after 256 stores to the output buffer. *)
Lemma engine_accepts_ragged_M :
  17 mod PE_ROWS <> 0 /\
  option_map (fun s' => length (result_stores s'))
    (SystolicArrayKernel ragged_act ragged_wgt ragged_scales 17 1 16
       (sample_state 0 (replicate 272 5)))
  = Some 256%nat.
Proof. split; [discriminate | vm_compute; reflexivity]. Qed.

(** C3, amended. The engine checks none of its arguments.  Invoked with
    an [M] that is not a multiple of [PE_ROWS] (sizes within the capacity
    of the caches, [N] tile-divisible, buffers of the contracted lengths)
    it runs to completion: it computes the rows of the complete tile rows
    and leaves the remaining rows of the output buffer as they were. *)
Theorem engine_runs_on_complete_tile_rows
    activations weights_packed scales M K N s :
  0 <= M <= M_DIM -> 0 <= K <= K_DIM -> 0 <= N <= N_DIM ->
  N mod PE_COLS = 0 ->
  Z.of_nat (length activations) = M * K ->
  Z.of_nat (length weights_packed) = K * N / 2 ->
  Z.of_nat (length scales) = K * N / GROUP_SIZE ->
  Z.of_nat (length (result s)) = M * N ->
  exists s',
    SystolicArrayKernel activations weights_packed scales M K N s = Some s' /\
    (forall m n, 0 <= m < M / PE_ROWS * PE_ROWS -> 0 <= n < N ->
       zget (result s') (m * N + n)
         = Some (kernel_cell activations weights_packed scales K N m n)) /\
    (forall m n, M / PE_ROWS * PE_ROWS <= m < M -> 0 <= n < N ->
       zget (result s') (m * N + n) = zget (result s) (m * N + n)).
Proof.
  intros HM HK HN HNd Hla Hlw Hls Hlen.
  destruct (SystolicArrayKernel_total activations weights_packed scales M K N
              HM HK HN HNd Hla Hlw Hls s Hlen) as [s' Hrun].
  exists s'. split; [exact Hrun|].
  apply SystolicArrayKernel_partial in Hrun as (_ & Hin & Hout).
  unfold kernel_covers, PE_ROWS, PE_COLS, M_DIM, N_DIM in *.
  rewrite Z.quot_div_nonneg in Hin, Hout by lia.
  rewrite (full_tiles N) in Hin, Hout by lia.
  split.
  - intros m n Hm Hn. apply Hin. lia.
  - intros m n Hm Hn. apply Hout.
    intros m' n' [Hm' Hn'] E. apply flat_index_inj in E; lia.
Qed.

Lemma engine_runs_on_complete_tile_rows_witness :
  exists s',
    SystolicArrayKernel ragged_act ragged_wgt ragged_scales 17 1 16
      (sample_state 0 (replicate 272 5)) = Some s' /\
    (forall m n, 0 <= m < 17 / PE_ROWS * PE_ROWS -> 0 <= n < 16 ->
       zget (result s') (m * 16 + n)
         = Some (kernel_cell ragged_act ragged_wgt ragged_scales 1 16 m n)) /\
    (forall m n, 17 / PE_ROWS * PE_ROWS <= m < 17 -> 0 <= n < 16 ->
       zget (result s') (m * 16 + n)
         = zget (result (sample_state 0 (replicate 272 5))) (m * 16 + n)).
Proof.
  apply engine_runs_on_complete_tile_rows;
    try (unfold M_DIM, K_DIM, N_DIM; lia); reflexivity.
Defined.

(** ** C8 *)

(** Every running sum of the reference model is the exact sum of the
    products so far, a 32-bit value. *)
Definition reference_sums_exact (act wgt_packed scales : list Z) (M K N : Z) : Prop :=
  forall m n k0, 0 <= m < M -> 0 <= n < N -> 0 <= k0 <= K ->
    let exact := dot_product (Z.to_nat k0)
                   (fun k => zat act (m * K + k))
                   (fun k => weight_at wgt_packed scales (k * N + n)) in
    cpu_reference_sum act wgt_packed scales K N m n k0 = Some exact /\
    is_int32 exact.

(** After the accumulators are cleared, every accumulator of the grid
    holds, after any number [k0 <= K] of steps of the [compute] loop over
    8-bit working buffers, the exact sum of its products so far, a 32-bit
    value. *)
Definition engine_sums_exact (K : Z) : Prop :=
  forall s k0, 0 <= k0 <= K ->
    (forall i k, is_int8 (A_work s i k)) ->
    (forall j k, is_int8 (W_work s j k)) ->
    exists s1 s',
      init_output s = Some s1 /\
      for_range 0 k0 compute_step s1 = Some s' /\
      forall i j, 0 <= i < PE_ROWS -> 0 <= j < PE_COLS ->
        let exact := dot_product (Z.to_nat k0) (A_work s i) (W_work s j) in
        C_work s' i j = exact /\ is_int32 exact.

Lemma dot_product_int32 n a w :
  Z.of_nat n <= 4096 ->
  (forall k, 0 <= k < Z.of_nat n -> is_int8 (a k) /\ is_int8 (w k)) ->
  is_int32 (dot_product n a w).
Proof.
  intros Hn H. pose proof (dot_product_bound n a w H).
  unfold is_int32. change (2 ^ 31) with 2147483648. lia.
Qed.

(** C8. With int8 activations and [K <= 4096], every accumulation of the
    reference model and of the compute loop of the engine is the exact
    integer sum: no 32-bit addition wraps at any step. *)
Theorem accumulations_never_wrap act wgt_packed scales M K N :
  valid_input act wgt_packed scales M K N ->
  reference_sums_exact act wgt_packed scales M K N /\ engine_sums_exact K.
Proof.
  intros Hv. pose proof Hv as [(HM & HK & HN & _) (_ & _ & _ & Hta & _)].
  unfold K_DIM in HK. split.
  - intros m n k0 Hm Hn Hk0. cbv zeta. split.
    + apply (cpu_reference_sum_exact act wgt_packed scales M K N Hv); assumption.
    + apply dot_product_int32; [lia|]. intros k Hk. split.
      * apply zat_int8. exact Hta.
      * apply weight_at_int8.
  - intros s k0 Hk0 HA HW.
    destruct (init_output_total s) as [s1 H1].
    destruct (compute_prefix_total k0 s1) as [s' H2]; [unfold K_DIM; lia|].
    exists s1, s'. split; [exact H1|]. split; [exact H2|].
    apply init_output_partial in H1 as [(_ & _ & EA & EW & _) Hz].
    apply compute_partial in H2 as [_ HC]; [|exact Hz].
    intros i j Hi Hj. cbv zeta. rewrite HC by assumption. rewrite EA, EW.
    split.
    + apply mac_sum_exact; [lia|]. intros k Hk. split; [apply HA | apply HW].
    + apply dot_product_int32; [lia|]. intros k Hk. split; [apply HA | apply HW].
Qed.

Lemma accumulations_never_wrap_witness :
  reference_sums_exact sample_act sample_wgt sample_scales 16 16 16 /\
  engine_sums_exact 16.
Proof.
  apply accumulations_never_wrap.
  apply valid_inputb_sound. vm_compute. reflexivity.
Defined.

(** ** C2 *)

(** At every scale whose two low bits are below 3 the primitive returns
    the weight the nibble and the scale stand for. *)
Lemma unpack_dequantize_weight_exact b u s :
  is_uint8 b -> 0 <= s -> s mod 4 <= 2 ->
  unpack_dequantize_weight b u s = weight_value b u s.
Proof.
  intros Hb Hs Hm. rewrite unpack_dequantize_weight_wrap by assumption.
  apply wrap8_id. unfold weight_value, nibble_signed, nibble_field, is_int8.
  unfold is_uint8 in Hb.
  pose proof (Z.mod_pos_bound s 4 ltac:(lia)) as Hs4.
  assert (Hp : 2 ^ (2 * (s mod 4)) = 1 \/ 2 ^ (2 * (s mod 4)) = 4 \/
               2 ^ (2 * (s mod 4)) = 16).
  { assert (s mod 4 = 0 \/ s mod 4 = 1 \/ s mod 4 = 2) as [-> | [-> | ->]] by lia;
      cbn; auto. }
  pose proof (Z.mod_pos_bound b 16 ltac:(lia)) as Hlo.
  assert (Hhi : 0 <= b / 16 < 16).
  { split; [apply Z.div_pos; lia | apply Z.div_lt_upper_bound; lia]. }
  destruct u.
  - destruct (Z.ltb_spec (b / 16) 8); lia.
  - destruct (Z.ltb_spec (b mod 16) 8); lia.
Qed.

(** C2. The claim asks for the exact weight at every scale byte; the code
    returns an [int8_t]: for the low nibble 7 at scale 3 the weight is
    [7 * 2^6 = 448] and the primitive returns [-64]. *)
Theorem unpack_dequantize_weight_truncates :
  weight_value 7 false 3 = 448 /\ unpack_dequantize_weight 7 false 3 = -64.
Proof. split; reflexivity. Qed.

(** ** The quantization codec *)

(** Total correctness of a loop with a stride, by an invariant on the
    number of iterations done. *)
Lemma for_loop_total {S} (I : nat -> S -> Prop) n i step body (s : S) :
  I O s ->
  (forall j t, (j < n)%nat -> I j t ->
     exists t', body (i + Z.of_nat j * step) t = Some t' /\ I (Datatypes.S j) t') ->
  exists s', for_loop n i step body s = Some s' /\ I n s'.
Proof.
  revert I i s. induction n as [|n IH]; intros I i s H0 Hstep.
  - exists s. split; [reflexivity | exact H0].
  - destruct (Hstep O s ltac:(lia) H0) as (t & Hb & Ht).
    replace (i + Z.of_nat 0 * step) with i in Hb by lia.
    destruct (IH (fun j => I (Datatypes.S j)) (i + step) t Ht) as (s' & Hrun & Hs').
    { intros j u Hj Hu. destruct (Hstep (Datatypes.S j) u ltac:(lia) Hu) as (u' & Hb' & Hu').
      exists u'. split; [|exact Hu'].
      replace (i + step + Z.of_nat j * step)
        with (i + Z.of_nat (Datatypes.S j) * step) by lia.
      exact Hb'. }
    exists s'. split; [|exact Hs']. cbn [for_loop]. rewrite Hb. exact Hrun.
Qed.

Lemma for_range_by_pairs {S} (body : Z -> S -> option S) :
  for_range_by 0 GROUP_SIZE 2 body = for_loop 8 0 2 body.
Proof. reflexivity. Qed.

Lemma fmax_ge_l a b : (a <= fmax a b)%Q.
Proof.
  unfold fmax. destruct (Qle_bool b a) eqn:E; [apply Qle_refl|].
  destruct (Qlt_le_dec b a) as [H|H]; [|exact H].
  apply Qlt_le_weak, Qle_bool_iff in H. congruence.
Qed.

Lemma fmax_ge_r a b : (b <= fmax a b)%Q.
Proof.
  unfold fmax. destruct (Qle_bool b a) eqn:E; [|apply Qle_refl].
  apply Qle_bool_iff. exact E.
Qed.

Lemma fmax_cases a b : fmax a b = a \/ fmax a b = b.
Proof. unfold fmax. destruct (Qle_bool b a); auto. Qed.

(** [std::round] is within one half of its argument. *)
Lemma fround_error x : (Qabs (inject_Z (fround x) - x) <= 1 # 2)%Q.
Proof.
  unfold fround. apply Qabs_Qle_condition.
  destruct (Qle_bool 0 x) eqn:E.
  - pose proof (Qfloor_le (x + (1 # 2))) as H1.
    pose proof (Qlt_floor (x + (1 # 2))) as H2.
    rewrite inject_Z_plus in H2. change (inject_Z 1) with 1%Q in H2.
    split; lra.
  - unfold Qceiling.
    pose proof (Qfloor_le (- (x - (1 # 2)))) as H1.
    pose proof (Qlt_floor (- (x - (1 # 2)))) as H2.
    rewrite inject_Z_plus in H2. change (inject_Z 1) with 1%Q in H2.
    rewrite inject_Z_opp. split; lra.
Qed.


Lemma clamp4_range w : -8 <= clamp4 w <= 7.
Proof. unfold clamp4. lia. Qed.

Lemma clamp4_id w : -8 <= w <= 7 -> clamp4 w = w.
Proof. unfold clamp4. lia. Qed.

Definition nibbles_table_ok : bool :=
  all_below 16 (fun a => all_below 16 (fun b =>
    let w0 := a - 8 in
    let w1 := b - 8 in
    let p := pack_nibbles w0 w1 in
    (nibble_signed p false =? w0) && (nibble_signed p true =? w1) &&
    (0 <=? p) && (p <=? 255))).

(** Packing two 4-bit values and reading the fields back. *)
Lemma pack_nibbles_fields w0 w1 :
  -8 <= w0 <= 7 -> -8 <= w1 <= 7 ->
  nibble_signed (pack_nibbles w0 w1) false = w0 /\
  nibble_signed (pack_nibbles w0 w1) true = w1 /\
  is_uint8 (pack_nibbles w0 w1).
Proof.
  intros H0 H1.
  assert (Ht : nibbles_table_ok = true) by (vm_compute; reflexivity).
  unfold nibbles_table_ok in Ht.
  pose proof (all_below_spec 16 _ Ht (w0 + 8) ltac:(lia)) as Ha. cbv beta in Ha.
  pose proof (all_below_spec 16 _ Ha (w1 + 8) ltac:(lia)) as Hb. cbv beta zeta in Hb.
  replace (w0 + 8 - 8) with w0 in Hb by lia.
  replace (w1 + 8 - 8) with w1 in Hb by lia.
  rewrite !andb_true_iff, !Z.eqb_eq, !Z.leb_le in Hb. unfold is_uint8. tauto.
Qed.

Lemma vresize_Some {A} n (x : A) (v : list A) :
  0 <= n -> vresize n x v = Some (resize (Z.to_nat n) x v).
Proof.
  intros Hn. unfold vresize.
  destruct (n <? 0) eqn:E; [apply Z.ltb_lt in E; lia | reflexivity].
Qed.

Section QuantizeFacts.
Variable floor_log2 : Q -> Z.
Variable weights_fp32 : list Q.

(** Weight [i] of the flattened array. *)
Definition weight (i : Z) : Q := default 0%Q (zget weights_fp32 i).

(** [x] is the largest magnitude among the weights of group [grp]. *)
Definition is_group_max (grp : Z) (x : Q) : Prop :=
  (forall i, 0 <= i < GROUP_SIZE ->
     (Qabs (weight (grp * GROUP_SIZE + i)) <= x)%Q) /\
  (x = 0%Q \/
   exists i, 0 <= i < GROUP_SIZE /\ x = Qabs (weight (grp * GROUP_SIZE + i))).

(** The magnitude, the shift and the scale the codec derives for a group. *)
Definition group_max (grp : Z) : Q :=
  default 0%Q (group_max_abs weights_fp32 (grp * GROUP_SIZE)).

Definition shift_of (grp : Z) : Z := group_shift floor_log2 (group_max grp).

Definition scale_of (grp : Z) : Q := inject_Z (2 ^ (shift_of grp * 2)).

(** The 4-bit value the codec stores for weight [idx]. *)
Definition quantized (idx : Z) : Z :=
  quantize_weight (scale_of (idx / GROUP_SIZE)) (weight idx).

Lemma weight_Some i w : zget weights_fp32 i = Some w -> weight i = w.
Proof. unfold weight. intros ->. reflexivity. Qed.

Lemma group_shift_range x : 0 <= group_shift floor_log2 x <= 3.
Proof. unfold group_shift. destruct (negb (Qle_bool x 0)); lia. Qed.

Lemma group_max_abs_total grp :
  0 <= grp -> (grp + 1) * GROUP_SIZE <= Z.of_nat (length weights_fp32) ->
  exists x, group_max_abs weights_fp32 (grp * GROUP_SIZE) = Some x /\
            is_group_max grp x.
Proof.
  intros Hg Hlen. unfold group_max_abs, is_group_max.
  apply (for_range_total
    (fun i0 (x : Q) =>
       (forall i, 0 <= i < i0 -> (Qabs (weight (grp * GROUP_SIZE + i)) <= x)%Q) /\
       (x = 0%Q \/
        exists i, 0 <= i < i0 /\ x = Qabs (weight (grp * GROUP_SIZE + i))))).
  - unfold GROUP_SIZE. lia.
  - split; [intros; lia | left; reflexivity].
  - intros i x Hi [Hub Hatt]. unfold GROUP_SIZE in *.
    destruct (zget_in_range weights_fp32 (grp * 16 + i)) as [w Hw]; [lia|].
    rewrite Hw. cbn [mbind option_bind]. eexists. split; [reflexivity|].
    rewrite <- (weight_Some _ _ Hw). split.
    + intros i' Hi'. destruct (Z.eq_dec i' i) as [->|Hne].
      * apply fmax_ge_r.
      * eapply Qle_trans; [apply Hub; lia | apply fmax_ge_l].
    + destruct (fmax_cases x (Qabs (weight (grp * 16 + i)))) as [E|E]; rewrite E.
      * destruct Hatt as [H0 | (i' & Hi' & H')]; [left; exact H0|].
        right. exists i'. split; [lia | exact H'].
      * right. exists i. split; [lia | reflexivity].
Qed.

(** The pairs of one group: eight bytes of the packed buffer. *)
Lemma quantize_pairs_total grp scale_val (weights_packed : list Z) :
  0 <= grp -> (grp + 1) * GROUP_SIZE <= Z.of_nat (length weights_fp32) ->
  (grp + 1) * 8 <= Z.of_nat (length weights_packed) ->
  exists packed',
    for_range_by 0 GROUP_SIZE 2
      (quantize_pair weights_fp32 (grp * GROUP_SIZE) scale_val) weights_packed
      = Some packed' /\
    length packed' = length weights_packed /\
    (forall j, 0 <= j < 8 ->
       zget packed' (grp * 8 + j)
         = Some (pack_nibbles
                   (quantize_weight scale_val (weight (grp * GROUP_SIZE + 2 * j)))
                   (quantize_weight scale_val (weight (grp * GROUP_SIZE + 2 * j + 1))))) /\
    (forall p, ~ (grp * 8 <= p < grp * 8 + 8) ->
       zget packed' p = zget weights_packed p).
Proof.
  intros Hg Hlen Hlp. rewrite for_range_by_pairs. unfold GROUP_SIZE in *.
  destruct (for_loop_total
    (fun (n : nat) (pk : list Z) =>
       length pk = length weights_packed /\
       (forall j, 0 <= j < Z.of_nat n ->
          zget pk (grp * 8 + j)
            = Some (pack_nibbles
                      (quantize_weight scale_val (weight (grp * 16 + 2 * j)))
                      (quantize_weight scale_val (weight (grp * 16 + 2 * j + 1))))) /\
       (forall p, ~ (grp * 8 <= p < grp * 8 + Z.of_nat n) ->
          zget pk p = zget weights_packed p))
    8 0 2 (quantize_pair weights_fp32 (grp * 16) scale_val) weights_packed)
    as (pk & Hrun & Hl & Hin & Hout).
  - split; [reflexivity|]. split; [intros; lia | intros; reflexivity].
  - intros j t Hj (Hl & Hin & Hout). unfold quantize_pair.
    replace (0 + Z.of_nat j * 2) with (2 * Z.of_nat j) by lia.
    destruct (zget_in_range weights_fp32 (grp * 16 + 2 * Z.of_nat j))
      as [x0 H0]; [lia|].
    destruct (zget_in_range weights_fp32 (grp * 16 + 2 * Z.of_nat j + 1))
      as [x1 H1]; [lia|].
    rewrite H0. cbn [mbind option_bind]. rewrite H1. cbn [mbind option_bind].
    rewrite Z.quot_div_nonneg by lia.
    replace ((grp * 16 + 2 * Z.of_nat j) / 2) with (grp * 8 + Z.of_nat j)
      by (apply Z.div_unique_exact; lia).
    rewrite <- (weight_Some _ _ H0), <- (weight_Some _ _ H1).
    assert (Hset : 0 <= grp * 8 + Z.of_nat j < Z.of_nat (length t)) by lia.
    eexists. split; [apply zset_in_range; exact Hset|].
    pose proof (zset_in_range t _
      (pack_nibbles
         (quantize_weight scale_val (weight (grp * 16 + 2 * Z.of_nat j)))
         (quantize_weight scale_val (weight (grp * 16 + 2 * Z.of_nat j + 1))))
      Hset) as Hz.
    split; [|split].
    + rewrite length_insert. exact Hl.
    + intros j' Hj'. destruct (Z.eq_dec j' (Z.of_nat j)) as [->|Hne].
      * apply (zget_zset_eq _ _ _ _ Hz).
      * rewrite (zget_zset_ne _ _ _ _ _ Hz) by lia. apply Hin. lia.
    + intros p Hp. rewrite (zget_zset_ne _ _ _ _ _ Hz) by lia. apply Hout. lia.
  - exists pk. split; [exact Hrun|]. split; [exact Hl|]. split.
    + intros j Hj. apply Hin. lia.
    + intros p Hp. apply Hout. lia.
Qed.

(** One group: its scale and its eight packed bytes. *)
Lemma quantize_group_total grp (weights_packed scales : list Z) :
  0 <= grp -> (grp + 1) * GROUP_SIZE <= Z.of_nat (length weights_fp32) ->
  (grp + 1) * 8 <= Z.of_nat (length weights_packed) ->
  grp < Z.of_nat (length scales) ->
  exists packed' scales',
    quantize_group floor_log2 weights_fp32 grp (weights_packed, scales)
      = Some (packed', scales') /\
    length packed' = length weights_packed /\
    length scales' = length scales /\
    zget scales' grp = Some (shift_of grp) /\
    (forall g, g <> grp -> zget scales' g = zget scales g) /\
    (forall j, 0 <= j < 8 ->
       zget packed' (grp * 8 + j)
         = Some (pack_nibbles (quantized (grp * GROUP_SIZE + 2 * j))
                              (quantized (grp * GROUP_SIZE + 2 * j + 1)))) /\
    (forall p, ~ (grp * 8 <= p < grp * 8 + 8) ->
       zget packed' p = zget weights_packed p).
Proof.
  intros Hg Hlen Hlp Hls.
  destruct (group_max_abs_total grp Hg Hlen) as (x & Hx & _).
  assert (Esh : group_shift floor_log2 x = shift_of grp).
  { unfold shift_of, group_max. rewrite Hx. reflexivity. }
  pose proof (group_shift_range x) as Hr.
  destruct (quantize_pairs_total grp (inject_Z (2 ^ (group_shift floor_log2 x * 2)))
              weights_packed Hg Hlen Hlp) as (pk & Hrun & Hl & Hin & Hout).
  assert (Hset : 0 <= grp < Z.of_nat (length scales)) by lia.
  pose proof (zset_in_range scales grp (group_shift floor_log2 x mod 256) Hset)
    as Hz.
  exists pk, (<[Z.to_nat grp := group_shift floor_log2 x mod 256]> scales).
  split.
  { unfold quantize_group. rewrite Hx. cbn [mbind option_bind snd fst].
    rewrite Hz. cbn [mbind option_bind]. rewrite Hrun. reflexivity. }
  split; [exact Hl|]. split; [apply length_insert|]. split.
  { rewrite (zget_zset_eq _ _ _ _ Hz). rewrite Z.mod_small by lia.
    rewrite Esh. reflexivity. }
  split.
  { intros g Hne. apply (zget_zset_ne _ _ _ _ _ Hz). lia. }
  split; [|exact Hout].
  intros j Hj. rewrite (Hin j Hj). unfold quantized, scale_of, GROUP_SIZE.
  replace ((grp * 16 + 2 * j) / 16) with grp
    by (apply (Z.div_unique _ _ _ (2 * j)); lia).
  replace ((grp * 16 + 2 * j + 1) / 16) with grp
    by (apply (Z.div_unique _ _ _ (2 * j + 1)); lia).
  rewrite Esh. reflexivity.
Qed.
(** The codec on the whole groups of a count of [16 * G] weights: it
    returns, and its two output buffers are what [shift_of] and
    [quantized] say. *)
Lemma quantize_mxint4_count (packed0 scales0 : list Z) K N G :
  0 <= G -> wrap32 (K * N) = 16 * G ->
  16 * G <= Z.of_nat (length weights_fp32) ->
  exists packed scales,
    quantize_mxint4 floor_log2 weights_fp32 packed0 scales0 K N
      = Some (packed, scales) /\
    Z.of_nat (length packed) = 8 * G /\
    Z.of_nat (length scales) = G /\
    (forall g, 0 <= g < G -> zget scales g = Some (shift_of g)) /\
    (forall i, 0 <= i < 8 * G ->
       zget packed i
         = Some (pack_nibbles (quantized (2 * i)) (quantized (2 * i + 1)))).
Proof.
  intros HG0 HT Hlen.
  unfold quantize_mxint4. rewrite HT. unfold GROUP_SIZE.
  replace (Z.quot (16 * G) 2) with (8 * G)
    by (rewrite Z.quot_div_nonneg by lia; apply Z.div_unique_exact; lia).
  replace (Z.quot (16 * G) 16) with G
    by (rewrite Z.quot_div_nonneg by lia; apply Z.div_unique_exact; lia).
  rewrite !vresize_Some by lia. cbn [mbind option_bind].
  destruct (for_range_total
    (fun g (st : list Z * list Z) =>
       Z.of_nat (length (fst st)) = 8 * G /\
       Z.of_nat (length (snd st)) = G /\
       (forall g', 0 <= g' < g -> zget (snd st) g' = Some (shift_of g')) /\
       (forall g' j, 0 <= g' < g -> 0 <= j < 8 ->
          zget (fst st) (g' * 8 + j)
            = Some (pack_nibbles (quantized (g' * 16 + 2 * j))
                                 (quantized (g' * 16 + 2 * j + 1)))))
    0 G (quantize_group floor_log2 weights_fp32)
    (resize (Z.to_nat (8 * G)) 0 packed0, resize (Z.to_nat G) 0 scales0))
    as ([pk sc] & Hrun & Hlp & Hls & Hsc & Hpk).
  - exact HG0.
  - cbn [fst snd]. rewrite !length_resize.
    split; [lia|]. split; [lia|]. split; intros; lia.
  - intros g [pk sc] Hg (Hlp & Hls & Hsc & Hpk). cbn [fst snd] in *.
    destruct (quantize_group_total g pk sc) as
      (pk' & sc' & Hrun & L1 & L2 & S1 & S2 & P1 & P2);
      [lia | unfold GROUP_SIZE; lia | lia | lia |].
    exists (pk', sc'). split; [exact Hrun|]. cbn [fst snd].
    split; [lia|]. split; [lia|]. split.
    + intros g' Hg'. destruct (Z.eq_dec g' g) as [->|Hne]; [exact S1|].
      rewrite S2 by exact Hne. apply Hsc. lia.
    + intros g' j Hg' Hj. destruct (Z.eq_dec g' g) as [->|Hne].
      * apply (P1 j Hj).
      * rewrite P2 by lia. apply Hpk; lia.
  - cbn [fst snd] in *. exists pk, sc. split; [exact Hrun|].
    split; [exact Hlp|]. split; [exact Hls|]. split; [exact Hsc|].
    intros i Hi.
    pose proof (Z.div_mod i 8 ltac:(lia)) as Hdm.
    pose proof (Z.mod_pos_bound i 8 ltac:(lia)) as Hr.
    assert (Hq : 0 <= i / 8 < G).
    { split; [apply Z.div_pos; lia | apply Z.div_lt_upper_bound; lia]. }
    specialize (Hpk (i / 8) (i mod 8) Hq Hr).
    replace (i / 8 * 8 + i mod 8) with i in Hpk by lia.
    replace (i / 8 * 16 + 2 * (i mod 8)) with (2 * i) in Hpk by lia.
    exact Hpk.
Qed.

(** The codec is total on a weight array made of whole groups whose
    count is an [int], and its two output buffers are what [shift_of]
    and [quantized] say. *)
Lemma quantize_mxint4_total (packed0 scales0 : list Z) K N :
  0 <= K -> 0 <= N -> K * N < 2 ^ 31 ->
  Z.of_nat (length weights_fp32) = K * N ->
  (K * N) mod GROUP_SIZE = 0 ->
  exists packed scales,
    quantize_mxint4 floor_log2 weights_fp32 packed0 scales0 K N
      = Some (packed, scales) /\
    Z.of_nat (length packed) = K * N / 2 /\
    Z.of_nat (length scales) = K * N / GROUP_SIZE /\
    (forall g, 0 <= g < K * N / GROUP_SIZE ->
       zget scales g = Some (shift_of g)) /\
    (forall i, 0 <= i < K * N / 2 ->
       zget packed i
         = Some (pack_nibbles (quantized (2 * i)) (quantized (2 * i + 1)))).
Proof.
  intros HK HN Hint Hlen Hdiv. unfold GROUP_SIZE in *.
  assert (HT : 0 <= K * N) by nia.
  assert (HG : K * N = 16 * (K * N / 16)).
  { pose proof (Z.div_mod (K * N) 16 ltac:(lia)). lia. }
  assert (H2 : K * N / 2 = 8 * (K * N / 16))
    by (symmetry; apply Z.div_unique_exact; lia).
  rewrite H2.
  apply quantize_mxint4_count; [lia | | lia].
  rewrite wrap32_id by (unfold is_int32; lia). exact HG.
Qed.
End QuantizeFacts.




(** ** The single-precision logarithm *)













Lemma Qle_bool_false a b : Qle_bool a b = false -> (b < a)%Q.
Proof.
  intros E. destruct (Qlt_le_dec b a) as [H|H]; [exact H|].
  apply Qle_bool_iff in H. congruence.
Qed.


(** ** C7 *)

(** One group whose first two weights, divided by the scale [2^6] of
    the group, are [128] and [-129]. *)
Definition wrapping_weights : list Q := 8192%Q :: (-8256)%Q :: repeat 0%Q 14.

(** C7 fails on the code.  The codec converts the rounded quotient to
    [int8_t] before it clamps: for the weights 8192 and -8256 of a group
    of scale 3 the quotients are 128 and -129, whose clamped values are 7
    and -8, and the nibbles the codec packs (byte [0x78]) are -8 and 7. *)
Theorem quantize_mxint4_wraps_before_clamp :
  quantize_mxint4 floor_log2f wrapping_weights [] [] 1 16
    = Some ([120; 0; 0; 0; 0; 0; 0; 0], [3]) /\
  nibble_signed 120 false = -8 /\ nibble_signed 120 true = 7 /\
  (8192 / inject_Z (2 ^ (2 * 3)) == inject_Z 128)%Q /\
  (-8256 / inject_Z (2 ^ (2 * 3)) == inject_Z (-129))%Q /\
  Z.max (-8) (Z.min 7 128) = 7 /\ Z.max (-8) (Z.min 7 (-129)) = -8.
Proof. repeat split; vm_compute; reflexivity. Qed.

(** ** C6 *)





(** Thirty-two weights, two groups. *)
Definition sample_weights : list Q :=
  map (fun i => ((Z.of_nat i * 7 - 100) # 4)%Q) (seq 0 32).


(** ** C4 *)

(** A group whose largest weight, 15, is clamped to 7 at scale 1. *)
Definition saturating_weights : list Q := inject_Z 15 :: repeat 0%Q 15.

(** C4, as stated, fails: the group of [saturating_weights] gets shift 0,
    its first weight 15 is stored as the nibble 7 and read back as 7, an
    error of 8 against the bound [2^(2*0-1) = 1/2]. *)
Lemma quantization_error_exceeds_bound :
  exists packed scales,
    quantize_mxint4 floor_log2f saturating_weights [] [] 1 16
      = Some (packed, scales) /\
    zget scales 0 = Some 0 /\ zget packed 0 = Some 7 /\
    ~ (Qabs (inject_Z (unpack_dequantize_weight 7 false 0)
             - weight saturating_weights 0)
       <= inject_Z (2 ^ (2 * 0)) / 2)%Q.
Proof.
  eexists. eexists. split; [vm_compute; reflexivity|].
  split; [reflexivity|]. split; [reflexivity|].
  intros H. vm_compute in H. apply H. reflexivity.
Qed.

(** The round trip of every weight through the codec: where the shift of
    its group is at most 2 and its scaled value rounds into [-8 .. 7], the
    dequantized value is within half a scale step of the weight. *)
Definition codec_round_trip (floor_log2 : Q -> Z) (weights_fp32 : list Q)
    (packed0 scales0 : list Z) (K N : Z) : Prop :=
  exists packed scales,
    quantize_mxint4 floor_log2 weights_fp32 packed0 scales0 K N
      = Some (packed, scales) /\
    forall idx, 0 <= idx < K * N ->
      exists shift b,
        zget scales (idx / GROUP_SIZE) = Some shift /\
        zget packed (idx / 2) = Some b /\
        0 <= shift <= 3 /\
        (shift <= 2 ->
         -8 <= fround (weight weights_fp32 idx / inject_Z (2 ^ (2 * shift))) <= 7 ->
         (Qabs (inject_Z (unpack_dequantize_weight b (Z.odd idx) shift)
                - weight weights_fp32 idx)
          <= inject_Z (2 ^ (2 * shift)) / 2)%Q).

Lemma scaled_round_error (w : Q) (s f : Z) :
  (s = 1 \/ s = 4 \/ s = 16) ->
  f = fround (w / inject_Z s) ->
  (Qabs (inject_Z (f * s) - w) <= inject_Z s / 2)%Q.
Proof.
  intros Hs ->. pose proof (fround_error (w / inject_Z s)) as He.
  apply Qabs_Qle_condition in He. apply Qabs_Qle_condition.
  rewrite inject_Z_mult.
  assert (Hw : (w == w / inject_Z s * inject_Z s)%Q).
  { destruct Hs as [-> | [-> | ->]]; field. }
  set (x := (w / inject_Z s)%Q) in *.
  set (f := inject_Z (fround x)) in *. clearbody f. clearbody x.
  rewrite Hw. unfold Qdiv. change (/ 2)%Q with (1 # 2)%Q.
  destruct Hs as [-> | [-> | ->]].
  - change (inject_Z 1) with 1%Q. split; lra.
  - change (inject_Z 4) with 4%Q. split; lra.
  - change (inject_Z 16) with 16%Q. split; lra.
Qed.

(** C4, amended.  On a weight array of [K*N] elements made of whole
    groups, [K], [N] and [K*N] being values of [int]: for every weight
    [w] of a group whose derived shift is at most 2 and whose scaled
    value [w / 2^(2*shift)] rounds into [-8 .. 7] (the clamp does not
    saturate), [|dequantize (quantize w) - w| <= 2^(2*shift - 1)]. *)
Theorem quantize_round_trip_bound floor_log2 weights_fp32 packed0 scales0 K N :
  0 <= K < 2 ^ 31 -> 0 <= N < 2 ^ 31 -> K * N < 2 ^ 31 ->
  Z.of_nat (length weights_fp32) = K * N ->
  (K * N) mod GROUP_SIZE = 0 ->
  codec_round_trip floor_log2 weights_fp32 packed0 scales0 K N.
Proof.
  intros [HK _] [HN _] Hint Hlen Hdiv.
  destruct (quantize_mxint4_total floor_log2 weights_fp32 packed0 scales0 K N
              HK HN Hint Hlen Hdiv)
    as (packed & scales & Hrun & Hlp & Hls & Hsc & Hpk).
  exists packed, scales. split; [exact Hrun|]. intros idx Hidx.
  unfold GROUP_SIZE in *.
  assert (HG : K * N = 16 * (K * N / 16)).
  { pose proof (Z.div_mod (K * N) 16 ltac:(lia)). lia. }
  assert (H2 : K * N / 2 = 8 * (K * N / 16)).
  { symmetry. apply Z.div_unique_exact; lia. }
  assert (Hg : 0 <= idx / 16 < K * N / 16).
  { split; [apply Z.div_pos; lia | apply Z.div_lt_upper_bound; lia]. }
  assert (Hi : 0 <= idx / 2 < K * N / 2).
  { split; [apply Z.div_pos; lia | apply Z.div_lt_upper_bound; lia]. }
  set (sh := shift_of floor_log2 weights_fp32 (idx / 16)).
  pose proof (group_shift_range floor_log2
                (group_max weights_fp32 (idx / 16))) as Hsh.
  fold (shift_of floor_log2 weights_fp32 (idx / 16)) in Hsh. fold sh in Hsh.
  eexists sh, _. split; [apply Hsc; unfold GROUP_SIZE; exact Hg|].
  split; [apply Hpk; exact Hi|]. split; [exact Hsh|].
  intros Hle Hfit.
  set (q0 := quantized floor_log2 weights_fp32 (2 * (idx / 2))).
  set (q1 := quantized floor_log2 weights_fp32 (2 * (idx / 2) + 1)).
  assert (R0 : -8 <= q0 <= 7) by apply clamp4_range.
  assert (R1 : -8 <= q1 <= 7) by apply clamp4_range.
  destruct (pack_nibbles_fields q0 q1 R0 R1) as (F0 & F1 & F2).
  rewrite unpack_dequantize_weight_exact;
    [| exact F2 | lia | rewrite Z.mod_small by lia; exact Hle].
  unfold weight_value. rewrite Z.mod_small by lia.
  assert (Hq : nibble_signed (pack_nibbles q0 q1) (Z.odd idx)
               = quantized floor_log2 weights_fp32 idx).
  { pose proof (Z.div_mod idx 2 ltac:(lia)) as Hdm.
    rewrite Zmod_odd in Hdm. destruct (Z.odd idx).
    - rewrite F1. unfold q1. f_equal. lia.
    - rewrite F0. unfold q0. f_equal. lia. }
  rewrite Hq. unfold quantized, quantize_weight, scale_of, GROUP_SIZE. fold sh.
  replace (sh * 2) with (2 * sh) by lia.
  rewrite wrap8_id by (unfold is_int8; lia). rewrite clamp4_id by exact Hfit.
  apply scaled_round_error; [|reflexivity].
  assert (sh = 0 \/ sh = 1 \/ sh = 2) as [-> | [-> | ->]] by lia; cbn; auto.
Qed.

Lemma quantize_round_trip_bound_witness :
  codec_round_trip floor_log2f sample_weights [] [] 2 16.
Proof.
  apply quantize_round_trip_bound;
    [lia | lia | reflexivity | reflexivity | reflexivity].
Defined.

(** * Further properties of the code *)

(** ** The dequantization primitive *)

Lemma nibble_signed_range b u : is_uint8 b -> -8 <= nibble_signed b u <= 7.
Proof.
  unfold is_uint8, nibble_signed, nibble_field. intros Hb.
  pose proof (Z.mod_pos_bound b 16 ltac:(lia)) as Hlo.
  assert (Hhi : 0 <= b / 16 < 16).
  { split; [apply Z.div_pos; lia | apply Z.div_lt_upper_bound; lia]. }
  destruct u.
  - destruct (Z.ltb_spec (b / 16) 8); lia.
  - destruct (Z.ltb_spec (b mod 16) 8); lia.
Qed.

(** The primitive returns the weight that nibble and scale stand for
    exactly when the two low bits of the scale are below 3 or the nibble
    is one of [-2 .. 1]; everywhere else the 8-bit result has lost the
    high bits of the shifted nibble. *)
Theorem unpack_dequantize_weight_exact_iff b u s :
  is_uint8 b -> 0 <= s ->
  (unpack_dequantize_weight b u s = weight_value b u s <->
   s mod 4 <= 2 \/ -2 <= nibble_signed b u <= 1).
Proof.
  intros Hb Hs. rewrite unpack_dequantize_weight_wrap by assumption.
  pose proof (nibble_signed_range b u Hb) as Hv.
  pose proof (Z.mod_pos_bound s 4 ltac:(lia)) as Hs4.
  assert (Hfit : is_int8 (weight_value b u s) <->
                 s mod 4 <= 2 \/ -2 <= nibble_signed b u <= 1).
  { unfold weight_value, is_int8.
    assert (s mod 4 = 0 \/ s mod 4 = 1 \/ s mod 4 = 2 \/ s mod 4 = 3)
      as [-> | [-> | [-> | ->]]] by lia; cbn; lia. }
  rewrite <- Hfit. split.
  - intros <-. apply wrap8_range.
  - apply wrap8_id.
Qed.

Lemma unpack_dequantize_weight_exact_iff_witness :
  unpack_dequantize_weight 156 true 7 = weight_value 156 true 7 <->
  7 mod 4 <= 2 \/ -2 <= nibble_signed 156 true <= 1.
Proof.
  apply unpack_dequantize_weight_exact_iff; unfold is_uint8; lia.
Defined.

(** The two weights of a byte are decoded independently of each other,
    and only the two low bits of the scale byte count. *)
Theorem unpack_dequantize_weight_selected_nibble lo hi hi' s s' :
  0 <= lo < 16 -> 0 <= hi < 16 -> 0 <= hi' < 16 ->
  0 <= s -> 0 <= s' -> s mod 4 = s' mod 4 ->
  unpack_dequantize_weight (16 * hi + lo) false s
    = unpack_dequantize_weight (16 * hi' + lo) false s' /\
  unpack_dequantize_weight (16 * lo + hi) true s
    = unpack_dequantize_weight (16 * lo + hi') true s'.
Proof.
  intros Hlo Hhi Hhi' Hs Hs' Hss.
  rewrite !unpack_dequantize_weight_wrap by (unfold is_uint8; lia).
  unfold weight_value, nibble_signed, nibble_field. rewrite Hss.
  assert (E1 : (16 * hi + lo) mod 16 = lo).
  { rewrite Z.add_comm, Z.mul_comm, Z.mod_add by lia. apply Z.mod_small. lia. }
  assert (E2 : (16 * hi' + lo) mod 16 = lo).
  { rewrite Z.add_comm, Z.mul_comm, Z.mod_add by lia. apply Z.mod_small. lia. }
  assert (E3 : (16 * lo + hi) / 16 = lo).
  { symmetry. apply (Z.div_unique _ _ _ hi); lia. }
  assert (E4 : (16 * lo + hi') / 16 = lo).
  { symmetry. apply (Z.div_unique _ _ _ hi'); lia. }
  rewrite E1, E2, E3, E4. split; reflexivity.
Qed.

Lemma unpack_dequantize_weight_selected_nibble_witness :
  unpack_dequantize_weight (16 * 3 + 9) false 1
    = unpack_dequantize_weight (16 * 12 + 9) false 253 /\
  unpack_dequantize_weight (16 * 9 + 3) true 1
    = unpack_dequantize_weight (16 * 9 + 12) true 253.
Proof.
  apply unpack_dequantize_weight_selected_nibble; try lia. reflexivity.
Defined.

(** Packing and unpacking: a byte packed by the codec from two 4-bit
    values decodes, at a scale whose two low bits are below 3, to these
    values times the scale. *)
Theorem pack_unpack_round_trip w0 w1 s :
  -8 <= w0 <= 7 -> -8 <= w1 <= 7 -> 0 <= s -> s mod 4 <= 2 ->
  unpack_dequantize_weight (pack_nibbles w0 w1) false s
    = w0 * 2 ^ (2 * (s mod 4)) /\
  unpack_dequantize_weight (pack_nibbles w0 w1) true s
    = w1 * 2 ^ (2 * (s mod 4)).
Proof.
  intros H0 H1 Hs Hm.
  destruct (pack_nibbles_fields w0 w1 H0 H1) as (F0 & F1 & F2).
  rewrite !unpack_dequantize_weight_exact by assumption.
  unfold weight_value. rewrite F0, F1. split; reflexivity.
Qed.

Lemma pack_unpack_round_trip_witness :
  unpack_dequantize_weight (pack_nibbles (-5) 7) false 2
    = -5 * 2 ^ (2 * (2 mod 4)) /\
  unpack_dequantize_weight (pack_nibbles (-5) 7) true 2
    = 7 * 2 ^ (2 * (2 mod 4)).
Proof.
  apply pack_unpack_round_trip; [lia | lia | lia | apply Z.leb_le; reflexivity].
Defined.

(** ** The compute engine *)

Lemma for_loop_fault {S} n lo (body : Z -> S -> option S) s i :
  lo <= i < lo + Z.of_nat n -> (forall t, body i t = None) ->
  for_loop n lo 1 body s = None.
Proof.
  intros Hi Hfault. revert lo s Hi.
  induction n as [|n IH]; intros lo s Hi; [lia|].
  cbn [for_loop]. destruct (Z.eq_dec i lo) as [->|Hne].
  - rewrite Hfault. reflexivity.
  - destruct (body lo s) as [t|]; [|reflexivity].
    cbn [mbind option_bind]. apply IH. lia.
Qed.

(** A loop one of whose iterations faults in every state faults. *)
Lemma for_range_fault {S} lo hi (body : Z -> S -> option S) s i :
  lo <= i < hi -> (forall t, body i t = None) ->
  for_range lo hi body s = None.
Proof.
  intros Hi Hfault. unfold for_range.
  apply (for_loop_fault _ _ _ _ i); [lia | exact Hfault].
Qed.

Lemma load_act_step_beyond_depth activations K t :
  K_DIM < K -> load_act_step activations K 0 K_DIM t = None.
Proof.
  intros HK. unfold load_act_step, K_DIM in *.
  rewrite Z.quot_small, Z.rem_small by lia.
  destruct (zget activations ((0 * PE_ROWS + 0) * K + 4096)); reflexivity.
Qed.

Lemma load_act_step_beyond_tiles activations K t :
  1 <= K -> load_act_step activations K 8 0 t = None.
Proof.
  intros HK. unfold load_act_step.
  rewrite Z.quot_small, Z.rem_small by lia.
  destruct (zget activations ((8 * PE_ROWS + 0) * K + 0)); reflexivity.
Qed.

Lemma load_wgt_step_beyond_tiles weights_packed scales K N t :
  1 <= K -> load_wgt_step weights_packed scales K N 32 0 t = None.
Proof.
  intros HK. unfold load_wgt_step.
  rewrite Z.quot_small, Z.rem_small by lia.
  destruct (zget weights_packed (Z.quot (0 * N + (32 * PE_COLS + 0)) 2));
    [|reflexivity].
  destruct (zget scales (Z.quot (0 * N + (32 * PE_COLS + 0)) GROUP_SIZE));
    reflexivity.
Qed.

Lemma quot_tiles_ge M c : 0 <= c -> c * 16 <= M -> c <= Z.quot M 16.
Proof.
  intros Hc HM. rewrite Z.quot_div_nonneg by lia.
  apply Z.div_le_lower_bound; lia.
Qed.

(** The static caches bound what the engine can be given: with a
    reduction depth above [K_DIM] (and at least one tile row), more than
    eight tile rows or more than thirty-two tile columns, no run of the
    engine returns.  Whatever the buffers and the static arrays hold, the
    run ends in an access outside a buffer or outside the declared
    bounds of a static array. *)
Theorem engine_beyond_capacity_faults
    activations weights_packed scales M K N s :
  (K_DIM < K /\ PE_ROWS <= M) \/
  (1 <= K /\ M_DIM + PE_ROWS <= M) \/
  (1 <= K /\ N_DIM + PE_COLS <= N) ->
  SystolicArrayKernel activations weights_packed scales M K N s = None.
Proof.
  unfold K_DIM, M_DIM, N_DIM, PE_ROWS, PE_COLS.
  intros [[HK HM] | [[HK HM] | [HK HN]]]; unfold SystolicArrayKernel.
  - assert (Hact : load_all_act activations K (Z.quot M PE_ROWS) s = None).
    { apply (for_range_fault _ _ _ _ 0).
      - pose proof (quot_tiles_ge M 1 ltac:(lia) ltac:(lia)). unfold PE_ROWS. lia.
      - intros t. apply (for_range_fault _ _ _ _ K_DIM).
        + unfold PE_ROWS, K_DIM. lia.
        + intros u. apply load_act_step_beyond_depth. unfold K_DIM. lia. }
    rewrite Hact. reflexivity.
  - assert (Hact : load_all_act activations K (Z.quot M PE_ROWS) s = None).
    { apply (for_range_fault _ _ _ _ 8).
      - pose proof (quot_tiles_ge M 9 ltac:(lia) ltac:(lia)). unfold PE_ROWS. lia.
      - intros t. apply (for_range_fault _ _ _ _ 0).
        + unfold PE_ROWS. lia.
        + intros u. apply load_act_step_beyond_tiles. lia. }
    rewrite Hact. reflexivity.
  - destruct (load_all_act activations K (Z.quot M PE_ROWS) s) as [s1|];
      [|reflexivity].
    cbn [mbind option_bind].
    assert (Hwgt : load_all_wgt weights_packed scales K N (Z.quot N PE_COLS) s1
                   = None).
    { apply (for_range_fault _ _ _ _ 32).
      - pose proof (quot_tiles_ge N 33 ltac:(lia) ltac:(lia)). unfold PE_COLS. lia.
      - intros t. apply (for_range_fault _ _ _ _ 0).
        + unfold PE_COLS. lia.
        + intros u. apply load_wgt_step_beyond_tiles. lia. }
    rewrite Hwgt. reflexivity.
Qed.

Lemma engine_beyond_capacity_faults_witness :
  SystolicArrayKernel (replicate (Z.to_nat (16 * 4097)) 1)
    (replicate (Z.to_nat (4097 * 16 / 2)) 0)
    (replicate (Z.to_nat (4097 * 16 / 16)) 0)
    16 4097 16 (sample_state 0 (replicate 256 0)) = None.
Proof.
  apply engine_beyond_capacity_faults. left. unfold K_DIM, PE_ROWS. lia.
Defined.

(** Invoking the engine again on the state the first invocation left
    behind (caches, working buffers and output buffer) gives the output
    of the first invocation. *)
Theorem engine_rerun_same_output activations weights_packed scales M K N s :
  option_map result
    (s1 ← SystolicArrayKernel activations weights_packed scales M K N s;
     SystolicArrayKernel activations weights_packed scales M K N s1)
  = option_map result
      (SystolicArrayKernel activations weights_packed scales M K N s).
Proof.
  destruct (SystolicArrayKernel activations weights_packed scales M K N s)
    as [s1|] eqn:E1; [|reflexivity].
  cbn [mbind option_bind].
  pose proof (SystolicArrayKernel_partial _ _ _ _ _ _ _ _ E1) as (L1 & In1 & Out1).
  pose proof (agree_SystolicArrayKernel activations weights_packed scales
                M K N s s1) as Hag.
  unfold same_shape in Hag. specialize (Hag ltac:(symmetry; exact L1)).
  rewrite E1 in Hag. unfold both in Hag.
  destruct (SystolicArrayKernel activations weights_packed scales M K N s1)
    as [s2|] eqn:E2; [|contradiction].
  cbn [option_map]. f_equal.
  apply SystolicArrayKernel_partial in E2 as (L2 & In2 & Out2).
  apply zget_ext. intros p Hp.
  destruct (kernel_covers_dec M N p) as [(m & n & Hc & ->)|Hnc].
  - destruct (In1 m n Hc) as [-> _]. destruct (In2 m n Hc) as [-> _].
    reflexivity.
  - destruct (Out2 p Hnc) as [-> _]. reflexivity.
Qed.

(** With [K = 0] there is nothing to sum: engine and reference model
    both return the zero matrix. *)
Theorem empty_reduction_gives_zeros M N s out :
  0 <= M <= M_DIM -> 0 <= N <= N_DIM ->
  M mod PE_ROWS = 0 -> N mod PE_COLS = 0 ->
  Z.of_nat (length (result s)) = M * N ->
  exists s',
    SystolicArrayKernel [] [] [] M 0 N s = Some s' /\
    result s' = replicate (Z.to_nat (M * N)) 0 /\
    cpu_reference [] [] [] M 0 N out = Some (replicate (Z.to_nat (M * N)) 0).
Proof.
  intros HM HN HMd HNd Hlen.
  assert (HK : 0 <= 0 <= K_DIM) by (unfold K_DIM; lia).
  assert (Ha : Z.of_nat (length (@nil Z)) = M * 0) by (cbn; lia).
  assert (Hw : Z.of_nat (length (@nil Z)) = 0 * N / 2) by reflexivity.
  assert (Hs : Z.of_nat (length (@nil Z)) = 0 * N / GROUP_SIZE) by reflexivity.
  destruct (SystolicArrayKernel_total [] [] [] M 0 N HM HK HN HNd
              Ha Hw Hs s Hlen) as [s' Hrun].
  exists s'. split; [exact Hrun|].
  apply SystolicArrayKernel_partial in Hrun as (L & Hin & _).
  unfold M_DIM, N_DIM, PE_ROWS, PE_COLS in *.
  assert (Hzeros : forall (l : list Z),
            Z.of_nat (length l) = M * N ->
            (forall m n, 0 <= m < M -> 0 <= n < N -> zget l (m * N + n) = Some 0) ->
            l = replicate (Z.to_nat (M * N)) 0).
  { intros l Hl Hcell. apply zget_ext. intros p Hp.
    destruct (Z_lt_le_dec p (M * N)) as [Hlt|Hge].
    - assert (HNpos : 0 < N) by nia.
      pose proof (Z.div_mod p N ltac:(lia)) as Hdm.
      pose proof (Z.mod_pos_bound p N HNpos) as Hr.
      assert (Hq : 0 <= p / N < M).
      { split; [apply Z.div_pos; lia | apply Z.div_lt_upper_bound; lia]. }
      replace p with (p / N * N + p mod N) at 1 by lia.
      rewrite Hcell by lia. symmetry. apply zget_Some. split; [lia|].
      apply lookup_replicate_2. lia.
    - rewrite !zget_None; [reflexivity | rewrite length_replicate; lia | lia]. }
  split.
  - apply Hzeros; [lia|]. intros m n Hm Hn.
    destruct (Hin m n) as [-> _]; [|reflexivity].
    unfold kernel_covers, PE_ROWS, PE_COLS. rewrite !full_tiles by lia. lia.
  - destruct (cpu_reference_total [] [] [] M 0 N) with (out := out)
      as (out' & Href & Hlo & Hout).
    { split; [unfold valid_dims, M_DIM, K_DIM, N_DIM, PE_ROWS, PE_COLS;
              repeat split; try lia; reflexivity|].
      unfold valid_buffers. cbn [length]. rewrite !Z.mul_0_l, Z.mul_0_r.
      repeat split; try reflexivity; constructor. }
    rewrite Href. f_equal. apply Hzeros; [exact Hlo|].
    intros m n Hm Hn. rewrite Hout by assumption. reflexivity.
Qed.

Lemma empty_reduction_gives_zeros_witness :
  exists s',
    SystolicArrayKernel [] [] [] 32 0 16 (sample_state 4 (replicate 512 9))
      = Some s' /\
    result s' = replicate (Z.to_nat (32 * 16)) 0 /\
    cpu_reference [] [] [] 32 0 16 [7; 7] = Some (replicate (Z.to_nat (32 * 16)) 0).
Proof.
  apply empty_reduction_gives_zeros;
    try (unfold M_DIM, N_DIM; lia); reflexivity.
Defined.

Lemma write_output_keeps_caches N mt nt s s' :
  for_range 0 (PE_ROWS * PE_COLS) (write_step N mt nt) s = Some s' ->
  A_cache s' = A_cache s /\ W_cache s' = W_cache s.
Proof.
  apply (for_range_partial
    (fun _ st => A_cache st = A_cache s /\ W_cache st = W_cache s)).
  - unfold PE_ROWS, PE_COLS. lia.
  - split; reflexivity.
  - intros idx t t' _ [H1 H2] Hstep. unfold write_step in Hstep.
    apply bind_Some in Hstep as (c & _ & Hstep).
    apply set_result_Some in Hstep as (r & _ & ->). split; assumption.
Qed.

Lemma compute_tile_keeps_caches K N mt nt s s' :
  compute_tile K N mt nt s = Some s' ->
  A_cache s' = A_cache s /\ W_cache s' = W_cache s.
Proof.
  intros Hrun. unfold compute_tile in Hrun.
  apply bind_Some in Hrun as (s1 & H1 & Hrun).
  apply bind_Some in Hrun as (s2 & H2 & Hrun).
  apply bind_Some in Hrun as (s3 & H3 & Hrun).
  apply copy_to_work_partial in H1 as (A1 & A2 & _).
  apply init_output_partial in H2 as [(B1 & B2 & _) Hz].
  apply compute_partial in H3 as [(C1 & C2 & _) _]; [|exact Hz].
  apply write_output_keeps_caches in Hrun as [D1 D2].
  split; congruence.
Qed.

(** The accumulation phase reads the caches and never writes them. *)
Lemma compute_all_keeps_caches K N NMT NNT s s' :
  compute_all K N NMT NNT s = Some s' ->
  A_cache s' = A_cache s /\ W_cache s' = W_cache s.
Proof.
  intros Hrun. unfold compute_all in Hrun.
  apply (for_range_partial'
    (fun _ st => A_cache st = A_cache s /\ W_cache st = W_cache s)) in Hrun.
  - exact Hrun.
  - split; reflexivity.
  - intros mt t t' _ Ht Hrow.
    apply (for_range_partial'
      (fun _ st => A_cache st = A_cache s /\ W_cache st = W_cache s)) in Hrow.
    + exact Hrow.
    + exact Ht.
    + intros nt u u' _ [U1 U2] Htile.
      apply compute_tile_keeps_caches in Htile as [T1 T2]. split; congruence.
Qed.

(** When the engine returns, its caches hold its two operands, tile by
    tile: row [m] of the activations in tile [m / PE_ROWS], row
    [m mod PE_ROWS], and column [n] of the dequantized weights in tile
    [n / PE_COLS], row [n mod PE_COLS]. *)
Theorem engine_caches_hold_operands
    activations weights_packed scales M K N s :
  0 <= M <= M_DIM -> 0 <= K <= K_DIM -> 0 <= N <= N_DIM ->
  M mod PE_ROWS = 0 -> N mod PE_COLS = 0 ->
  Z.of_nat (length activations) = M * K ->
  Z.of_nat (length weights_packed) = K * N / 2 ->
  Z.of_nat (length scales) = K * N / GROUP_SIZE ->
  Z.of_nat (length (result s)) = M * N ->
  exists s',
    SystolicArrayKernel activations weights_packed scales M K N s = Some s' /\
    (forall m k, 0 <= m < M -> 0 <= k < K ->
       A_cache s' (m / PE_ROWS) (m mod PE_ROWS) k = zat activations (m * K + k)) /\
    (forall n k, 0 <= n < N -> 0 <= k < K ->
       W_cache s' (n / PE_COLS) (n mod PE_COLS) k
         = weight_at weights_packed scales (k * N + n)).
Proof.
  intros HM HK HN HMd HNd Hla Hlw Hls Hlen.
  destruct (SystolicArrayKernel_total activations weights_packed scales M K N
              HM HK HN HNd Hla Hlw Hls s Hlen) as [s' Hrun].
  exists s'. split; [exact Hrun|].
  unfold SystolicArrayKernel in Hrun.
  apply bind_Some in Hrun as (s1 & H1 & Hrun).
  apply bind_Some in Hrun as (s2 & H2 & Hrun).
  apply load_all_act_partial in H1 as (_ & _ & _ & HA).
  apply load_all_wgt_partial in H2 as (EA & _ & _ & HW).
  apply compute_all_keeps_caches in Hrun as [CA CW].
  unfold M_DIM, N_DIM, PE_ROWS, PE_COLS in *.
  rewrite Z.quot_div_nonneg in HA, HW by lia.
  split.
  - intros m k Hm Hk. rewrite CA, EA.
    pose proof (Z.div_mod m 16 ltac:(lia)) as Hdm.
    pose proof (Z.mod_pos_bound m 16 ltac:(lia)) as Hr.
    rewrite HA; [| | lia | lia].
    + unfold kernel_act. f_equal. lia.
    + split; [apply Z.div_pos; lia|].
      apply Z.div_lt_upper_bound; [lia|].
      pose proof (Z.div_mod M 16 ltac:(lia)). lia.
  - intros n k Hn Hk. rewrite CW.
    pose proof (Z.div_mod n 16 ltac:(lia)) as Hdm.
    pose proof (Z.mod_pos_bound n 16 ltac:(lia)) as Hr.
    rewrite HW; [| | lia | lia].
    + replace (n / 16 * 16 + n mod 16) with n by lia.
      apply kernel_wgt_weight_at. nia.
    + split; [apply Z.div_pos; lia|].
      apply Z.div_lt_upper_bound; [lia|].
      pose proof (Z.div_mod N 16 ltac:(lia)). lia.
Qed.

Lemma engine_caches_hold_operands_witness :
  exists s',
    SystolicArrayKernel sample_act sample_wgt sample_scales 16 16 16
      (sample_state 1 (replicate 256 0)) = Some s' /\
    (forall m k, 0 <= m < 16 -> 0 <= k < 16 ->
       A_cache s' (m / PE_ROWS) (m mod PE_ROWS) k = zat sample_act (m * 16 + k)) /\
    (forall n k, 0 <= n < 16 -> 0 <= k < 16 ->
       W_cache s' (n / PE_COLS) (n mod PE_COLS) k
         = weight_at sample_wgt sample_scales (k * 16 + n)).
Proof.
  apply engine_caches_hold_operands;
    try (unfold M_DIM, K_DIM, N_DIM; lia); reflexivity.
Defined.

(** ** The reference model *)

(** Two row-major [M x N] buffers with the same elements are equal. *)
Lemma matrix_ext (l1 l2 : list Z) M N :
  0 <= M -> 0 <= N ->
  Z.of_nat (length l1) = M * N -> Z.of_nat (length l2) = M * N ->
  (forall m n, 0 <= m < M -> 0 <= n < N ->
     zget l1 (m * N + n) = zget l2 (m * N + n)) ->
  l1 = l2.
Proof.
  intros HM HN H1 H2 Hcell. apply zget_ext. intros p Hp.
  destruct (Z_lt_le_dec p (M * N)) as [Hlt|Hge].
  - assert (HNpos : 0 < N) by nia.
    pose proof (Z.div_mod p N ltac:(lia)) as Hdm.
    pose proof (Z.mod_pos_bound p N HNpos) as Hr.
    assert (Hq : 0 <= p / N < M).
    { split; [apply Z.div_pos; lia | apply Z.div_lt_upper_bound; lia]. }
    replace p with (p / N * N + p mod N) by lia. apply Hcell; lia.
  - rewrite !zget_None by lia. reflexivity.
Qed.

(** The reference model resizes and overwrites its output vector: what
    the vector held before the call has no influence on the result. *)
Theorem cpu_reference_overwrites_out act wgt_packed scales M K N out1 out2 :
  valid_input act wgt_packed scales M K N ->
  cpu_reference act wgt_packed scales M K N out1
    = cpu_reference act wgt_packed scales M K N out2.
Proof.
  intros Hv. pose proof Hv as [(HM & _ & HN & _) _].
  destruct (cpu_reference_total act wgt_packed scales M K N Hv out1)
    as (o1 & E1 & L1 & C1).
  destruct (cpu_reference_total act wgt_packed scales M K N Hv out2)
    as (o2 & E2 & L2 & C2).
  rewrite E1, E2. f_equal.
  apply (matrix_ext o1 o2 M N); try lia.
  intros m n Hm Hn. rewrite C1, C2 by assumption. reflexivity.
Qed.

Lemma cpu_reference_overwrites_out_witness :
  cpu_reference sample_act sample_wgt sample_scales 16 16 16 []
    = cpu_reference sample_act sample_wgt sample_scales 16 16 16
        (replicate 300 (-1)).
Proof.
  apply cpu_reference_overwrites_out.
  apply valid_inputb_sound. vm_compute. reflexivity.
Defined.

(** The engine against the reference model, as a lemma of its own. *)
Lemma kernel_matches_reference act wgt_packed scales M K N s out :
  valid_input act wgt_packed scales M K N ->
  Z.of_nat (length (result s)) = M * N ->
  exists s' out',
    SystolicArrayKernel act wgt_packed scales M K N s = Some s' /\
    cpu_reference act wgt_packed scales M K N out = Some out' /\
    result s' = out'.
Proof.
  intros Hv Hlen.
  pose proof Hv as [(HM & HK & HN & HMd & HKd & HNd)
                    (Hla & Hlw & Hls & Hta & Htw & Hts)].
  destruct (SystolicArrayKernel_total act wgt_packed scales M K N
              HM HK HN HNd Hla Hlw Hls s Hlen) as [s' Hrun].
  destruct (cpu_reference_total act wgt_packed scales M K N Hv out)
    as (out' & Href & Hlo & Hout).
  exists s', out'. split; [exact Hrun|]. split; [exact Href|].
  apply SystolicArrayKernel_partial in Hrun as (L & Hin & _).
  unfold M_DIM, N_DIM, PE_ROWS, PE_COLS in *.
  apply (matrix_ext _ _ M N); try lia.
  intros m n Hm Hn. rewrite Hout by assumption.
  destruct (Hin m n) as [-> _].
  { unfold kernel_covers, PE_ROWS, PE_COLS. rewrite !full_tiles by lia. lia. }
  f_equal. apply kernel_cell_exact; [exact HK | lia | lia | exact Hta].
Qed.

(** ** The quantization codec *)

Lemma Forall_zget (P : Z -> Prop) (l : list Z) :
  (forall i v, zget l i = Some v -> P v) -> Forall P l.
Proof.
  intros H. apply Forall_lookup. intros i v Hv.
  apply (H (Z.of_nat i)). rewrite zget_of_nat. exact Hv.
Qed.

Lemma quantize_mxint4_valid_input
    floor_log2 weights_fp32 packed0 scales0 act M K N :
  valid_dims M K N ->
  Z.of_nat (length weights_fp32) = K * N ->
  Z.of_nat (length act) = M * K -> Forall is_int8 act ->
  exists packed scales,
    quantize_mxint4 floor_log2 weights_fp32 packed0 scales0 K N
      = Some (packed, scales) /\
    Forall (fun v => 0 <= v <= 3) scales /\
    valid_input act packed scales M K N.
Proof.
  intros Hd Hlen Hla Hta.
  pose proof Hd as (HM & HK & HN & HMd & HKd & HNd).
  assert (Hdiv : (K * N) mod GROUP_SIZE = 0).
  { unfold GROUP_SIZE, PE_COLS in *.
    pose proof (Z.div_mod N 16 ltac:(lia)) as HNq.
    replace (K * N) with (K * (N / 16) * 16) by lia.
    apply Z.mod_mul. lia. }
  assert (Hint : K * N < 2 ^ 31).
  { unfold K_DIM, N_DIM in *.
    assert (K * N <= 4096 * 512) by (apply Z.mul_le_mono_nonneg; lia). lia. }
  destruct (quantize_mxint4_total floor_log2 weights_fp32 packed0 scales0 K N
              ltac:(lia) ltac:(lia) Hint Hlen Hdiv)
    as (packed & scales & Hrun & Hlp & Hls & Hsc & Hpk).
  exists packed, scales. split; [exact Hrun|].
  assert (Hscales : Forall (fun v => 0 <= v <= 3) scales).
  { apply Forall_zget. intros g v Hv. pose proof (zget_lt _ _ _ Hv) as Hg.
    rewrite Hsc in Hv by lia. injection Hv as <-. apply group_shift_range. }
  split; [exact Hscales|]. split; [exact Hd|].
  split; [exact Hla|]. split; [exact Hlp|]. split; [exact Hls|].
  split; [exact Hta|]. split.
  - apply Forall_zget. intros i v Hv. pose proof (zget_lt _ _ _ Hv) as Hi.
    rewrite Hpk in Hv by lia. injection Hv as <-.
    apply pack_nibbles_fields; apply clamp4_range.
  - eapply Forall_impl; [exact Hscales|]. unfold is_uint8. intros v Hv. cbv beta in Hv. lia.
Qed.

(** The buffers the codec returns are what the engine and the reference
    model expect: every packed element is a byte and every scale is one
    of [0 .. 3], so that with int8 activations of length [M*K] the codec
    output is a valid input. *)
Theorem codec_output_is_valid_input
    floor_log2 weights_fp32 packed0 scales0 act M K N :
  valid_dims M K N ->
  Z.of_nat (length weights_fp32) = K * N ->
  Z.of_nat (length act) = M * K -> Forall is_int8 act ->
  exists packed scales,
    quantize_mxint4 floor_log2 weights_fp32 packed0 scales0 K N
      = Some (packed, scales) /\
    Forall (fun v => 0 <= v <= 3) scales /\
    valid_input act packed scales M K N.
Proof. apply quantize_mxint4_valid_input. Qed.

(** A [16 x 16] weight matrix with magnitudes up to 96. *)
Definition sample_weight_matrix : list Q :=
  map (fun i => ((Z.of_nat i * 5 - 600) # 8)%Q) (seq 0 256).

Lemma codec_output_is_valid_input_witness :
  exists packed scales,
    quantize_mxint4 floor_log2f sample_weight_matrix [] [] 16 16
      = Some (packed, scales) /\
    Forall (fun v => 0 <= v <= 3) scales /\
    valid_input sample_act packed scales 16 16 16.
Proof.
  apply codec_output_is_valid_input.
  - unfold valid_dims, M_DIM, K_DIM, N_DIM, PE_ROWS, PE_COLS.
    repeat split; try lia; reflexivity.
  - reflexivity.
  - reflexivity.
  - apply all_between_Forall. vm_compute. reflexivity.
Defined.

(** Codec, engine and reference model composed: on the codec's output
    for any weight array, the engine and the reference model return the
    same output matrix. *)
Theorem engine_matches_reference_on_codec_output
    floor_log2 weights_fp32 packed0 scales0 act M K N s out :
  valid_dims M K N ->
  Z.of_nat (length weights_fp32) = K * N ->
  Z.of_nat (length act) = M * K -> Forall is_int8 act ->
  Z.of_nat (length (result s)) = M * N ->
  exists packed scales s' out',
    quantize_mxint4 floor_log2 weights_fp32 packed0 scales0 K N
      = Some (packed, scales) /\
    SystolicArrayKernel act packed scales M K N s = Some s' /\
    cpu_reference act packed scales M K N out = Some out' /\
    result s' = out'.
Proof.
  intros Hd Hlen Hla Hta Hres.
  destruct (quantize_mxint4_valid_input floor_log2 weights_fp32 packed0 scales0
              act M K N Hd Hlen Hla Hta) as (packed & scales & Hrun & _ & Hv).
  destruct (kernel_matches_reference act packed scales M K N s out Hv Hres)
    as (s' & out' & H1 & H2 & H3).
  exists packed, scales, s', out'. auto.
Qed.

Lemma engine_matches_reference_on_codec_output_witness :
  exists packed scales s' out',
    quantize_mxint4 floor_log2f sample_weight_matrix [] [] 16 16
      = Some (packed, scales) /\
    SystolicArrayKernel sample_act packed scales 16 16 16
      (sample_state 2 (replicate 256 0)) = Some s' /\
    cpu_reference sample_act packed scales 16 16 16 [] = Some out' /\
    result s' = out'.
Proof.
  apply engine_matches_reference_on_codec_output.
  - unfold valid_dims, M_DIM, K_DIM, N_DIM, PE_ROWS, PE_COLS.
    repeat split; try lia; reflexivity.
  - reflexivity.
  - reflexivity.
  - apply all_between_Forall. vm_compute. reflexivity.
  - reflexivity.
Defined.

(** The codec resizes and overwrites both output vectors: what they held
    before the call has no influence on the result. *)
Theorem quantize_mxint4_overwrites_outputs
    floor_log2 weights_fp32 packed1 scales1 packed2 scales2 K N :
  0 <= K -> 0 <= N ->
  Z.of_nat (length weights_fp32) = K * N ->
  (K * N) mod GROUP_SIZE = 0 ->
  quantize_mxint4 floor_log2 weights_fp32 packed1 scales1 K N
    = quantize_mxint4 floor_log2 weights_fp32 packed2 scales2 K N.
Proof.
  intros HK HN Hlen Hdiv. unfold GROUP_SIZE in Hdiv.
  assert (HT : 0 <= K * N) by nia.
  assert (Hle : wrap32 (K * N) <= K * N).
  { unfold wrap32. pose proof (Z.mod_le (K * N + 2 ^ 31) (2 ^ 32)). lia. }
  assert (Hm : wrap32 (K * N) mod 16 = 0).
  { unfold wrap32.
    pose proof (Z.div_mod (K * N + 2 ^ 31) (2 ^ 32) ltac:(lia)) as E.
    replace ((K * N + 2 ^ 31) mod 2 ^ 32 - 2 ^ 31)
      with (K * N + - (268435456 * ((K * N + 2 ^ 31) / 2 ^ 32)) * 16) by lia.
    rewrite Z.mod_add by lia. exact Hdiv. }
  pose proof (Z.div_mod (wrap32 (K * N)) 16 ltac:(lia)) as HG.
  rewrite Hm, Z.add_0_r in HG.
  destruct (Z_lt_le_dec (wrap32 (K * N)) 0) as [Hneg|Hpos].
  - assert (Hq : (Z.quot (wrap32 (K * N)) 2 <? 0) = true).
    { apply Z.ltb_lt.
      pose proof (Z.quot_rem' (wrap32 (K * N)) 2) as E.
      pose proof (Z.rem_bound_abs (wrap32 (K * N)) 2 ltac:(lia)).
      lia. }
    unfold quantize_mxint4, vresize. rewrite Hq. reflexivity.
  - destruct (quantize_mxint4_count floor_log2 weights_fp32 packed1 scales1 K N
                (wrap32 (K * N) / 16) ltac:(lia) HG ltac:(lia))
      as (p1 & s1 & E1 & Lp1 & Ls1 & Hs1 & Hp1).
    destruct (quantize_mxint4_count floor_log2 weights_fp32 packed2 scales2 K N
                (wrap32 (K * N) / 16) ltac:(lia) HG ltac:(lia))
      as (p2 & s2 & E2 & Lp2 & Ls2 & Hs2 & Hp2).
    rewrite E1, E2. do 2 f_equal.
    + apply zget_ext. intros i Hi.
      destruct (Z_lt_le_dec i (8 * (wrap32 (K * N) / 16))) as [Hlt|Hge].
      * rewrite Hp1, Hp2 by lia. reflexivity.
      * rewrite !zget_None by lia. reflexivity.
    + apply zget_ext. intros g Hg.
      destruct (Z_lt_le_dec g (wrap32 (K * N) / 16)) as [Hlt|Hge].
      * rewrite Hs1, Hs2 by lia. reflexivity.
      * rewrite !zget_None by lia. reflexivity.
Qed.

Lemma quantize_mxint4_overwrites_outputs_witness :
  quantize_mxint4 floor_log2f sample_weights [] [] 2 16
    = quantize_mxint4 floor_log2f sample_weights
        (replicate 40 255) [9; 9; 9] 2 16.
Proof.
  apply quantize_mxint4_overwrites_outputs;
    [lia | lia | reflexivity | reflexivity].
Defined.

Lemma zget_resize_new (l : list Z) n i :
  Z.of_nat (length l) <= i < Z.of_nat n -> zget (resize n 0 l) i = Some 0.
Proof.
  intros Hi. apply zget_Some. split; [lia|]. apply lookup_resize_new; lia.
Qed.

Lemma zget_resize_old (l : list Z) n i :
  0 <= i < Z.of_nat n -> i < Z.of_nat (length l) ->
  zget (resize n 0 l) i = zget l i.
Proof.
  intros Hi Hl. unfold zget. destruct (Z.ltb_spec i 0); [lia|].
  apply lookup_resize; lia.
Qed.

(** The codec on a weight array of any length: it works on the whole
    groups only, so the packed bytes after the last whole group stay as
    the resized vector has them. *)
Lemma quantize_mxint4_tail floor_log2 weights_fp32 packed0 scales0 K N :
  0 <= K -> 0 <= N -> K * N < 2 ^ 31 ->
  Z.of_nat (length weights_fp32) = K * N ->
  exists packed scales,
    quantize_mxint4 floor_log2 weights_fp32 packed0 scales0 K N
      = Some (packed, scales) /\
    forall p, K * N / GROUP_SIZE * 8 <= p ->
      zget packed p = zget (resize (Z.to_nat (K * N / 2)) 0 packed0) p.
Proof.
  intros HK HN Hint Hlen. unfold GROUP_SIZE in *.
  assert (HT : 0 <= K * N) by nia.
  set (T := K * N) in *. set (G := T / 16).
  assert (HG : 0 <= G /\ G * 16 <= T).
  { unfold G. split; [apply Z.div_pos; lia|].
    pose proof (Z.mul_div_le T 16 ltac:(lia)). lia. }
  assert (H2 : G * 8 <= T / 2).
  { apply Z.div_le_lower_bound; lia. }
  unfold quantize_mxint4. fold T. unfold GROUP_SIZE.
  rewrite wrap32_id by (unfold is_int32; lia).
  rewrite !Z.quot_div_nonneg by lia. fold G.
  rewrite !vresize_Some by (try apply Z.div_pos; lia).
  cbn [mbind option_bind].
  set (pk0 := resize (Z.to_nat (T / 2)) 0 packed0).
  destruct (for_range_total
    (fun g (st : list Z * list Z) =>
       length (fst st) = length pk0 /\
       Z.of_nat (length (snd st)) = G /\
       (forall p, g * 8 <= p -> zget (fst st) p = zget pk0 p))
    0 G (quantize_group floor_log2 weights_fp32)
    (pk0, resize (Z.to_nat G) 0 scales0))
    as ([pk sc] & Hrun & Hlp & Hls & Htail).
  - lia.
  - cbn [fst snd]. rewrite length_resize. split; [reflexivity|].
    split; [lia | reflexivity].
  - intros g [pk sc] Hg (Hlp & Hls & Htail). cbn [fst snd] in *.
    assert (Hlpk : Z.of_nat (length pk) = T / 2).
    { rewrite Hlp. unfold pk0. rewrite length_resize.
      pose proof (Z.div_pos T 2 ltac:(lia) ltac:(lia)). lia. }
    destruct (quantize_group_total floor_log2 weights_fp32 g pk sc) as
      (pk' & sc' & Hrun & L1 & L2 & _ & _ & _ & P2);
      [lia | unfold GROUP_SIZE; lia | lia | lia |].
    exists (pk', sc'). split; [exact Hrun|]. cbn [fst snd].
    split; [congruence|]. split; [lia|].
    intros p Hp. rewrite P2 by lia. apply Htail. lia.
  - cbn [fst snd] in *. exists pk, sc. split; [exact Hrun | exact Htail].
Qed.

(** A weight count (a value of [int], as [K] and [N] are) that is not a
    multiple of [GROUP_SIZE]: the weights after the last whole group are
    not quantized.  Their packed bytes are what the output vector held at
    those indices before the call, and 0 where it was shorter. *)
Theorem quantize_mxint4_skips_partial_group
    floor_log2 weights_fp32 packed0 scales0 K N :
  0 <= K < 2 ^ 31 -> 0 <= N < 2 ^ 31 -> K * N < 2 ^ 31 ->
  Z.of_nat (length weights_fp32) = K * N ->
  exists packed scales,
    quantize_mxint4 floor_log2 weights_fp32 packed0 scales0 K N
      = Some (packed, scales) /\
    forall i, K * N / GROUP_SIZE * (GROUP_SIZE / 2) <= i < K * N / 2 ->
      zget packed i = Some (zat packed0 i).
Proof.
  intros [HK _] [HN _] Hint Hlen.
  destruct (quantize_mxint4_tail floor_log2 weights_fp32 packed0 scales0 K N
              HK HN Hint Hlen) as (packed & scales & Hrun & Htail).
  exists packed, scales. split; [exact Hrun|].
  intros i Hi. change (GROUP_SIZE / 2) with 8 in Hi.
  assert (HG : 0 <= K * N / GROUP_SIZE).
  { apply Z.div_pos; [nia | unfold GROUP_SIZE; lia]. }
  rewrite Htail by lia. unfold zat.
  destruct (Z_lt_le_dec i (Z.of_nat (length packed0))) as [Hold|Hnew].
  - rewrite zget_resize_old by lia.
    destruct (zget_in_range packed0 i ltac:(lia)) as [v ->]. reflexivity.
  - rewrite zget_resize_new by lia. rewrite zget_None by lia. reflexivity.
Qed.

Lemma quantize_mxint4_skips_partial_group_witness :
  exists packed scales,
    quantize_mxint4 floor_log2f
      (map (fun i => inject_Z (Z.of_nat i - 12)) (seq 0 24)) [] [] 1 24
      = Some (packed, scales) /\
    forall i, 1 * 24 / GROUP_SIZE * (GROUP_SIZE / 2) <= i < 1 * 24 / 2 ->
      zget packed i = Some (zat [] i).
Proof.
  apply quantize_mxint4_skips_partial_group;
    [lia | lia | reflexivity | reflexivity].
Defined.

(** [r] is the integer nearest to [x], the one farther from zero when
    [x] lies halfway between two integers: the value of [std::round]. *)
Definition is_rounded (x : Q) (r : Z) : Prop :=
  (Qabs (inject_Z r - x) <= 1 # 2)%Q /\
  ((Qabs (inject_Z r - x) == 1 # 2)%Q -> (Qabs x <= Qabs (inject_Z r))%Q).

Lemma fround_is_rounded x : is_rounded x (fround x).
Proof.
  split; [apply fround_error|].
  unfold fround. destruct (Qle_bool 0 x) eqn:E.
  - apply Qle_bool_iff in E.
    pose proof (Qfloor_le (x + (1 # 2))) as H1.
    pose proof (Qlt_floor (x + (1 # 2))) as H2.
    rewrite inject_Z_plus in H2. change (inject_Z 1) with 1%Q in H2.
    set (r := inject_Z (Qfloor (x + (1 # 2)))) in *. clearbody r.
    intros Ht. rewrite (Qabs_pos x) by exact E.
    destruct (Qlt_le_dec (r - x) 0) as [Hn|Hp].
    + rewrite (Qabs_neg (r - x)) in Ht by lra. lra.
    + rewrite (Qabs_pos (r - x)) in Ht by exact Hp.
      rewrite (Qabs_pos r) by lra. lra.
  - apply Qle_bool_false in E. unfold Qceiling.
    pose proof (Qfloor_le (- (x - (1 # 2)))) as H1.
    pose proof (Qlt_floor (- (x - (1 # 2)))) as H2.
    rewrite inject_Z_plus in H2. change (inject_Z 1) with 1%Q in H2.
    rewrite inject_Z_opp.
    set (r := inject_Z (Qfloor (- (x - (1 # 2))))) in *. clearbody r.
    intros Ht. rewrite (Qabs_neg x) by lra.
    destruct (Qlt_le_dec (- r - x) 0) as [Hn|Hp].
    + rewrite (Qabs_neg (- r - x)) in Ht by lra.
      rewrite (Qabs_neg (- r)) by lra. lra.
    + rewrite (Qabs_pos (- r - x)) in Ht by exact Hp. lra.
Qed.

(** What the codec returns for a weight array of [K*N] elements: buffers
    of [K*N/2] and [K*N/GROUP_SIZE] elements, weight [idx] in the low
    nibble of byte [idx/2] when [idx] is even and in the high nibble when
    it is odd, as the rounded quotient by the scale of its group,
    converted to [int8_t] and then clamped. *)
Definition codec_layout (floor_log2 : Q -> Z) (weights_fp32 : list Q)
    (packed0 scales0 : list Z) (K N : Z) : Prop :=
  exists packed scales,
    quantize_mxint4 floor_log2 weights_fp32 packed0 scales0 K N
      = Some (packed, scales) /\
    Z.of_nat (length packed) = K * N / 2 /\
    Z.of_nat (length scales) = K * N / GROUP_SIZE /\
    forall idx, 0 <= idx < K * N ->
      exists s b r,
        zget scales (idx / GROUP_SIZE) = Some s /\ 0 <= s <= 3 /\
        zget packed (idx / 2) = Some b /\ is_uint8 b /\
        is_rounded (weight weights_fp32 idx / inject_Z (2 ^ (2 * s))) r /\
        nibble_signed b (Z.odd idx) = Z.max (-8) (Z.min 7 (wrap8 r)) /\
        (-128 <= r <= 127 ->
         nibble_signed b (Z.odd idx) = Z.max (-8) (Z.min 7 r)).

(** Layout and values of the packed buffer.  On a weight array of
    [K*N] elements made of whole groups, [K], [N] and [K*N] being
    values of [int], [quantize_mxint4] returns a
    packed buffer of exactly [K*N/2] bytes and a scale buffer of exactly
    [K*N/GROUP_SIZE] bytes.  The nibble of weight [idx] (low for an even
    index, high for an odd one, of byte [idx/2]) is the integer nearest
    to the weight divided by [4^scale], converted to [int8_t] and then
    clamped to [-8 .. 7]: where that integer is an [int8_t], the nibble
    is its clamped value. *)
Theorem quantize_mxint4_packs_rounded_quotients floor_log2 weights_fp32 packed0 scales0 K N :
  0 <= K < 2 ^ 31 -> 0 <= N < 2 ^ 31 -> K * N < 2 ^ 31 ->
  Z.of_nat (length weights_fp32) = K * N ->
  (K * N) mod GROUP_SIZE = 0 ->
  codec_layout floor_log2 weights_fp32 packed0 scales0 K N.
Proof.
  intros [HK _] [HN _] Hint Hlen Hdiv.
  destruct (quantize_mxint4_total floor_log2 weights_fp32 packed0 scales0 K N
              HK HN Hint Hlen Hdiv)
    as (packed & scales & Hrun & Hlp & Hls & Hsc & Hpk).
  exists packed, scales. split; [exact Hrun|]. split; [exact Hlp|].
  split; [exact Hls|]. intros idx Hidx. unfold GROUP_SIZE in *.
  assert (HG : K * N = 16 * (K * N / 16)).
  { pose proof (Z.div_mod (K * N) 16 ltac:(lia)). lia. }
  assert (H2 : K * N / 2 = 8 * (K * N / 16)).
  { symmetry. apply Z.div_unique_exact; lia. }
  assert (Hg : 0 <= idx / 16 < K * N / 16).
  { split; [apply Z.div_pos; lia | apply Z.div_lt_upper_bound; lia]. }
  assert (Hi : 0 <= idx / 2 < K * N / 2).
  { split; [apply Z.div_pos; lia | apply Z.div_lt_upper_bound; lia]. }
  set (sh := shift_of floor_log2 weights_fp32 (idx / 16)).
  pose proof (group_shift_range floor_log2
                (group_max weights_fp32 (idx / 16))) as Hsh.
  fold (shift_of floor_log2 weights_fp32 (idx / 16)) in Hsh. fold sh in Hsh.
  set (q0 := quantized floor_log2 weights_fp32 (2 * (idx / 2))).
  set (q1 := quantized floor_log2 weights_fp32 (2 * (idx / 2) + 1)).
  assert (R0 : -8 <= q0 <= 7) by apply clamp4_range.
  assert (R1 : -8 <= q1 <= 7) by apply clamp4_range.
  destruct (pack_nibbles_fields q0 q1 R0 R1) as (F0 & F1 & F2).
  assert (Hq : nibble_signed (pack_nibbles q0 q1) (Z.odd idx)
               = quantized floor_log2 weights_fp32 idx).
  { pose proof (Z.div_mod idx 2 ltac:(lia)) as Hdm.
    rewrite Zmod_odd in Hdm. destruct (Z.odd idx).
    - rewrite F1. unfold q1. f_equal. lia.
    - rewrite F0. unfold q0. f_equal. lia. }
  exists sh, (pack_nibbles q0 q1),
    (fround (weight weights_fp32 idx / inject_Z (2 ^ (2 * sh)))).
  split; [apply Hsc; unfold GROUP_SIZE; exact Hg|]. split; [exact Hsh|].
  split; [apply Hpk; exact Hi|]. split; [exact F2|].
  split; [apply fround_is_rounded|].
  assert (Hval : quantized floor_log2 weights_fp32 idx
                 = Z.max (-8) (Z.min 7 (wrap8 (fround
                     (weight weights_fp32 idx / inject_Z (2 ^ (2 * sh))))))).
  { unfold quantized, quantize_weight, scale_of, clamp4, GROUP_SIZE. fold sh.
    replace (sh * 2) with (2 * sh) by lia. reflexivity. }
  split; [rewrite Hq; exact Hval|].
  intros Hr. rewrite Hq, Hval. rewrite wrap8_id by (unfold is_int8; lia).
  reflexivity.
Qed.

Lemma quantize_mxint4_packs_rounded_quotients_witness :
  codec_layout floor_log2f wrapping_weights [] [] 1 16.
Proof.
  apply quantize_mxint4_packs_rounded_quotients;
    [lia | lia | reflexivity | reflexivity | reflexivity].
Defined.

(** ** The harness ([main.cpp], lines 113-192)

    [main] with its three dimension constants [M], [K], [N] as
    parameters.  The generated activations and their scaled values are
    multiples of [1/8] with small numerators, floats all of them, and are
    computed exactly; the generated weights are quotients by 9, rounded
    to a [float] by a parameter [fl32] of the model.  [tapa::invoke] runs
    the kernel on the output buffer [out_hw]. *)

(** [std::min(a, b)] is [(b < a) ? b : a]. *)
Definition fmin (a b : Q) : Q := if negb (Qle_bool a b) then b else a.

(** Conversion of a [float] to an integer type: toward zero. *)
Definition ftrunc (x : Q) : Z := Z.quot (Qnum x) (Z.pos (Qden x)).

(** The state of the engine with [r] as its output buffer. *)
Definition with_result (s : state) (r : list Z) : state :=
  mkState (A_cache s) (W_cache s) (A_work s) (W_work s) (C_work s)
          r (result_stores s).

(** A loop that counts the indices of [lo .. hi-1] at which two buffers
    differ, lines 172-176 and 179-181. *)
Definition count_errors (differs : Z -> Z -> bool) (out_hw out_cpu : list Z)
    (lo hi : Z) (errors : Z) : option Z :=
  for_range lo hi
    (fun i errors =>
       a ← zget out_hw i;
       b ← zget out_cpu i;
       Some (if differs a b then errors + 1 else errors))
    errors.

Section Harness.
Variable fl32 : Q -> Q.
Variable floor_log2 : Q -> Z.
Variables (M K N : Z).

(** Lines 121 and 124-126. *)
Definition generate_activations : option (list Q) :=
  for_range 0 (M * K)
    (fun i act_fp32 => zset act_fp32 i (inject_Z (Z.rem i 17 - 8) / 8)%Q)
    (replicate (Z.to_nat (M * K)) 0%Q).

(** Lines 122 and 127-129. *)
Definition generate_weights : option (list Q) :=
  for_range 0 (K * N)
    (fun i wgt_fp32 => zset wgt_fp32 i (fl32 (inject_Z (Z.rem i 19 - 9) / 9)%Q))
    (replicate (Z.to_nat (K * N)) 0%Q).

(** Lines 132-136. *)
Definition quantize_activations (act_fp32 : list Q) : option (list Z) :=
  for_range 0 (M * K)
    (fun i act_int8 =>
       x ← zget act_fp32 i;
       let val := (x * 127)%Q in
       zset act_int8 i (wrap8 (ftrunc (fmax (-127) (fmin 127 val)))))
    (replicate (Z.to_nat (M * K)) 0).

(** Lines 171-181: the number [errors] after the two counting loops. *)
Definition verify (out_hw out_cpu : list Z) : option Z :=
  errors ← count_errors (fun a b => negb (wrap32 (a - b) =? 0)) out_hw out_cpu
             0 (Z.min 10 (M * N)) 0;
  count_errors (fun a b => negb (a =? b)) out_hw out_cpu 0 (M * N) errors.

(** The return code of [main]. *)
Definition harness (s : state) : option Z :=
  act_fp32 ← generate_activations;
  wgt_fp32 ← generate_weights;
  act_int8 ← quantize_activations act_fp32;
  quantized ← quantize_mxint4 floor_log2 wgt_fp32 [] [] K N;
  let wgt_packed := fst quantized in
  let scales := snd quantized in
  out_cpu ← cpu_reference act_int8 wgt_packed scales M K N [];
  s' ← SystolicArrayKernel act_int8 wgt_packed scales M K N
         (with_result s (replicate (Z.to_nat (M * N)) 0));
  errors ← verify (result s') out_cpu;
  Some (if errors =? 0 then 0 else 1).
End Harness.

Definition main (fl32 : Q -> Q) (floor_log2 : Q -> Z) (s : state) : option Z :=
  harness fl32 floor_log2 M_DIM K_DIM N_DIM s.

(** Filling a vector element by element. *)
Lemma fill_total {A} (f : Z -> A) (n : Z) (v0 : list A) :
  0 <= n -> Z.of_nat (length v0) = n ->
  exists v,
    for_range 0 n (fun i v => zset v i (f i)) v0 = Some v /\
    Z.of_nat (length v) = n /\
    forall i, 0 <= i < n -> zget v i = Some (f i).
Proof.
  intros Hn Hlen.
  destruct (for_range_total
    (fun i0 (v : list A) =>
       Z.of_nat (length v) = n /\
       forall i, 0 <= i < i0 -> zget v i = Some (f i))
    0 n (fun i v => zset v i (f i)) v0) as (v & Hrun & Hl & Hv).
  - exact Hn.
  - split; [exact Hlen | intros; lia].
  - intros i t Hi [Hl Ht].
    pose proof (zset_in_range t i (f i) ltac:(lia)) as Hz.
    eexists. split; [exact Hz|]. split.
    + rewrite length_insert. exact Hl.
    + intros i' Hi'. destruct (Z.eq_dec i' i) as [->|Hne].
      * apply (zget_zset_eq _ _ _ _ Hz).
      * rewrite (zget_zset_ne _ _ _ _ _ Hz) by lia. apply Ht. lia.
  - exists v. split; [exact Hrun|]. split; [exact Hl|]. exact Hv.
Qed.

(** The 8-bit activation made from the residue [r = i % 17]. *)
Definition activation_of (r : Z) : Z := Z.quot (127 * (r - 8)) 8.

Definition activation_table_ok : bool :=
  all_below 17 (fun r =>
    wrap8 (ftrunc (fmax (-127) (fmin 127 (inject_Z (r - 8) / 8 * 127)%Q)))
    =? activation_of r).

Lemma activation_value r :
  0 <= r < 17 ->
  wrap8 (ftrunc (fmax (-127) (fmin 127 (inject_Z (r - 8) / 8 * 127)%Q)))
    = activation_of r.
Proof.
  intros Hr.
  assert (Ht : activation_table_ok = true) by (vm_compute; reflexivity).
  pose proof (all_below_spec 17 _ Ht r ltac:(lia)) as H. cbv beta in H.
  apply Z.eqb_eq in H. exact H.
Qed.

Lemma activation_of_range r : 0 <= r < 17 -> -127 <= activation_of r <= 127.
Proof.
  intros Hr. unfold activation_of.
  assert (H : all_below 17 (fun r => (-127 <=? Z.quot (127 * (r - 8)) 8)
                                      && (Z.quot (127 * (r - 8)) 8 <=? 127)) = true)
    by (vm_compute; reflexivity).
  pose proof (all_below_spec 17 _ H r ltac:(lia)) as Hb. cbv beta in Hb.
  apply andb_true_iff in Hb as [H1 H2]. lia.
Qed.

Lemma generated_activations M K :
  0 <= M * K ->
  exists act_fp32 act_int8,
    generate_activations M K = Some act_fp32 /\
    quantize_activations M K act_fp32 = Some act_int8 /\
    Z.of_nat (length act_int8) = M * K /\
    forall i, 0 <= i < M * K ->
      zget act_int8 i = Some (activation_of (i mod 17)).
Proof.
  intros Hn.
  destruct (fill_total (fun i => (inject_Z (Z.rem i 17 - 8) / 8)%Q) (M * K)
              (replicate (Z.to_nat (M * K)) 0%Q) Hn) as (fp & Hfp & Lfp & Vfp).
  { rewrite length_replicate. lia. }
  exists fp.
  destruct (for_range_total
    (fun i0 (v : list Z) =>
       Z.of_nat (length v) = M * K /\
       forall i, 0 <= i < i0 -> zget v i = Some (activation_of (i mod 17)))
    0 (M * K)
    (fun i act_int8 =>
       x ← zget fp i;
       let val := (x * 127)%Q in
       zset act_int8 i (wrap8 (ftrunc (fmax (-127) (fmin 127 val)))))
    (replicate (Z.to_nat (M * K)) 0)) as (v & Hrun & Hl & Hv).
  - exact Hn.
  - split; [rewrite length_replicate; lia | intros; lia].
  - intros i t Hi [Hl Ht]. rewrite (Vfp i Hi). cbn [mbind option_bind]. cbv zeta.
    rewrite Z.rem_mod_nonneg by lia.
    rewrite activation_value by (apply Z.mod_pos_bound; lia).
    pose proof (zset_in_range t i (activation_of (i mod 17)) ltac:(lia)) as Hz.
    eexists. split; [exact Hz|]. split.
    + rewrite length_insert. exact Hl.
    + intros i' Hi'. destruct (Z.eq_dec i' i) as [->|Hne].
      * apply (zget_zset_eq _ _ _ _ Hz).
      * rewrite (zget_zset_ne _ _ _ _ _ Hz) by lia. apply Ht. lia.
  - exists v. split; [exact Hfp|]. split; [exact Hrun|]. split; [exact Hl|].
    exact Hv.
Qed.

(** The activations [main] generates: element [i] is
    [127 * ((i mod 17) - 8) / 8] rounded toward zero, a value of
    [-127 .. 127], so that the clamp never applies and every activation is
    an 8-bit value. *)
Theorem main_activations_are_int8 M K :
  0 <= M * K ->
  exists act_fp32 act_int8,
    generate_activations M K = Some act_fp32 /\
    quantize_activations M K act_fp32 = Some act_int8 /\
    Z.of_nat (length act_int8) = M * K /\
    forall i, 0 <= i < M * K ->
      exists a, zget act_int8 i = Some a /\
                a = Z.quot (127 * ((i mod 17) - 8)) 8 /\ -127 <= a <= 127.
Proof.
  intros Hn.
  destruct (generated_activations M K Hn) as (fp & v & H1 & H2 & H3 & H4).
  exists fp, v. split; [exact H1|]. split; [exact H2|]. split; [exact H3|].
  intros i Hi. exists (activation_of (i mod 17)).
  split; [apply H4; exact Hi|]. split; [reflexivity|].
  apply activation_of_range. apply Z.mod_pos_bound. lia.
Qed.

Lemma main_activations_are_int8_witness :
  exists act_fp32 act_int8,
    generate_activations 3 20 = Some act_fp32 /\
    quantize_activations 3 20 act_fp32 = Some act_int8 /\
    Z.of_nat (length act_int8) = 3 * 20 /\
    forall i, 0 <= i < 3 * 20 ->
      exists a, zget act_int8 i = Some a /\
                a = Z.quot (127 * ((i mod 17) - 8)) 8 /\ -127 <= a <= 127.
Proof.
  apply main_activations_are_int8. lia.
Defined.

(** The number of indices below [n] at which two buffers differ. *)
Fixpoint count_differ (l1 l2 : list Z) (n : nat) : Z :=
  match n with
  | O => 0
  | Datatypes.S n' =>
      count_differ l1 l2 n'
      + (if zat l1 (Z.of_nat n') =? zat l2 (Z.of_nat n') then 0 else 1)
  end.

Lemma count_differ_nonneg l1 l2 n : 0 <= count_differ l1 l2 n.
Proof.
  induction n as [|n IH]; [cbn; lia|]. cbn [count_differ].
  destruct (zat l1 (Z.of_nat n) =? zat l2 (Z.of_nat n)); lia.
Qed.

Lemma count_differ_zero l1 l2 n :
  count_differ l1 l2 n = 0 <->
  forall i, 0 <= i < Z.of_nat n -> zat l1 i = zat l2 i.
Proof.
  induction n as [|n IH]; [cbn; split; [intros; lia | reflexivity]|].
  cbn [count_differ]. pose proof (count_differ_nonneg l1 l2 n) as Hc.
  destruct (Z.eqb_spec (zat l1 (Z.of_nat n)) (zat l2 (Z.of_nat n))) as [E|E].
  - rewrite Z.add_0_r, IH. split.
    + intros H i Hi. destruct (Z.eq_dec i (Z.of_nat n)) as [->|Hne];
        [exact E | apply H; lia].
    + intros H i Hi. apply H. lia.
  - split; [lia|]. intros H. exfalso. apply E, H. lia.
Qed.

Lemma wrap32_difference a b :
  is_int32 a -> is_int32 b -> (wrap32 (a - b) =? 0) = (a =? b).
Proof.
  unfold is_int32, wrap32. change (2 ^ 31) with 2147483648.
  change (2 ^ 32) with 4294967296. intros Ha Hb.
  destruct (Z.eqb_spec a b) as [->|Hne].
  - rewrite Z.sub_diag. reflexivity.
  - apply Z.eqb_neq. intros H.
    pose proof (Z.div_mod (a - b + 2147483648) 4294967296 ltac:(lia)) as Hdm.
    pose proof (Z.mod_pos_bound (a - b + 2147483648) 4294967296 ltac:(lia)).
    lia.
Qed.

(** A counting loop adds to [errors] the number of differing indices. *)
Lemma count_errors_total (differs : Z -> Z -> bool) (out_hw out_cpu : list Z) n e0 :
  0 <= n -> n <= Z.of_nat (length out_hw) -> n <= Z.of_nat (length out_cpu) ->
  (forall i, 0 <= i < n ->
     differs (zat out_hw i) (zat out_cpu i)
       = negb (zat out_hw i =? zat out_cpu i)) ->
  count_errors differs out_hw out_cpu 0 n e0
    = Some (e0 + count_differ out_hw out_cpu (Z.to_nat n)).
Proof.
  intros Hn Hhw Hcpu Hd. unfold count_errors.
  destruct (for_range_total
    (fun i (e : Z) => e = e0 + count_differ out_hw out_cpu (Z.to_nat i))
    0 n
    (fun i errors =>
       a ← zget out_hw i; b ← zget out_cpu i;
       Some (if differs a b then errors + 1 else errors)) e0)
    as (e & Hrun & ->).
  - exact Hn.
  - change (Z.to_nat 0) with O. cbn [count_differ]. lia.
  - intros i t Hi ->.
    destruct (zget_in_range out_hw i ltac:(lia)) as [a Ha].
    destruct (zget_in_range out_cpu i ltac:(lia)) as [b Hb].
    rewrite Ha. cbn [mbind option_bind]. rewrite Hb. cbn [mbind option_bind].
    eexists. split; [reflexivity|].
    replace (Z.to_nat (i + 1)) with (Datatypes.S (Z.to_nat i)) by lia.
    cbn [count_differ]. rewrite Z2Nat.id by lia.
    specialize (Hd i Hi). rewrite (zat_Some _ _ _ Ha), (zat_Some _ _ _ Hb) in *.
    rewrite Hd. destruct (a =? b); cbn [negb]; lia.
  - exact Hrun.
Qed.

Lemma Forall_zat_int32 l i : Forall is_int32 l -> is_int32 (zat l i).
Proof.
  intros H. unfold zat. destruct (zget l i) as [v|] eqn:E.
  - apply zget_Some in E as [_ E]. cbn.
    rewrite Forall_forall in H. apply H. eapply list_elem_of_lookup_2. exact E.
  - cbn. unfold is_int32. change (2 ^ 31) with 2147483648. lia.
Qed.

Lemma all_int32_Forall l :
  all_between (-2147483648) 2147483647 l = true -> Forall is_int32 l.
Proof.
  intros H. apply all_between_Forall in H.
  eapply Forall_impl; [exact H|]. intros z Hz. cbv beta in Hz.
  unfold is_int32. change (2 ^ 31) with 2147483648. lia.
Qed.

Lemma verify_total M N (out_hw out_cpu : list Z) :
  0 <= M * N ->
  M * N <= Z.of_nat (length out_hw) -> M * N <= Z.of_nat (length out_cpu) ->
  Forall is_int32 out_hw -> Forall is_int32 out_cpu ->
  verify M N out_hw out_cpu
    = Some (count_differ out_hw out_cpu (Z.to_nat (Z.min 10 (M * N)))
            + count_differ out_hw out_cpu (Z.to_nat (M * N))).
Proof.
  intros Hn Hhw Hcpu Thw Tcpu. unfold verify.
  rewrite count_errors_total; [| lia | lia | lia |].
  - cbn [mbind option_bind]. rewrite count_errors_total; [| lia | lia | lia |].
    + f_equal.
    + intros i Hi. reflexivity.
  - intros i Hi. rewrite wrap32_difference; [reflexivity | |];
      apply Forall_zat_int32; assumption.
Qed.

(** The error count [main] prints counts a mismatch among the first ten
    elements twice: it is the number of mismatches among the first
    [min (10, M*N)] elements plus the number among all [M*N]. *)
Theorem verify_counts_first_ten_twice M N (out_hw out_cpu : list Z) :
  0 <= M * N ->
  M * N <= Z.of_nat (length out_hw) -> M * N <= Z.of_nat (length out_cpu) ->
  Forall is_int32 out_hw -> Forall is_int32 out_cpu ->
  verify M N out_hw out_cpu
    = Some (count_differ out_hw out_cpu (Z.to_nat (Z.min 10 (M * N)))
            + count_differ out_hw out_cpu (Z.to_nat (M * N))).
Proof. apply verify_total. Qed.

Lemma verify_counts_first_ten_twice_witness :
  verify 3 4 [1; 2; 3; 4; 5; 6; 7; 8; 9; 10; 11; 12]
             [1; 0; 3; 4; 5; 6; 7; 8; 9; 10; 11; 0]
    = Some (count_differ [1; 2; 3; 4; 5; 6; 7; 8; 9; 10; 11; 12]
                         [1; 0; 3; 4; 5; 6; 7; 8; 9; 10; 11; 0]
                         (Z.to_nat (Z.min 10 (3 * 4)))
            + count_differ [1; 2; 3; 4; 5; 6; 7; 8; 9; 10; 11; 12]
                           [1; 0; 3; 4; 5; 6; 7; 8; 9; 10; 11; 0]
                           (Z.to_nat (3 * 4))).
Proof.
  apply verify_counts_first_ten_twice; try (cbn; lia);
    apply all_int32_Forall; vm_compute; reflexivity.
Defined.

(** [main] reports no error exactly when the two output buffers agree
    on all [M*N] elements. *)
Theorem verify_passes_iff_equal M N (out_hw out_cpu : list Z) :
  0 <= M * N ->
  M * N <= Z.of_nat (length out_hw) -> M * N <= Z.of_nat (length out_cpu) ->
  Forall is_int32 out_hw -> Forall is_int32 out_cpu ->
  (verify M N out_hw out_cpu = Some 0 <->
   forall i, 0 <= i < M * N -> zget out_hw i = zget out_cpu i).
Proof.
  intros Hn Hhw Hcpu Thw Tcpu.
  rewrite (verify_total M N out_hw out_cpu Hn Hhw Hcpu Thw Tcpu).
  pose proof (count_differ_nonneg out_hw out_cpu (Z.to_nat (Z.min 10 (M * N)))) as H1.
  pose proof (count_differ_nonneg out_hw out_cpu (Z.to_nat (M * N))) as H2.
  assert (Hall : count_differ out_hw out_cpu (Z.to_nat (M * N)) = 0 <->
                 forall i, 0 <= i < M * N -> zget out_hw i = zget out_cpu i).
  { rewrite count_differ_zero. rewrite Z2Nat.id by lia.
    split; intros H i Hi; specialize (H i Hi);
      destruct (zget_in_range out_hw i ltac:(lia)) as [a Ha];
      destruct (zget_in_range out_cpu i ltac:(lia)) as [b Hb];
      unfold zat in *; rewrite Ha, Hb in *; cbn in *; congruence. }
  split.
  - intros [= H]. apply Hall. lia.
  - intros H. apply Hall in H. f_equal.
    assert (Hfirst : count_differ out_hw out_cpu (Z.to_nat (Z.min 10 (M * N))) = 0).
    { apply count_differ_zero. intros i Hi.
      apply (proj1 (count_differ_zero out_hw out_cpu (Z.to_nat (M * N))) H). lia. }
    lia.
Qed.

Lemma verify_passes_iff_equal_witness :
  verify 2 3 [5; -6; 7; 0; 1; 2] [5; -6; 7; 0; 1; 2; 99] = Some 0 <->
  forall i, 0 <= i < 2 * 3 ->
    zget [5; -6; 7; 0; 1; 2] i = zget [5; -6; 7; 0; 1; 2; 99] i.
Proof.
  apply verify_passes_iff_equal; try (cbn; lia);
    apply all_int32_Forall; vm_compute; reflexivity.
Defined.

Lemma count_errors_same (differs : Z -> Z -> bool) (l : list Z) n e :
  (forall a, differs a a = false) ->
  n <= Z.of_nat (length l) ->
  count_errors differs l l 0 n e = Some e.
Proof.
  intros Hd Hn. unfold count_errors.
  destruct (for_range_runs (fun e' => e' = e) 0 n
    (fun i errors =>
       a ← zget l i; b ← zget l i;
       Some (if differs a b then errors + 1 else errors)) e eq_refl)
    as (e' & Hrun & ->); [|exact Hrun].
  intros i t Hi ->.
  destruct (zget_in_range l i ltac:(lia)) as [a Ha].
  rewrite Ha. cbn [mbind option_bind]. rewrite Hd. eauto.
Qed.

Lemma verify_same M N (l : list Z) :
  M * N <= Z.of_nat (length l) -> verify M N l l = Some 0.
Proof.
  intros Hl. unfold verify.
  rewrite count_errors_same; [| | lia].
  - cbn [mbind option_bind]. apply count_errors_same; [|lia].
    intros a. rewrite Z.eqb_refl. reflexivity.
  - intros a. rewrite Z.sub_diag. reflexivity.
Qed.

Lemma harness_passes fl32 floor_log2 M K N s :
  valid_dims M K N -> harness fl32 floor_log2 M K N s = Some 0.
Proof.
  intros Hd. pose proof Hd as (HM & HK & HN & HMd & HKd & HNd).
  assert (HMK : 0 <= M * K) by nia. assert (HKN : 0 <= K * N) by nia.
  assert (HMN : 0 <= M * N) by nia.
  destruct (generated_activations M K HMK) as (fp & act & E1 & E2 & Lact & Vact).
  destruct (fill_total (fun i => fl32 (inject_Z (Z.rem i 19 - 9) / 9)%Q) (K * N)
              (replicate (Z.to_nat (K * N)) 0%Q) HKN) as (wf & E3 & Lw & _).
  { rewrite length_replicate. lia. }
  assert (Tact : Forall is_int8 act).
  { apply Forall_zget. intros i v Hv. pose proof (zget_lt _ _ _ Hv) as Hi.
    rewrite Vact in Hv by lia. injection Hv as <-.
    pose proof (activation_of_range (i mod 17)
                  ltac:(apply Z.mod_pos_bound; lia)).
    unfold is_int8. lia. }
  destruct (quantize_mxint4_valid_input floor_log2 wf [] [] act M K N
              Hd Lw Lact Tact) as (packed & scales & E4 & _ & Hv).
  destruct (kernel_matches_reference act packed scales M K N
              (with_result s (replicate (Z.to_nat (M * N)) 0)) [] Hv)
    as (s' & out' & E5 & E6 & Eres).
  { cbn [with_result result]. rewrite length_replicate. lia. }
  assert (Lout : Z.of_nat (length out') = M * N).
  { destruct (cpu_reference_total act packed scales M K N Hv [])
      as (o & Eo & Lo & _). congruence. }
  unfold harness. fold (generate_activations M K). rewrite E1.
  cbn [mbind option_bind]. fold (generate_weights fl32 K N).
  unfold generate_weights. rewrite E3. cbn [mbind option_bind].
  rewrite E2. cbn [mbind option_bind]. rewrite E4. cbn [mbind option_bind fst snd].
  rewrite E6. cbn [mbind option_bind]. rewrite E5. cbn [mbind option_bind].
  rewrite Eres. rewrite verify_same by lia. reflexivity.
Qed.

(** End to end, for every valid choice of the dimension constants:
    whatever the target rounds the generated weights to, whatever its
    [log2] returns and whatever the static arrays hold, the test
    program finds no mismatch between the engine and the reference
    model and returns 0. *)
Theorem harness_returns_pass fl32 floor_log2 M K N s :
  valid_dims M K N -> harness fl32 floor_log2 M K N s = Some 0.
Proof. apply harness_passes. Qed.

Lemma harness_returns_pass_witness :
  valid_dims 16 32 16 /\
  harness (fun q => q) floor_log2f 16 32 16 (sample_state 7 []) = Some 0.
Proof.
  assert (H : valid_dims 16 32 16).
  { unfold valid_dims, M_DIM, K_DIM, N_DIM, PE_ROWS, PE_COLS.
    repeat split; try lia; reflexivity. }
  split; [exact H | apply (harness_returns_pass _ _ 16 32 16); exact H].
Defined.

(** [main] as compiled, with [M = 128], [K = 4096], [N = 512]: it
    returns 0, that is, it prints PASS. *)
Theorem main_returns_pass fl32 floor_log2 s :
  main fl32 floor_log2 s = Some 0.
Proof.
  unfold main. apply harness_passes.
  unfold valid_dims, M_DIM, K_DIM, N_DIM, PE_ROWS, PE_COLS.
  repeat split; try lia; reflexivity.
Qed.
